(** * PDF2Text: the object model, graph builder and serializer of [main.cpp]

    A shallow embedding of the C++ program and the properties of its
    specification.  Output streams are modelled by the [string] of the bytes
    written so far and by whether they can seek, raw pointers into
    [Context::objectList] by the index of the pointee in that list, and the
    CoreGraphics reader by a finite map from node identities to the node
    read there. *)

From Stdlib Require Import ZArith Ascii String List Lia.
From Stdlib.Strings Require Import Byte.
From stdpp Require Import gmap strings list pretty.

Local Open Scope Z_scope.

(** ** Characters and text *)

(** The line feed written by ["\n"] and by [std::endl]. *)
Definition LF : string := String (ascii_of_nat 10) EmptyString.

(** [operator<<] on [int] and [size_t]: decimal digits, a minus sign first
    for a negative value. *)
Definition show_int (z : Z) : string := pretty z.
Definition show_size (n : nat) : string := pretty n.

(** The pieces of a text, one after the other. *)
Definition join (l : list string) : string := foldr String.append EmptyString l.

(** Two's-complement wrap-around of the C++ [int] (32 bits) and of [size_t]
    (64 bits). *)
Definition wrap_int (z : Z) : Z := (z + 2 ^ 31) mod 2 ^ 32 - 2 ^ 31.
Definition wrap_size (z : Z) : Z := z mod 2 ^ 64.

(** [s.write( p, n )]: the first [n] bytes of the buffer [p]. *)
Definition write (p : string) (n : nat) : string := String.substring 0 n p.

(** ** [make_writable] *)

Fixpoint make_writable (i_s : string) : string :=
  match i_s with
  | EmptyString => EmptyString
  | String it rest =>
      if Ascii.eqb it " "%char
      then "#20" +:+ make_writable rest
      else String it (make_writable rest)
  end.

(** ** [convertData] *)

(** [CFDataRef]: an immutable buffer of [UInt8]. *)
Definition CFDataRef := list byte.

Definition UInt8 (b : byte) : Z := Z.of_N (Byte.to_N b).

Record ConvData := mkConvData { cd_size : nat; cd_data : string }.

(** [char c = a >= 10 ? 'A' + a - 10 : '0' + a] *)
Definition hexChar (a : Z) : ascii :=
  ascii_of_N (Z.to_N (if 10 <=? a then 65 + a - 10 else 48 + a)).

(** The body of the [for] loop of [convertData], from index [i] on: [ptr]
    holds the bytes not yet read. *)
Fixpoint convertLoop (ptr : list byte) (i : Z) : string :=
  match ptr with
  | [] => EmptyString
  | p :: ptr' =>
      let a := Z.shiftr (Z.land (UInt8 p) 240) 4 in
      let b := Z.land (UInt8 p) 15 in
      let i' := i + 1 in
      String (hexChar a) (String (hexChar b)
        ((if i' mod 40 =? 0 then LF else EmptyString) +:+ convertLoop ptr' i'))
  end.

Definition convertData (data : CFDataRef) (doASCII : bool) : ConvData :=
  if negb doASCII then
    {| cd_size := length data;
       cd_data := String.string_of_list_byte data |}
  else
    let s := convertLoop data 0 +:+ LF in
    {| cd_size := String.length s; cd_data := s |}.

(** *** The armoring in the words of the specification *)

(** The sixteen uppercase hexadecimal digits. *)
Definition upperHexDigits : list ascii :=
  ["0"; "1"; "2"; "3"; "4"; "5"; "6"; "7"; "8"; "9";
   "A"; "B"; "C"; "D"; "E"; "F"]%char.

Definition upperHexDigit (n : nat) : ascii := nth n upperHexDigits "?"%char.

(** One byte as its two uppercase hexadecimal digits, high nibble first. *)
Definition hexPair (b : byte) : string :=
  let n := N.to_nat (Byte.to_N b) in
  String (upperHexDigit (n / 16)%nat)
    (String (upperHexDigit (n mod 16)%nat) EmptyString).

Fixpoint hexPairs (bs : list byte) : string :=
  match bs with
  | [] => EmptyString
  | b :: bs' => hexPair b +:+ hexPairs bs'
  end.

(** The digits of [bs] with a line break after every [n] source bytes. *)
Fixpoint hexLines (fuel n : nat) (bs : list byte) : string :=
  match fuel with
  | O => EmptyString
  | S fuel' =>
      if (length bs <? n)%nat then hexPairs bs
      else hexPairs (take n bs) +:+ LF +:+ hexLines fuel' n (drop n bs)
  end.

(** Hex armor: wrapped digits, then the trailing line break. *)
Definition hexArmorEvery (n : nat) (bs : list byte) : string :=
  hexLines (S (length bs)) n bs +:+ LF.

(** ** Outcomes of a run *)

(** A call returns a value, or stops on a failed [assert] or on undefined
    behaviour (a null pointer followed, a vector read past its end), or is
    still running when the fuel of the model is used up. *)
Inductive result (A : Type) : Type :=
  | Ok (a : A)
  | Fault
  | OutOfFuel.
Arguments Ok {A} a.
Arguments Fault {A}.
Arguments OutOfFuel {A}.

#[global] Instance Ok_inj {A : Type} : Inj (=) (=) (@Ok A).
Proof. intros a b H. by injection H. Qed.

#[global] Instance result_ret : MRet result := fun A a => Ok a.
#[global] Instance result_bind : MBind result := fun A B f m =>
  match m with
  | Ok a => f a
  | Fault => Fault
  | OutOfFuel => OutOfFuel
  end.

(** A loop that appends what each round writes. *)
Fixpoint for_each {A : Type} (body : A -> result string) (l : list A)
  : result string :=
  match l with
  | [] => Ok EmptyString
  | x :: l' => r ← body x; rs ← for_each body l'; Ok (r +:+ rs)
  end.

(** [std::map::insert], [std::unordered_map::insert]: a key already present
    keeps its value. *)
Definition map_insert `{Countable K} {V : Type} (k : K) (v : V)
  (m : gmap K V) : gmap K V :=
  match m !! k with
  | Some _ => m
  | None => <[k := v]> m
  end.

(** ** The object model *)

Inductive type_t : Set :=
  | type_invalid
  | type_boolean
  | type_number
  | type_string
  | type_name
  | type_array
  | type_dict
  | type_stream
  | type_null.

Inductive CGPDFDataFormat : Set :=
  | CGPDFDataFormatRaw
  | CGPDFDataFormatJPEGEncoded
  | CGPDFDataFormatJPEG2000.

(** A [PDFObject *]: every pointer the program stores comes out of
    [Context::visited] and points into [Context::objectList]; it is modelled
    by the position of its object in that list, the null pointer by [None]. *)
Abbreviation ptr := nat (only parsing).

Record PDFDictionary : Type := mkDictionary {
  _value : gmap string ptr;
  _order : list string
}.

Record PDFStream : Type := mkStream {
  _dict : PDFDictionary;
  _data : CFDataRef;
  _format : CGPDFDataFormat;
  outputAsText : bool
}.

(** The C++ [float], the reader's [CGPDFReal], the conversions between
    them and [int], and the text [operator<<] writes for a [float]: floating
    point is left to the compiler and its library. *)
Class FloatModel : Type := {
  float : Type;
  CGPDFReal : Type;
  float_of_real : CGPDFReal -> float;
  float_of_int : Z -> float;
  int_of_float : float -> Z;
  show_float : float -> string
}.

(** ** The source reader *)

(** [PDFIdentifier]: the address of a CoreGraphics node, which [IDRef]
    takes from the object itself for a scalar and from the array,
    dictionary or stream it holds otherwise. *)
Abbreviation PDFIdentifier := nat (only parsing).

(** What the reader answers about the node at an identity: its
    [CGPDFObjectType], and its value, with the identities of the children
    of an array, a dictionary or the dictionary of a stream. *)
Inductive CGPDFObject {fm : FloatModel} : Type :=
  | kCGPDFObjectTypeNull
  | kCGPDFObjectTypeBoolean (b : bool)
  | kCGPDFObjectTypeInteger (v : Z)
  | kCGPDFObjectTypeReal (v : CGPDFReal)
  | kCGPDFObjectTypeName (v : string)
  | kCGPDFObjectTypeString (v : string)
  | kCGPDFObjectTypeArray (items : list PDFIdentifier)
  | kCGPDFObjectTypeDictionary (entries : list (string * PDFIdentifier))
  | kCGPDFObjectTypeStream (entries : list (string * PDFIdentifier))
      (data : CFDataRef) (format : CGPDFDataFormat).

Abbreviation CGPDFDocument := (gmap nat CGPDFObject) (only parsing).

(** [CGPDFDictionaryApplyFunction( dict, dictVisitor, &keys )] *)
Definition dictVisitor (entries : list (string * PDFIdentifier))
  : list string :=
  map fst entries.

(** [CGPDFDictionaryGetObject( dict, key, &value )] *)
Fixpoint CGPDFDictionaryGetObject (entries : list (string * PDFIdentifier))
  (key : string) : option PDFIdentifier :=
  match entries with
  | [] => None
  | (k, value) :: rest =>
      if String.eqb k key then Some value
      else CGPDFDictionaryGetObject rest key
  end.

Section Model.

Context {fm : FloatModel}.

Inductive PDFNumber : Type :=
  | IntValue (_intValue : Z)
  | FloatValue (_floatValue : float).

(** The subclasses of [PDFObject] with their own fields. *)
Inductive PDFValue : Type :=
  | Boolean (v : bool)
  | Number (v : PDFNumber)
  | String_ (v : string)
  | Name (v : string)
  | Array (v : list ptr)
  | Dictionary (d : PDFDictionary)
  | Stream (st : PDFStream)
  | Null.

Record PDFObject : Type := mkObject {
  _refCount : Z;
  _id : Z;
  _sub : PDFValue
}.

(** Every constructor starts with [_refCount{1}] and [_id{0}]. *)
Definition new (v : PDFValue) : PDFObject :=
  {| _refCount := 1; _id := 0; _sub := v |}.

(** The tag each subclass constructor passes to [PDFObject]. *)
Definition type (o : PDFObject) : type_t :=
  match _sub o with
  | Boolean _ => type_boolean
  | Number _ => type_number
  | String_ _ => type_string
  | Name _ => type_name
  | Array _ => type_array
  | Dictionary _ => type_dict
  | Stream _ => type_stream
  | Null => type_null
  end.

Definition isNumber (o : PDFObject) : bool :=
  match type o with type_number => true | _ => false end.
Definition isName (o : PDFObject) : bool :=
  match type o with type_name => true | _ => false end.
Definition isDictionary (o : PDFObject) : bool :=
  match type o with type_dict => true | _ => false end.
Definition isStream (o : PDFObject) : bool :=
  match type o with type_stream => true | _ => false end.

Definition asNumber (o : PDFObject) : option PDFNumber :=
  if isNumber o then match _sub o with Number n => Some n | _ => None end
  else None.
Definition asName (o : PDFObject) : option string :=
  if isName o then match _sub o with Name v => Some v | _ => None end
  else None.
Definition asDictionary (o : PDFObject) : option PDFDictionary :=
  if isDictionary o
  then match _sub o with Dictionary d => Some d | _ => None end
  else None.
Definition asStream (o : PDFObject) : option PDFStream :=
  if isStream o then match _sub o with Stream st => Some st | _ => None end
  else None.

Definition inc (o : PDFObject) : PDFObject :=
  {| _refCount := wrap_size (_refCount o + 1);
     _id := _id o; _sub := _sub o |}.

Definition indirect (o : PDFObject) : bool :=
  (1 <? _refCount o) || isStream o || isDictionary o.

Definition setID (i : Z) (o : PDFObject) : PDFObject :=
  {| _refCount := _refCount o; _id := i; _sub := _sub o |}.
Definition getID (o : PDFObject) : Z := _id o.

Definition isInt (n : PDFNumber) : bool :=
  match n with IntValue _ => true | FloatValue _ => false end.
Definition intValue (n : PDFNumber) : Z :=
  match n with IntValue i => i | FloatValue f => int_of_float f end.
Definition floatValue (n : PDFNumber) : float :=
  match n with IntValue i => float_of_int i | FloatValue f => f end.

(** *** [PDFDictionary] *)

Definition PDFDictionary_new : PDFDictionary :=
  {| _value := ∅; _order := [] |}.

Definition PDFDictionary_count (d : PDFDictionary) : nat :=
  length (_order d).

(** [value( i_key )] *)
Definition PDFDictionary_value (d : PDFDictionary) (i_key : string)
  : option ptr :=
  _value d !! i_key.

(** [value( i_index, o_key )]: the pointer returned and [o_key] after the
    call.  [_order[i_index]] with [i_index] not below [_order.size()] is
    undefined behaviour. *)
Definition PDFDictionary_value_at (d : PDFDictionary) (i_index : nat)
  (o_key : string) : result (option ptr * string) :=
  if (PDFDictionary_count d <? i_index)%nat then Ok (None, o_key)
  else
    match _order d !! i_index with
    | Some k => Ok (PDFDictionary_value d k, k)
    | None => Fault
    end.

Definition PDFDictionary_addValue (i_key : string) (i_obj : ptr)
  (d : PDFDictionary) : PDFDictionary :=
  {| _value := map_insert i_key i_obj (_value d);
     _order := _order d ++ [i_key] |}.

(** *** [PDFArray] *)

Definition PDFArray_count (v : list ptr) : nat := length v.

(** [_value[i_index]] *)
Definition PDFArray_value (v : list ptr) (i_index : nat) : result ptr :=
  match v !! i_index with
  | Some p => Ok p
  | None => Fault
  end.

Definition PDFArray_addValue (i_obj : ptr) (v : list ptr) : list ptr :=
  v ++ [i_obj].

(** Following a pointer into the object list. *)
Definition deref (objectList : list PDFObject) (p : option ptr)
  : result PDFObject :=
  match p with
  | None => Fault
  | Some i =>
      match objectList !! i with
      | Some o => Ok o
      | None => Fault
      end
  end.

(** ** The serializer *)

#[local] Instance type_t_eq_dec : EqDecision type_t.
Proof. solve_decision. Defined.

(** A child of an array or dictionary: [if ( o->indirect() ) s <<
    o->getID() << " 0 R" << sep; else { WriteObject( s, o ); s << sep; }] *)
Definition writeChild (W : PDFObject -> result string)
  (objectList : list PDFObject) (o : option ptr) (sep : string)
  : result string :=
  obj ← deref objectList o;
  if indirect obj then Ok (show_int (getID obj) +:+ " 0 R" +:+ sep)
  else r ← W obj; Ok (r +:+ sep).

(** One round of the loop over a dictionary. *)
Definition writeEntry (W : PDFObject -> result string)
  (objectList : list PDFObject) (dict : PDFDictionary) (i : nat)
  : result string :=
  '(o, name) ← PDFDictionary_value_at dict i EmptyString;
  c ← writeChild W objectList o LF;
  Ok ("/" +:+ name +:+ " " +:+ c).

(** [type != nullptr and type->type() == PDFObject::type_name and
    type->asName()->value() == "Metadata"] *)
Definition isMetadata (objectList : list PDFObject) (dict : PDFDictionary)
  : result bool :=
  match PDFDictionary_value dict "Type" with
  | None => Ok false
  | Some p =>
      t ← deref objectList (Some p);
      if bool_decide (type t = type_name) then
        match asName t with
        | Some v => Ok (String.eqb v "Metadata")
        | None => Fault
        end
      else Ok false
  end.

Definition doASCII_of (metadata : bool) (st : PDFStream) : bool :=
  if metadata then false
  else if outputAsText st then false
  else true.

(** The [/Filter] line written before the entries of a stream. *)
Definition writeFilter (doASCII : bool) (format : CGPDFDataFormat) : string :=
  if doASCII then
    match format with
    | CGPDFDataFormatJPEGEncoded =>
        "/Filter [/ASCIIHexDecode /DCTDecode]" +:+ LF
    | CGPDFDataFormatJPEG2000 =>
        "/Filter [/ASCIIHexDecode /JPXDecode]" +:+ LF
    | CGPDFDataFormatRaw => "/Filter /ASCIIHexDecode" +:+ LF
    end
  else EmptyString.

(** One round of the loop over the dictionary of a stream. *)
Definition writeStreamEntry (W : PDFObject -> result string)
  (objectList : list PDFObject) (dict : PDFDictionary) (convData : ConvData)
  (i : nat) : result string :=
  '(o, name) ← PDFDictionary_value_at dict i EmptyString;
  if String.eqb name "Filter" then Ok EmptyString
  else if String.eqb name "Length" then
    Ok ("/Length " +:+ show_size (cd_size convData) +:+ LF)
  else
    c ← writeChild W objectList o LF;
    Ok ("/" +:+ name +:+ " " +:+ c).

Fixpoint WriteObject (fuel : nat) (objectList : list PDFObject)
  (obj : PDFObject) : result string :=
  match fuel with
  | O => OutOfFuel
  | S fuel' =>
      let W := WriteObject fuel' objectList in
      match _sub obj with
      | Boolean v => Ok (if v then "true " else "false ")
      | Number n =>
          Ok (if isInt n then show_int (intValue n)
              else show_float (floatValue n))
      | String_ v => Ok ("(" +:+ v +:+ ")")
      | Name v => Ok ("/" +:+ make_writable v)
      | Array v =>
          body ← for_each
            (fun i => o ← PDFArray_value v i;
                      writeChild W objectList (Some o) " ")
            (seq 0 (PDFArray_count v));
          Ok ("[ " +:+ body +:+ "]")
      | Dictionary dict =>
          body ← for_each (writeEntry W objectList dict)
            (seq 0 (PDFDictionary_count dict));
          Ok ("<<" +:+ LF +:+ body +:+ ">>")
      | Stream st =>
          let dict := _dict st in
          metadata ← isMetadata objectList dict;
          let doASCII := doASCII_of metadata st in
          let convData := convertData (_data st) doASCII in
          body ← for_each (writeStreamEntry W objectList dict convData)
            (seq 0 (PDFDictionary_count dict));
          Ok ("<<" +:+ LF +:+ writeFilter doASCII (_format st) +:+ body
              +:+ ">>" +:+ LF +:+ "stream" +:+ LF
              +:+ write (cd_data convData) (cd_size convData)
              +:+ LF +:+ "endstream")
      | Null => Ok "null"
      end
  end.

(** ** [SavePDF] *)

Fixpoint fold_result {A B : Type} (f : B -> A -> result B) (l : list A)
  (b : B) : result B :=
  match l with
  | [] => Ok b
  | x :: l' => b' ← f b x; fold_result f l' b'
  end.

(** The first loop: [if ( it->indirect() ) it->setID( ++i )], with [i] the
    counter before the object list [objectList] is walked. *)
Fixpoint assignIDs (i : Z) (objectList : list PDFObject) : list PDFObject :=
  match objectList with
  | [] => []
  | it :: rest =>
      if indirect it then
        let i' := wrap_int (i + 1) in
        setID i' it :: assignIDs i' rest
      else it :: assignIDs i rest
  end.

(** [stream->outputAsText = true] *)
Definition setOutputAsText (o : PDFObject) : PDFObject :=
  match _sub o with
  | Stream st =>
      {| _refCount := _refCount o; _id := _id o;
         _sub := Stream {| _dict := _dict st; _data := _data st;
                           _format := _format st; outputAsText := true |} |}
  | _ => o
  end.

(** One round of the second loop, at position [it] of the list. *)
Definition locateContents (objectList : list PDFObject) (it : nat)
  : result (list PDFObject) :=
  this ← deref objectList (Some it);
  match asDictionary this with
  | Some dict =>
      match PDFDictionary_value dict "Type" with
      | None => Ok objectList
      | Some p =>
          obj ← deref objectList (Some p);
          match asName obj with
          | None => Ok objectList
          | Some type_ =>
              if String.eqb type_ "Page" then
                match PDFDictionary_value dict "Contents" with
                | None => Ok objectList
                | Some pc =>
                    contents ← deref objectList (Some pc);
                    match asStream contents with
                    | None => Ok objectList
                    | Some _ =>
                        Ok (<[pc := setOutputAsText contents]> objectList)
                    end
                end
              else Ok objectList
          end
      end
  | None =>
      match asStream this with
      | Some stream =>
          match PDFDictionary_value (_dict stream) "FunctionType" with
          | None => Ok objectList
          | Some p =>
              obj ← deref objectList (Some p);
              match asNumber obj with
              | None => Ok objectList
              | Some num =>
                  if intValue num =? 4
                  then Ok (<[it := setOutputAsText this]> objectList)
                  else Ok objectList
              end
          end
      | None => Ok objectList
      end
  end.

(** [s.tellp()], [s] having received [written] so far: the position of a
    stream that can seek, and -1 on one that cannot, as [std::cout] on a
    pipe or a terminal. *)
Definition tellp (seekable : bool) (written : string) : Z :=
  if seekable then Z.of_nat (String.length written) else -1.

(** [s.tellp() - start], [written] being what [s] has received since
    [start = s.tellp()] was taken: the number of bytes written since on a
    stream that can seek, and 0, the difference of -1 and -1, on one that
    cannot. *)
Definition offset (seekable : bool) (written : string) : nat :=
  if seekable then String.length written else 0%nat.

(** The third loop: what has been written since [start], and [xref]. *)
Definition writeIndirect (seekable : bool) (fuel : nat)
  (objectList : list PDFObject)
  (acc : string * gmap Z nat) (current : PDFObject)
  : result (string * gmap Z nat) :=
  if indirect current then
    let xref := map_insert (getID current) (offset seekable acc.1) acc.2 in
    w ← WriteObject fuel objectList current;
    Ok (acc.1 +:+ show_int (getID current) +:+ " 0 obj" +:+ LF
        +:+ w +:+ LF +:+ "endobj" +:+ LF, xref)
  else Ok acc.

(** [std::setfill( '0' ) << std::setw( 10 )] *)
Definition setw10 (s : string) : string :=
  join (replicate (10 - String.length s)%nat "0") +:+ s.

(** [xref[i]]: [operator[]] inserts nothing for a key that is there, as
    every key the loop asks for is when the identifiers are
    [1..xref.size()]. *)
Definition xrefLine (xref : gmap Z nat) (i : Z) : string :=
  setw10 (show_size (default 0%nat (xref !! i)))
    +:+ " " +:+ "00000 n " +:+ LF.

(** The lines of the table after its header: entry 0, then
    [for ( i = 1; i < xref.size() + 1; ++i )]. *)
Definition xrefLines (xref : gmap Z nat) : list string :=
  ("0000000000 00000 n " +:+ LF)
    :: map (xrefLine xref) (seqZ 1 (Z.of_nat (size xref))).

Definition writeXref (xref : gmap Z nat) : string :=
  "xref" +:+ LF +:+ "0 " +:+ show_size (size xref) +:+ LF
    +:+ join (xrefLines xref).

Definition writeTrailer (xref : gmap Z nat) (i_root i_info : PDFObject)
  (startXref : nat) : string :=
  "trailer" +:+ LF
    +:+ "<< /Size " +:+ show_size (size xref)
    +:+ " /Root " +:+ show_int (getID i_root)
    +:+ " 0 R /Info " +:+ show_int (getID i_info) +:+ " 0 R>>" +:+ LF
    +:+ "startxref" +:+ LF
    +:+ show_size startXref +:+ LF
    +:+ "%%EOF" +:+ LF.

Definition writeHeader (majorVersion minorVersion : Z) : string :=
  "%PDF-" +:+ show_int majorVersion +:+ "." +:+ show_int minorVersion +:+ LF
    +:+ "%..." +:+ LF.

(** What [SavePDF] writes to [s] from [start] on; [seekable] tells whether
    [s] can seek. *)
Definition SavePDF (seekable : bool) (fuel : nat)
  (majorVersion minorVersion : Z)
  (objectList : list PDFObject) (i_root i_info : ptr) : result string :=
  let objectList := assignIDs 0 objectList in
  objectList ← fold_result locateContents (seq 0 (length objectList))
                 objectList;
  let header := writeHeader majorVersion minorVersion in
  '(s, xref) ← fold_result (writeIndirect seekable fuel objectList)
                 objectList (header, ∅);
  let startXref := offset seekable s in
  root ← deref objectList (Some i_root);
  info ← deref objectList (Some i_info);
  Ok (s +:+ writeXref xref +:+ writeTrailer xref root info startXref).

(** ** The graph builder *)

Record Context : Type := mkContext {
  objectList : list PDFObject;
  visited : gmap PDFIdentifier ptr
}.

Definition Context_new : Context := {| objectList := []; visited := ∅ |}.

(** [visit->second->inc()] *)
Definition incAt (p : ptr) (ctx : Context) : Context :=
  {| objectList := alter inc p (objectList ctx); visited := visited ctx |}.

(** [ctx.visited.insert( std::make_pair( id, o.get() ) );
    ctx.objectList.push_back( std::move( o ) )] *)
Definition register (id : PDFIdentifier) (o : PDFObject) (ctx : Context)
  : Context :=
  {| objectList := objectList ctx ++ [o];
     visited := map_insert id (length (objectList ctx)) (visited ctx) |}.

(** [ptr->addValue( ... )] on the dictionary or array at [p]. *)
Definition dictAddValue (i_key : string) (i_obj : ptr)
  (o : PDFObject) : PDFObject :=
  match _sub o with
  | Dictionary d =>
      {| _refCount := _refCount o; _id := _id o;
         _sub := Dictionary (PDFDictionary_addValue i_key i_obj d) |}
  | _ => o
  end.

Definition arrayAddValue (i_obj : ptr) (o : PDFObject) : PDFObject :=
  match _sub o with
  | Array v =>
      {| _refCount := _refCount o; _id := _id o;
         _sub := Array (PDFArray_addValue i_obj v) |}
  | _ => o
  end.

Section Visit.

Variable doc : CGPDFDocument.

(** The scalar visitors: the value is read with [CGPDFObjectGetValue] at
    the type of the visitor, and [assert( res )] fails at another type. *)
Definition visitScalar (read : CGPDFObject -> option PDFValue)
  (obj : PDFIdentifier) (ctx : Context) : result Context :=
  match visited ctx !! obj with
  | Some p => Ok (incAt p ctx)
  | None =>
      match doc !! obj ≫= read with
      | Some v => Ok (register obj (new v) ctx)
      | None => Fault
      end
  end.

Definition VisitNull : PDFIdentifier -> Context -> result Context :=
  visitScalar (fun o => Some Null).

Definition VisitInteger : PDFIdentifier -> Context -> result Context :=
  visitScalar (fun o =>
    match o with
    | kCGPDFObjectTypeInteger v => Some (Number (IntValue (wrap_int v)))
    | _ => None
    end).

Definition VisitFloat : PDFIdentifier -> Context -> result Context :=
  visitScalar (fun o =>
    match o with
    | kCGPDFObjectTypeReal v => Some (Number (FloatValue (float_of_real v)))
    | _ => None
    end).

Definition VisitName : PDFIdentifier -> Context -> result Context :=
  visitScalar (fun o =>
    match o with
    | kCGPDFObjectTypeName v => Some (Name v)
    | _ => None
    end).

Definition VisitString : PDFIdentifier -> Context -> result Context :=
  visitScalar (fun o =>
    match o with
    | kCGPDFObjectTypeString v => Some (String_ v)
    | _ => None
    end).

Definition VisitBoolean : PDFIdentifier -> Context -> result Context :=
  visitScalar (fun o =>
    match o with
    | kCGPDFObjectTypeBoolean b => Some (Boolean b)
    | _ => None
    end).

(** [VisitObject( value, ctx ); auto found = ctx.visited.find( IDRef(
    value ) ); assert( found != ctx.visited.end() )] *)
Definition visitChild (VisitObject : PDFIdentifier -> Context -> result Context)
  (value : PDFIdentifier) (ctx : Context) : result (ptr * Context) :=
  ctx' ← VisitObject value ctx;
  match visited ctx' !! value with
  | Some found => Ok (found, ctx')
  | None => Fault
  end.

Definition VisitDict (VisitObject : PDFIdentifier -> Context -> result Context)
  (dict : PDFIdentifier) (ctx : Context) : result (ptr * Context) :=
  match visited ctx !! dict with
  | Some p => Ok (p, incAt p ctx)
  | None =>
      match doc !! dict with
      | Some (kCGPDFObjectTypeDictionary entries) =>
          let keys := dictVisitor entries in
          let p := length (objectList ctx) in
          let ctx := register dict (new (Dictionary PDFDictionary_new)) ctx in
          ctx ← fold_result
            (fun ctx it =>
               match CGPDFDictionaryGetObject entries it with
               | Some value =>
                   '(found, ctx) ← visitChild VisitObject value ctx;
                   Ok {| objectList :=
                           alter (dictAddValue it found) p (objectList ctx);
                         visited := visited ctx |}
               | None => Ok ctx
               end)
            keys ctx;
          Ok (p, ctx)
      | _ => Fault
      end
  end.

Definition VisitStream (VisitObject : PDFIdentifier -> Context -> result Context)
  (stream : PDFIdentifier) (ctx : Context) : result Context :=
  match visited ctx !! stream with
  | Some p => Ok (incAt p ctx)
  | None =>
      match doc !! stream with
      | Some (kCGPDFObjectTypeStream entries data format) =>
          let keys := dictVisitor entries in
          '(newDict, ctx) ← fold_result
            (fun (acc : PDFDictionary * Context) it =>
               match CGPDFDictionaryGetObject entries it with
               | Some value =>
                   '(found, ctx) ← visitChild VisitObject value acc.2;
                   Ok (PDFDictionary_addValue it found acc.1, ctx)
               | None => Ok acc
               end)
            keys (PDFDictionary_new, ctx);
          let newStream :=
            new (Stream {| _dict := newDict; _data := data;
                           _format := format; outputAsText := false |}) in
          Ok (register stream newStream ctx)
      | _ => Fault
      end
  end.

Definition VisitArray (VisitObject : PDFIdentifier -> Context -> result Context)
  (array : PDFIdentifier) (ctx : Context) : result Context :=
  match visited ctx !! array with
  | Some p => Ok (incAt p ctx)
  | None =>
      match doc !! array with
      | Some (kCGPDFObjectTypeArray items) =>
          let p := length (objectList ctx) in
          let ctx := register array (new (Array [])) ctx in
          fold_result
            (fun ctx value =>
               '(found, ctx) ← visitChild VisitObject value ctx;
               Ok {| objectList :=
                       alter (arrayAddValue found) p (objectList ctx);
                     visited := visited ctx |})
            items ctx
      | _ => Fault
      end
  end.

(** [VisitObject]; [IDRef( obj )] asserts that the reader knows the type of
    [obj]. *)
Fixpoint VisitObject (fuel : nat) (obj : PDFIdentifier) (ctx : Context)
  : result Context :=
  match fuel with
  | O => OutOfFuel
  | S fuel' =>
      match doc !! obj with
      | None => Fault
      | Some o =>
          match visited ctx !! obj with
          | Some p => Ok (incAt p ctx)
          | None =>
              match o with
              | kCGPDFObjectTypeNull => VisitNull obj ctx
              | kCGPDFObjectTypeBoolean _ => VisitBoolean obj ctx
              | kCGPDFObjectTypeInteger _ => VisitInteger obj ctx
              | kCGPDFObjectTypeReal _ => VisitFloat obj ctx
              | kCGPDFObjectTypeName _ => VisitName obj ctx
              | kCGPDFObjectTypeString _ => VisitString obj ctx
              | kCGPDFObjectTypeArray _ =>
                  VisitArray (VisitObject fuel') obj ctx
              | kCGPDFObjectTypeDictionary _ =>
                  r ← VisitDict (VisitObject fuel') obj ctx; Ok r.2
              | kCGPDFObjectTypeStream _ _ _ =>
                  VisitStream (VisitObject fuel') obj ctx
              end
          end
      end
  end.

(** The body of the [try] block of [main] from [Context ctx] on, for the
    document [doc] with the given catalog, info dictionary and version;
    [seekable] tells whether [std::cout] can seek. *)
Definition convert (seekable : bool) (fuel : nat)
  (catalog info : PDFIdentifier)
  (majorVersion minorVersion : Z) : result string :=
  '(rootObj, ctx) ← VisitDict (VisitObject fuel) catalog Context_new;
  '(infoObj, ctx) ← VisitDict (VisitObject fuel) info ctx;
  SavePDF seekable fuel majorVersion minorVersion (objectList ctx)
    rootObj infoObj.

End Visit.

(** ** [main] *)

(** An open document: its nodes, its version, its catalog and its info
    dictionary. *)
Record CGPDFDocumentRef : Type := mkDocument {
  CGPDFDocumentNodes : CGPDFDocument;
  CGPDFDocumentGetVersion : Z * Z;
  CGPDFDocumentGetCatalog : PDFIdentifier;
  CGPDFDocumentGetInfo : PDFIdentifier
}.

Section Main.

(** The two calls of [main] that can fail, as functions of the file
    system the program is run on. *)
Variable CFURLCreateFromFileSystemRepresentation : string -> option string.
Variable CGPDFDocumentCreateWithURL : string -> option CGPDFDocumentRef.

(** Whether [std::cout] can seek: it can when it is a file, and cannot
    when it is a pipe or a terminal. *)
Variable seekable : bool.

(** One round of the loop of [main]: what it writes to [std::cout] and to
    [std::cerr]. *)
Definition convertFile (fuel : nat) (arg : string)
  : result (string * string) :=
  match CFURLCreateFromFileSystemRepresentation arg with
  | None => Ok (EmptyString, "error creating url" +:+ " -> " +:+ arg +:+ LF)
  | Some url =>
      match CGPDFDocumentCreateWithURL url with
      | None =>
          Ok (EmptyString, "cannot open file" +:+ " -> " +:+ arg +:+ LF)
      | Some doc =>
          out ← convert (CGPDFDocumentNodes doc) seekable fuel
                  (CGPDFDocumentGetCatalog doc) (CGPDFDocumentGetInfo doc)
                  (CGPDFDocumentGetVersion doc).1
                  (CGPDFDocumentGetVersion doc).2;
          Ok (out, EmptyString)
      end
  end.

(** [main]: what is written to [std::cout] and to [std::cerr], and the
    value returned.  Without [argv[0]] the usage line is a read through a
    null pointer. *)
Definition main (fuel : nat) (argv : list string)
  : result (string * string * Z) :=
  match argv with
  | [] => Fault
  | [argv0] =>
      Ok ("usage: " +:+ argv0 +:+ "file [file...]" +:+ LF, EmptyString, -1)
  | argv0 :: files =>
      '(out, err) ← fold_result
        (fun (acc : string * string) arg =>
           '(o, e) ← convertFile fuel arg;
           Ok (acc.1 +:+ o, acc.2 +:+ e))
        files (EmptyString, EmptyString);
      Ok (out, err, 0)
  end.

End Main.

End Model.

(** * The vocabulary of the properties *)

(** Linear arithmetic with remainders by a constant. *)
Ltac lia_mod := Z.div_mod_to_equations; lia.

Section Vocabulary.

Context {fm : FloatModel}.

(** An entry written with its key as it is: ['/'], the bytes of the key, a
    space, and the child. *)
Definition entryKeyVerbatim (W : PDFObject -> result string)
  (objectList : list PDFObject) (dict : PDFDictionary) (key : string)
  : result string :=
  c ← writeChild W objectList (PDFDictionary_value dict key) LF;
  Ok ("/" +:+ key +:+ " " +:+ c).

(** An entry of the dictionary of a stream whose payload has [len] bytes. *)
Definition streamEntryByKey (W : PDFObject -> result string)
  (objectList : list PDFObject) (dict : PDFDictionary) (len : nat)
  (key : string) : result string :=
  if String.eqb key "Length" then Ok ("/Length " +:+ show_size len +:+ LF)
  else entryKeyVerbatim W objectList dict key.

(** The keys of a stream dictionary that are written: all but [Filter]. *)
Definition writtenKeys (dict : PDFDictionary) : list string :=
  filter (fun key => key <> "Filter") (_order dict).

(** ['/'], the key as it is, a space, and what is written for the value. *)
Definition keyThenValue (key value : string) : string :=
  "/" +:+ key +:+ " " +:+ value.

(** What is written for the value of [key] in a dictionary. *)
Definition valueWritten (W : PDFObject -> result string)
  (objectList : list PDFObject) (dict : PDFDictionary) (key value : string)
  : Prop :=
  writeChild W objectList (PDFDictionary_value dict key) LF = Ok value.

(** What is written for the value of [key] in the dictionary of a stream
    whose converted data has [len] bytes. *)
Definition streamValueWritten (W : PDFObject -> result string)
  (objectList : list PDFObject) (dict : PDFDictionary) (len : nat)
  (key value : string) : Prop :=
  if String.eqb key "Length" then value = show_size len +:+ LF
  else valueWritten W objectList dict key value.

(** The [Type] entry of [dict] is the Name ["Metadata"]. *)
Definition TypeIsMetadata (objectList : list PDFObject)
  (dict : PDFDictionary) : Prop :=
  exists p t, PDFDictionary_value dict "Type" = Some p
              /\ objectList !! p = Some t
              /\ _sub t = Name "Metadata".

(** The filter declared for armored data of each source encoding:
    hex-decode, then the decoder of the encoding if there is one. *)
Definition filterDeclared (format : CGPDFDataFormat) : string :=
  match format with
  | CGPDFDataFormatJPEGEncoded => "/Filter [/ASCIIHexDecode /DCTDecode]"
  | CGPDFDataFormatJPEG2000 => "/Filter [/ASCIIHexDecode /JPXDecode]"
  | CGPDFDataFormatRaw => "/Filter /ASCIIHexDecode"
  end +:+ LF.

(** The number of indirect objects of a list. *)
Definition countIndirect (objectList : list PDFObject) : nat :=
  length (filter (fun o => indirect o = true) objectList).

(** The loop only sets [outputAsText]. *)
Definition sameButText (o o' : PDFObject) : Prop :=
  o' = o \/ o' = setOutputAsText o.

(** A catalog with a stream whose dictionary has the stream itself as a
    value. *)
Definition selfStreamDoc : CGPDFDocument :=
  <[0%nat := kCGPDFObjectTypeDictionary [("X", 1%nat)]]>
  (<[1%nat := kCGPDFObjectTypeStream [("Self", 1%nat)] [] CGPDFDataFormatRaw]>
   ∅).

(** A catalog with a stream whose dictionary has a dictionary that has the
    stream as a value. *)
Definition streamCycleDoc : CGPDFDocument :=
  <[0%nat := kCGPDFObjectTypeDictionary [("S", 1%nat)]]>
  (<[1%nat := kCGPDFObjectTypeStream [("D", 2%nat)] [] CGPDFDataFormatRaw]>
   (<[2%nat := kCGPDFObjectTypeDictionary [("Back", 1%nat)]]> ∅)).

(** The example of the specification: dictionary A has an array that has
    A as an element. *)
Definition dictCycleDoc : CGPDFDocument :=
  <[0%nat := kCGPDFObjectTypeDictionary [("Kids", 1%nat)]]>
  (<[1%nat := kCGPDFObjectTypeArray [0%nat]]> ∅).

(** The types and reference counts of the objects built from a root. *)
Definition built (doc : CGPDFDocument) (fuel : nat) (root : PDFIdentifier)
  : result (list (type_t * Z)) :=
  r ← VisitDict doc (VisitObject doc fuel) root Context_new;
  Ok ((fun o => (type o, _refCount o)) <$> objectList r.2).

(** The object a pointer is stored in keeps where it is in the list. *)
Definition storeAt (f : PDFObject -> PDFObject) (p : ptr) (ctx : Context)
  : Context :=
  {| objectList := alter f p (objectList ctx); visited := visited ctx |}.

(** The identities of the children of a node. *)
Definition children (o : CGPDFObject) : list PDFIdentifier :=
  match o with
  | kCGPDFObjectTypeArray items => items
  | kCGPDFObjectTypeDictionary entries => snd <$> entries
  | kCGPDFObjectTypeStream entries _ _ => snd <$> entries
  | _ => []
  end.

(** The reader knows every child of a node of the document. *)
Definition wellFormed (doc : CGPDFDocument) : Prop :=
  forall id o value, doc !! id = Some o -> value ∈ children o ->
                     value ∈ dom doc.

Definition streamFree (doc : CGPDFDocument) : Prop :=
  forall id entries data format,
    doc !! id <> Some (kCGPDFObjectTypeStream entries data format).

(** The nodes of the document not visited so far. *)
Definition unvisited (doc : CGPDFDocument) (ctx : Context) : gset nat :=
  dom doc ∖ dom (visited ctx).

(** A visit that returns, with its node visited and nothing forgotten. *)
Definition returns (r : result Context) (obj : PDFIdentifier)
  (ctx : Context) : Prop :=
  exists ctx', r = Ok ctx'
               /\ obj ∈ dom (visited ctx')
               /\ dom (visited ctx) ⊆ dom (visited ctx').

(** A character of armored data: an uppercase hexadecimal digit or the
    line feed. *)
Definition armorChar (c : ascii) : bool :=
  existsb (Ascii.eqb c) upperHexDigits || Ascii.eqb c (ascii_of_nat 10).

(** The value of an uppercase hexadecimal digit. *)
Definition hexValue (c : ascii) : N :=
  let n := N_of_ascii c in
  if (65 <=? n)%N then (n - 55)%N else (n - 48)%N.

(** The bytes armored data stand for: a line feed is skipped, two digits
    are a byte, high nibble first. *)
Fixpoint hexDecode (s : string) : list byte :=
  match s with
  | EmptyString => []
  | String c s' =>
      if Ascii.eqb c (ascii_of_nat 10) then hexDecode s'
      else
        match s' with
        | EmptyString => []
        | String c' s'' =>
            match Byte.of_N (16 * hexValue c + hexValue c') with
            | Some b => b :: hexDecode s''
            | None => hexDecode s''
            end
        end
  end.

(** The spaces of a text. *)
Fixpoint spaces (s : string) : nat :=
  match s with
  | EmptyString => O
  | String c s' => if Ascii.eqb c " "%char then S (spaces s') else spaces s'
  end.

(** The dictionary made by [addValue] for each pair of [kvs], first to
    last. *)
Definition PDFDictionary_of (kvs : list (string * ptr)) : PDFDictionary :=
  foldl (fun d kv => PDFDictionary_addValue kv.1 kv.2 d) PDFDictionary_new kvs.

(** The pointer of the first pair of [kvs] with the key [key]. *)
Fixpoint firstAdded (kvs : list (string * ptr)) (key : string) : option ptr :=
  match kvs with
  | [] => None
  | (k, p) :: rest => if String.eqb k key then Some p else firstAdded rest key
  end.

(** What [SavePDF] writes before the object with the identifier [i]. *)
Definition objHeader (i : Z) : string := show_int i +:+ " 0 obj" +:+ LF.

(** At the offset [off] of [s] the object with the identifier [i] begins. *)
Definition objectAt (s : string) (i : Z) (off : nat) : Prop :=
  substring off (String.length (objHeader i)) s = objHeader i.

(** The line of the cross-reference table for an object at [off]. *)
Definition xrefEntry (off : nat) : string :=
  setw10 (show_size off) +:+ " " +:+ "00000 n " +:+ LF.

(** The stream a page has as [Contents]: [o] is a dictionary whose [Type]
    is the Name [Page] and whose [Contents] is a stream. *)
Definition pageContents (objectList : list PDFObject) (o : PDFObject)
  : option ptr :=
  dict ← asDictionary o;
  p ← PDFDictionary_value dict "Type";
  t ← objectList !! p;
  type_ ← asName t;
  if String.eqb type_ "Page" then
    pc ← PDFDictionary_value dict "Contents";
    contents ← objectList !! pc;
    if isStream contents then Some pc else None
  else None.

(** [o] is a stream whose [FunctionType] is a number with the integer
    value 4. *)
Definition isFunctionType4 (objectList : list PDFObject) (o : PDFObject)
  : bool :=
  match asStream o with
  | Some stream =>
      match PDFDictionary_value (_dict stream) "FunctionType" with
      | Some p =>
          match objectList !! p ≫= asNumber with
          | Some num => intValue num =? 4
          | None => false
          end
      | None => false
      end
  | None => false
  end.

(** The stream the object at [it] has marked as text, if any. *)
Definition textTarget (objectList : list PDFObject) (it : nat)
  : option ptr :=
  this ← objectList !! it;
  match pageContents objectList this with
  | Some pc => Some pc
  | None => if isFunctionType4 objectList this then Some it else None
  end.

(** The object at [p] is marked as text from some object of the list. *)
Definition textMarked (objectList : list PDFObject) (p : ptr) : bool :=
  existsb (fun it => bool_decide (textTarget objectList it = Some p))
    (seq 0 (length objectList)).

(** Every key listed in [d] has a pointer, and every pointer of [d] is
    below [n]. *)
Definition dictOK (n : nat) (d : PDFDictionary) : Prop :=
  Forall (fun key => is_Some (_value d !! key)) (_order d)
  /\ map_Forall (fun _ p => (p < n)%nat) (_value d).

(** The pointers stored in [o] are below [n]. *)
Definition ptrsOK (n : nat) (o : PDFObject) : Prop :=
  match _sub o with
  | Array v => Forall (fun p => (p < n)%nat) v
  | Dictionary d => dictOK n d
  | Stream st => dictOK n (_dict st)
  | _ => True
  end.

(** No pointer stored in the list leaves the list. *)
Definition heapOK (objectList : list PDFObject) : Prop :=
  Forall (ptrsOK (length objectList)) objectList.

(** Nor does a pointer of [visited]. *)
Definition contextOK (ctx : Context) : Prop :=
  heapOK (objectList ctx)
  /\ map_Forall (fun _ p => (p < length (objectList ctx))%nat) (visited ctx).

(** From [ctx] to [ctx'] the builder has appended objects and counted
    references: an object of [ctx] is where it was, with its value and
    identifier, a node visited in [ctx] has the pointer it had, and a node
    visited since has a pointer to an object appended since. *)
Definition grows (ctx ctx' : Context) : Prop :=
  (length (objectList ctx) <= length (objectList ctx'))%nat
  /\ (forall p o, objectList ctx !! p = Some o ->
        exists o', objectList ctx' !! p = Some o'
                   /\ _sub o' = _sub o /\ _id o' = _id o)
  /\ visited ctx ⊆ visited ctx'
  /\ (forall id q, visited ctx !! id = None -> visited ctx' !! id = Some q ->
        (length (objectList ctx) <= q)%nat).

(** What a visit of [obj] that returns has done. *)
Definition visitedFrom (obj : PDFIdentifier) (ctx ctx' : Context) : Prop :=
  (contextOK ctx -> contextOK ctx')
  /\ grows ctx ctx'
  /\ is_Some (visited ctx' !! obj).

(** [wellFormed] and [streamFree], to be computed. *)
Definition wellFormedb (doc : CGPDFDocument) : bool :=
  bool_decide (map_Forall
    (fun _ o => Forall (fun value => is_Some (doc !! value)) (children o))
    doc).

Definition isStreamNode (o : CGPDFObject) : bool :=
  match o with
  | kCGPDFObjectTypeStream _ _ _ => true
  | _ => false
  end.

Definition streamFreeb (doc : CGPDFDocument) : bool :=
  bool_decide (map_Forall (fun _ o => isStreamNode o = false) doc).

(** The dictionary [d] stands for the entries of a source dictionary: the
    keys the reader lists, in its order, and for each key the pointer
    recorded for the value the reader gives for it. *)
Definition dictMirrors (visited : gmap PDFIdentifier ptr)
  (entries : list (string * PDFIdentifier)) (d : PDFDictionary) : Prop :=
  _order d = dictVisitor entries
  /\ forall key value,
       CGPDFDictionaryGetObject entries key = Some value ->
       exists q, visited !! value = Some q
                 /\ PDFDictionary_value d key = Some q.

(** The value [v] stands for the source node [o]: the same scalar, or the
    pointers recorded for the children of [o]; of a stream also its data
    and format, not yet marked as text. *)
Definition mirrors (visited : gmap PDFIdentifier ptr) (o : CGPDFObject)
  (v : PDFValue) : Prop :=
  match o with
  | kCGPDFObjectTypeNull => v = Null
  | kCGPDFObjectTypeBoolean b => v = Boolean b
  | kCGPDFObjectTypeInteger z => v = Number (IntValue (wrap_int z))
  | kCGPDFObjectTypeReal r => v = Number (FloatValue (float_of_real r))
  | kCGPDFObjectTypeName s => v = Name s
  | kCGPDFObjectTypeString s => v = String_ s
  | kCGPDFObjectTypeArray items =>
      exists qs, v = Array qs
                 /\ Forall2 (fun value q => visited !! value = Some q) items qs
  | kCGPDFObjectTypeDictionary entries =>
      exists d, v = Dictionary d /\ dictMirrors visited entries d
  | kCGPDFObjectTypeStream entries data format =>
      exists d, v = Stream {| _dict := d; _data := data; _format := format;
                              outputAsText := false |}
                /\ dictMirrors visited entries d
  end.

(** The object at [p] stands for the node [id] of the document. *)
Definition mirrored (doc : CGPDFDocument) (ctx : Context)
  (id : PDFIdentifier) (p : ptr) : Prop :=
  exists o b, doc !! id = Some o /\ objectList ctx !! p = Some b
              /\ mirrors (visited ctx) o (_sub b).

(** Every node visited has its object. *)
Definition faithful (doc : CGPDFDocument) (ctx : Context) : Prop :=
  forall id p, visited ctx !! id = Some p -> mirrored doc ctx id p.

(** Every node visited from [ctx] to [ctx'] has its object. *)
Definition newlyMirrored (doc : CGPDFDocument) (ctx ctx' : Context) : Prop :=
  forall id p, visited ctx !! id = None -> visited ctx' !! id = Some p ->
               mirrored doc ctx' id p.

(** What [SavePDF] writes for the indirect object [o] with the text [w]. *)
Definition objectWritten (o : PDFObject) (w : string) : string :=
  objHeader (getID o) +:+ w +:+ LF +:+ "endobj" +:+ LF.

(** The pointers a dictionary gives for its keys, one for each key it
    lists, in their order. *)
Definition dictPtrs (d : PDFDictionary) : list ptr :=
  omap (fun key => _value d !! key) (_order d).

(** The pointers stored in an object: the references [WriteObject]
    follows. *)
Definition ptrsOf (o : PDFObject) : list ptr :=
  match _sub o with
  | Array v => v
  | Dictionary d => dictPtrs d
  | Stream st => dictPtrs (_dict st)
  | _ => []
  end.

(** How often [p] is among the pointers [l]. *)
Definition occurrences (p : ptr) (l : list ptr) : nat :=
  length (filter (fun q => q = p) l).

(** The number of references to the object at [p] stored in the list. *)
Definition refsTo (objectList : list PDFObject) (p : ptr) : nat :=
  occurrences p (objectList ≫= ptrsOf).

(** The object at [q] has a reason to be in the list: a pointer to it is
    held outside the list, or stored in an object before it, or in a
    stream. *)
Definition hasParent (credit : list ptr) (objectList : list PDFObject)
  (q : ptr) : Prop :=
  q ∈ credit
  \/ exists p o, objectList !! p = Some o /\ q ∈ ptrsOf o
                 /\ ((p < q)%nat \/ isStream o = true).

(** The reference counts tell the references: [credit] are the pointers
    held outside the list, each as often as it is held.  They point into
    the list, and an object that is not a stream counts the pointers to it
    in the list and in [credit], and has a reason to be in the list. *)
Definition counted (credit : list ptr) (ctx : Context) : Prop :=
  Forall (fun q => (q < length (objectList ctx))%nat) credit
  /\ forall p o, objectList ctx !! p = Some o -> isStream o = false ->
       _refCount o
       = wrap_size (Z.of_nat (refsTo (objectList ctx) p
                              + occurrences p credit))
       /\ hasParent credit (objectList ctx) p.

(** An object written inside another one comes after it in the list: what
    [WriteObject] goes into from an object that is not a stream. *)
Definition inlineForward (objectList : list PDFObject) : Prop :=
  forall p o q t,
    objectList !! p = Some o -> isStream o = false -> q ∈ ptrsOf o ->
    objectList !! q = Some t -> indirect t = false -> (p < q)%nat.

(** Every object of the list is the object of a node visited. *)
Definition eachHasId (ctx : Context) : Prop :=
  forall p, (p < length (objectList ctx))%nat ->
            exists id, visited ctx !! id = Some p.

(** No node has more than [M] children, to be computed. *)
Definition childrenWithin (M : nat) (doc : CGPDFDocument) : bool :=
  bool_decide (map_Forall
    (fun _ o => (length (children o) <= M)%nat) doc).

(** An indirect object as it is in the output: its identifier and
    [0 obj], its text, [endobj]. *)
Definition numberedObject (i : Z) (w : string) : string :=
  objHeader i +:+ w +:+ LF +:+ "endobj" +:+ LF.



End Vocabulary.

(** ** Example data *)

(** Floating point for the examples, none of which has a real number:
    integral values only. *)
Definition integral_floats : FloatModel := {|
  float := Z;
  CGPDFReal := Z;
  float_of_real := fun v => v;
  float_of_int := fun i => i;
  int_of_float := fun f => f;
  show_float := show_int
|}.

Section ExampleData.

#[local] Existing Instance integral_floats.

(** The given lines, each ended by a line feed. *)
Definition lines (l : list string) : string :=
  join ((fun line => line +:+ LF) <$> l).

(** A dictionary, a Name with one reference, a Name with two, a stream. *)
Definition fourObjects : list PDFObject :=
  [ new (Dictionary PDFDictionary_new);
    new (Name "once");
    inc (new (Name "twice"));
    new (Stream {| _dict := PDFDictionary_new; _data := [];
                   _format := CGPDFDataFormatRaw; outputAsText := false |}) ].

Definition twoDictionaries : list PDFObject :=
  [ new (Dictionary PDFDictionary_new); new (Dictionary PDFDictionary_new) ].

(** Two indirect objects: the header of the table and [/Size] say 2, and
    three entries are written. *)
Definition twoDictionariesOut : string :=
  lines [ "%PDF-1.4"; "%...";
          "1 0 obj"; "<<"; ">>"; "endobj";
          "2 0 obj"; "<<"; ">>"; "endobj";
          "xref"; "0 2";
          "0000000000 00000 n ";
          "0000000014 00000 n ";
          "0000000035 00000 n ";
          "trailer"; "<< /Size 2 /Root 1 0 R /Info 2 0 R>>";
          "startxref"; "56"; "%%EOF" ].

(** The same two objects written to a stream that cannot seek: every
    offset of the table, and the one after [startxref], is 0. *)
Definition twoDictionariesPiped : string :=
  lines [ "%PDF-1.4"; "%...";
          "1 0 obj"; "<<"; ">>"; "endobj";
          "2 0 obj"; "<<"; ">>"; "endobj";
          "xref"; "0 2";
          "0000000000 00000 n ";
          "0000000000 00000 n ";
          "0000000000 00000 n ";
          "trailer"; "<< /Size 2 /Root 1 0 R /Info 2 0 R>>";
          "startxref"; "0"; "%%EOF" ].

(** A JPEG stream with a [Filter] and a [Length] of the source. *)
Definition jpegStream : PDFStream :=
  {| _dict := PDFDictionary_addValue "Length" 0%nat
                (PDFDictionary_addValue "Filter" 0%nat PDFDictionary_new);
     _data := ["A"%byte];
     _format := CGPDFDataFormatJPEGEncoded;
     outputAsText := false |}.

Definition jpegStreamOut : string :=
  lines [ "<<"; "/Filter [/ASCIIHexDecode /DCTDecode]"; "/Length 3"; ">>";
          "stream"; "41"; "" ]
  +:+ "endstream".

(** A stream whose dictionary has no key. *)
Definition bareStream : PDFStream :=
  {| _dict := PDFDictionary_new;
     _data := ["A"%byte];
     _format := CGPDFDataFormatRaw;
     outputAsText := false |}.


(** A metadata stream: a JPEG 2000 tag, and the Name ["Metadata"] as
    [Type]. *)
Definition metadataStream : PDFStream :=
  {| _dict := PDFDictionary_addValue "Type" 0%nat PDFDictionary_new;
     _data := ["A"%byte];
     _format := CGPDFDataFormatJPEG2000;
     outputAsText := false |}.

Definition metadataStreamOut : string :=
  lines [ "<<"; "/Type /Metadata"; ">>"; "stream"; "A" ] +:+ "endstream".



(** A number, a Name referred to twice and numbered 5, an empty dictionary
    numbered 6, and a dictionary whose keys have them as values. *)
Definition referredObjects : list PDFObject :=
  [ new (Number (IntValue 7));
    setID 5 (inc (new (Name "N")));
    setID 6 (new (Dictionary PDFDictionary_new)) ].

Definition referringDictionary : PDFObject :=
  new (Dictionary (PDFDictionary_of
                     [("Count", 0%nat); ("Shared", 1%nat); ("Kids", 2%nat)])).

(** The number is written in place, the other two as references. *)
Definition referringDictionaryOut : string :=
  lines [ "<<"; "/Count 7"; "/Shared 5 0 R"; "/Kids 6 0 R" ] +:+ ">>".

Definition sharedNameDoc : CGPDFDocument :=
  <[0%nat := kCGPDFObjectTypeDictionary [("A", 2%nat)]]>
  (<[1%nat := kCGPDFObjectTypeDictionary [("B", 2%nat)]]>
   (<[2%nat := kCGPDFObjectTypeName "N"]> ∅)).

(** What is written for [sharedNameDoc] to a stream that can seek. *)
Definition sharedNameOut : string :=
  lines [ "%PDF-1.4"; "%...";
          "1 0 obj"; "<<"; "/A 2 0 R"; ">>"; "endobj";
          "2 0 obj"; "/N"; "endobj";
          "3 0 obj"; "<<"; "/B 2 0 R"; ">>"; "endobj";
          "xref"; "0 3";
          "0000000000 00000 n ";
          "0000000014 00000 n ";
          "0000000044 00000 n ";
          "0000000062 00000 n ";
          "trailer"; "<< /Size 3 /Root 1 0 R /Info 3 0 R>>";
          "startxref"; "92"; "%%EOF" ].

(** A file system with the one file [b.pdf], which holds
    [sharedNameDoc]. *)
Definition onlyB (url : string) : option CGPDFDocumentRef :=
  if String.eqb url "b.pdf"
  then Some {| CGPDFDocumentNodes := sharedNameDoc;
               CGPDFDocumentGetVersion := (1, 4);
               CGPDFDocumentGetCatalog := 0%nat;
               CGPDFDocumentGetInfo := 1%nat |}
  else None.

(** A catalog and an info dictionary with values of their own and one
    Name in common. *)
Definition catalogInfoDoc : CGPDFDocument :=
  <[0%nat := kCGPDFObjectTypeDictionary
               [("Type", 2%nat); ("Shared", 3%nat); ("Count", 4%nat)]]>
  (<[1%nat := kCGPDFObjectTypeDictionary
                [("Title", 5%nat); ("Shared", 3%nat)]]>
   (<[2%nat := kCGPDFObjectTypeName "Catalog"]>
    (<[3%nat := kCGPDFObjectTypeName "Shared Name"]>
     (<[4%nat := kCGPDFObjectTypeInteger 7]>
      (<[5%nat := kCGPDFObjectTypeString "x"]> ∅))))).





(** A page with a stream as [Contents]. *)
Definition pageObjects : list PDFObject :=
  [ new (Dictionary (PDFDictionary_of [("Type", 1%nat); ("Contents", 2%nat)]));
    new (Name "Page");
    new (Stream bareStream) ].

Definition pageObjectsMarked : list PDFObject :=
  [ new (Dictionary (PDFDictionary_of [("Type", 1%nat); ("Contents", 2%nat)]));
    new (Name "Page");
    setOutputAsText (new (Stream bareStream)) ].

(** The context after the visit of the first dictionary of
    [sharedNameDoc]. *)
Definition sharedNameCtx : Context :=
  {| objectList := [ new (Dictionary (PDFDictionary_of [("A", 1%nat)]));
                     new (Name "N") ];
     visited := <[0%nat := 0%nat]> (<[2%nat := 1%nat]> ∅) |}.


(** The context after the visit of the dictionary of [dictCycleDoc]. *)
Definition dictCycleCtx : Context :=
  {| objectList := [ inc (new (Dictionary (PDFDictionary_of [("Kids", 1%nat)])));
                     new (Array [0%nat]) ];
     visited := <[0%nat := 0%nat]> (<[1%nat := 1%nat]> ∅) |}.


(** The context after the visit of the second dictionary of
    [sharedNameDoc]. *)
Definition sharedNameCtx2 : Context :=
  {| objectList := [ new (Dictionary (PDFDictionary_of [("A", 1%nat)]));
                     inc (new (Name "N"));
                     new (Dictionary (PDFDictionary_of [("B", 1%nat)])) ];
     visited := <[0%nat := 0%nat]> (<[1%nat := 2%nat]>
                  (<[2%nat := 1%nat]> ∅)) |}.

End ExampleData.

(** * Properties *)

(** ** Text *)

Lemma string_app_cons (c : ascii) (s1 s2 : string) :
  String c s1 +:+ s2 = String c (s1 +:+ s2).
Proof. reflexivity. Qed.

Lemma string_app_assoc (s1 s2 s3 : string) :
  (s1 +:+ s2) +:+ s3 = s1 +:+ (s2 +:+ s3).
Proof.
  induction s1 as [|c s1 IH]; [done|].
  by rewrite !string_app_cons, IH.
Qed.

Lemma string_app_nil_r (s : string) : s +:+ EmptyString = s.
Proof.
  induction s as [|c s IH]; [done|]. by rewrite string_app_cons, IH.
Qed.

Lemma string_length_app (s1 s2 : string) :
  String.length (s1 +:+ s2) = (String.length s1 + String.length s2)%nat.
Proof.
  induction s1 as [|c s1 IH]; [done|].
  rewrite string_app_cons. simpl. by rewrite IH.
Qed.

Lemma LF_length : String.length LF = 1%nat.
Proof. reflexivity. Qed.

Lemma substring_whole (s : string) :
  String.substring 0 (String.length s) s = s.
Proof. induction s as [|c s IH]; simpl; [done | by rewrite IH]. Qed.

Lemma string_of_list_byte_length (bs : list byte) :
  String.length (String.string_of_list_byte bs) = length bs.
Proof.
  unfold String.string_of_list_byte.
  induction bs as [|b bs IH]; simpl; [done | by rewrite IH].
Qed.

(** ** Hex armor *)

Lemma hexChar_pair (p : byte) :
  String (hexChar (Z.shiftr (Z.land (UInt8 p) 240) 4))
    (String (hexChar (Z.land (UInt8 p) 15)) EmptyString) = hexPair p.
Proof. destruct p; reflexivity. Qed.

Lemma convertLoop_cons (p : byte) (ptr : list byte) (i : Z) :
  convertLoop (p :: ptr) i =
  hexPair p +:+ (if (i + 1) mod 40 =? 0 then LF else EmptyString)
    +:+ convertLoop ptr (i + 1).
Proof. rewrite <- hexChar_pair. reflexivity. Qed.

Lemma hexPairs_cons (b : byte) (bs : list byte) :
  hexPairs (b :: bs) = hexPair b +:+ hexPairs bs.
Proof. reflexivity. Qed.


(** No line break while the line is not full. *)
Lemma convertLoop_within_line (ptr : list byte) (i : Z) :
  i mod 40 + Z.of_nat (length ptr) < 40 ->
  convertLoop ptr i = hexPairs ptr.
Proof.
  revert i. induction ptr as [|p ptr IH]; intros i Hlen; [done|].
  rewrite convertLoop_cons, hexPairs_cons. simpl length in Hlen.
  assert ((i + 1) mod 40 = i mod 40 + 1) as Hmod by lia_mod.
  destruct ((i + 1) mod 40 =? 0) eqn:E; [lia_mod|].
  rewrite IH; [done | lia].
Qed.

(** The line break falls where the index becomes a multiple of 40. *)
Lemma convertLoop_full_line (pre rest : list byte) (i : Z) :
  pre <> [] ->
  i mod 40 + Z.of_nat (length pre) = 40 ->
  convertLoop (pre ++ rest) i =
  hexPairs pre +:+ LF +:+ convertLoop rest (i + Z.of_nat (length pre)).
Proof.
  revert i. induction pre as [|p pre IH]; intros i Hne Hlen; [done|].
  rewrite <- app_comm_cons, convertLoop_cons, hexPairs_cons.
  rewrite string_app_assoc. f_equal.
  destruct pre as [|p' pre].
  - simpl in Hlen.
    replace ((i + 1) mod 40 =? 0) with true
      by (symmetry; apply Z.eqb_eq; lia_mod).
    reflexivity.
  - simpl length in Hlen.
    replace ((i + 1) mod 40 =? 0) with false
      by (symmetry; apply Z.eqb_neq; lia_mod).
    rewrite IH; [|done|simpl length; lia_mod].
    replace (i + 1 + Z.of_nat (length (p' :: pre)))
      with (i + Z.of_nat (length (p :: p' :: pre))) by (simpl length; lia).
    reflexivity.
Qed.

Lemma convertLoop_hexLines (fuel : nat) (ptr : list byte) (i : Z) :
  i mod 40 = 0 -> (length ptr < fuel)%nat ->
  convertLoop ptr i = hexLines fuel 40 ptr.
Proof.
  revert ptr i. induction fuel as [|fuel IH]; intros ptr i Hi Hfuel; [lia|].
  simpl hexLines. destruct (length ptr <? 40)%nat eqn:E.
  - apply Nat.ltb_lt in E. apply convertLoop_within_line. lia.
  - apply Nat.ltb_ge in E.
    rewrite <- (take_drop 40 ptr) at 1.
    assert (length (take 40 ptr) = 40%nat) as Htake
      by (rewrite length_take; lia).
    rewrite convertLoop_full_line.
    + rewrite Htake. do 2 f_equal. apply IH; [lia_mod|].
      rewrite length_drop. lia.
    + intros Hnil. rewrite Hnil in Htake. simpl in Htake. lia.
    + lia.
Qed.

Lemma convertData_armored (data : CFDataRef) :
  convertData data true =
  {| cd_size := String.length (hexArmorEvery 40 data);
     cd_data := hexArmorEvery 40 data |}.
Proof.
  unfold convertData, hexArmorEvery. simpl negb. cbv iota.
  rewrite (convertLoop_hexLines (S (length data))); [done|done|lia].
Qed.

Lemma convertData_raw (data : CFDataRef) :
  convertData data false =
  {| cd_size := length data; cd_data := String.string_of_list_byte data |}.
Proof. reflexivity. Qed.

(** [cd.size] is the length of [cd.data], so [s.write] writes all of it. *)
Lemma convertData_size (data : CFDataRef) (doASCII : bool) :
  cd_size (convertData data doASCII) =
  String.length (cd_data (convertData data doASCII)).
Proof.
  destruct doASCII; [reflexivity|].
  simpl. by rewrite string_of_list_byte_length.
Qed.

Lemma write_convertData (data : CFDataRef) (doASCII : bool) :
  write (cd_data (convertData data doASCII))
        (cd_size (convertData data doASCII))
  = cd_data (convertData data doASCII).
Proof. unfold write. rewrite convertData_size. apply substring_whole. Qed.



(** C5, as the code has it: in hex-armor mode every byte is written as
    its two uppercase hexadecimal digits, a line break follows every 40
    source bytes (80 digits), and one more line break ends the payload;
    [cd.size] counts all of it. *)
Theorem convertData_hex_armor_every_40_bytes (data : CFDataRef) :
  cd_data (convertData data true) = hexArmorEvery 40 data
  /\ cd_size (convertData data true) = String.length (hexArmorEvery 40 data).
Proof. by rewrite convertData_armored. Qed.

(** C5 as stated, a break after every 20 source bytes (40 digits), fails
    on 21 bytes: the code writes their 42 digits on one line. *)
Lemma convertData_no_break_after_20_bytes :
  cd_data (convertData (replicate 21 "000"%byte) true)
  <> hexArmorEvery 20 (replicate 21 "000"%byte).
Proof. intros H. vm_compute in H. discriminate H. Qed.

(** ** Loops *)

Lemma result_bind_ret {A : Type} (m : result A) : (a ← m; Ok a) = m.
Proof. by destruct m. Qed.

Lemma result_bind_Ok {A B : Type} (a : A) (f : A -> result B) :
  (Ok a ≫= f) = f a.
Proof. reflexivity. Qed.

Lemma for_each_ext {A : Type} (f g : A -> result string) (l : list A) :
  (forall x, x ∈ l -> f x = g x) -> for_each f l = for_each g l.
Proof.
  induction l as [|x l IH]; intros Hfg; [done|].
  simpl. rewrite Hfg by apply list_elem_of_here.
  rewrite IH; [done|]. intros y Hy. apply Hfg. by apply list_elem_of_further.
Qed.

(** A loop over the indices of a vector is a loop over its elements. *)
Lemma for_each_seq {A : Type} (l : list A) (f : nat -> result string)
  (g : A -> result string) (j : nat) :
  (forall i x, l !! i = Some x -> f (j + i)%nat = g x) ->
  for_each f (seq j (length l)) = for_each g l.
Proof.
  revert j. induction l as [|x l IH]; intros j Hfg; [done|].
  simpl. rewrite <- (Hfg 0%nat x eq_refl), Nat.add_0_r.
  rewrite (IH (S j)); [done|].
  intros i y Hy. rewrite <- (Hfg (S i) y Hy). f_equal. lia.
Qed.

(** Rounds that write nothing can be left out. *)
Lemma for_each_filter {A : Type} (P : A -> Prop) `{!forall x, Decision (P x)}
  (f : A -> result string) (l : list A) :
  (forall x, ~ P x -> f x = Ok EmptyString) ->
  for_each f l = for_each f (filter P l).
Proof.
  intros Hskip. induction l as [|x l IH]; [done|].
  rewrite filter_cons. destruct (decide (P x)) as [HP|HP].
  - simpl. by rewrite IH.
  - simpl. rewrite (Hskip x HP). simpl. rewrite IH.
    apply result_bind_ret.
Qed.

Section Properties.

Context {fm : FloatModel}.

(** ** The object model *)

(** C2: a node is indirect exactly when its reference count is above 1 or
    it is a dictionary or a stream; a dictionary or stream just built, with
    its one reference, is indirect. *)
Theorem indirect_iff :
  (forall o : PDFObject,
     indirect o = true <->
     1 < _refCount o \/ type o = type_dict \/ type o = type_stream)
  /\ (forall d : PDFDictionary, indirect (new (Dictionary d)) = true)
  /\ (forall st : PDFStream, indirect (new (Stream st)) = true).
Proof.
  split; [|split; reflexivity].
  intros o. unfold indirect, isStream, isDictionary.
  rewrite !orb_true_iff, Z.ltb_lt.
  destruct (type o); intuition congruence.
Qed.

Lemma PDFDictionary_value_at_lt (d : PDFDictionary) (i : nat)
  (o_key k : string) :
  _order d !! i = Some k ->
  PDFDictionary_value_at d i o_key = Ok (PDFDictionary_value d k, k).
Proof.
  intros Hk. unfold PDFDictionary_value_at, PDFDictionary_count.
  pose proof (lookup_lt_Some _ _ _ Hk) as Hlt.
  destruct (length (_order d) <? i)%nat eqn:E.
  - apply Nat.ltb_lt in E. lia.
  - by rewrite Hk.
Qed.

Lemma PDFDictionary_value_at_gt (d : PDFDictionary) (i : nat)
  (o_key : string) :
  (PDFDictionary_count d < i)%nat ->
  PDFDictionary_value_at d i o_key = Ok (None, o_key).
Proof.
  intros Hi. unfold PDFDictionary_value_at.
  apply Nat.ltb_lt in Hi. by rewrite Hi.
Qed.

(** C9 fails in the code: with [i_index] equal to the key count the guard
    [i_index > count()] lets the call through to [_order[i_index]], a read
    past the end of the vector, where the claim has a null result. *)
Theorem PDFDictionary_value_at_count (d : PDFDictionary) (o_key : string) :
  PDFDictionary_value_at d (PDFDictionary_count d) o_key = Fault.
Proof.
  unfold PDFDictionary_value_at, PDFDictionary_count.
  rewrite Nat.ltb_irrefl.
  by rewrite (lookup_ge_None_2 (_order d) (length (_order d))).
Qed.

(** ** Rendering dictionaries and streams *)

Lemma writeEntry_key (W : PDFObject -> result string)
  (objectList : list PDFObject) (dict : PDFDictionary) (i : nat)
  (key : string) :
  _order dict !! i = Some key ->
  writeEntry W objectList dict i = entryKeyVerbatim W objectList dict key.
Proof.
  intros Hk. unfold writeEntry.
  by rewrite (PDFDictionary_value_at_lt _ _ _ key Hk).
Qed.

Lemma writeStreamEntry_key (W : PDFObject -> result string)
  (objectList : list PDFObject) (dict : PDFDictionary) (convData : ConvData)
  (i : nat) (key : string) :
  _order dict !! i = Some key ->
  writeStreamEntry W objectList dict convData i =
  if String.eqb key "Filter" then Ok EmptyString
  else streamEntryByKey W objectList dict (cd_size convData) key.
Proof.
  intros Hk. unfold writeStreamEntry.
  by rewrite (PDFDictionary_value_at_lt _ _ _ key Hk).
Qed.

Lemma WriteObject_Dictionary (fuel : nat) (objectList : list PDFObject)
  (obj : PDFObject) (dict : PDFDictionary) :
  _sub obj = Dictionary dict ->
  WriteObject (S fuel) objectList obj =
  (body ← for_each
     (entryKeyVerbatim (WriteObject fuel objectList) objectList dict)
     (_order dict);
   Ok ("<<" +:+ LF +:+ body +:+ ">>")).
Proof.
  intros Hsub. simpl. rewrite Hsub. unfold PDFDictionary_count.
  rewrite (for_each_seq (_order dict) _
    (entryKeyVerbatim (WriteObject fuel objectList) objectList dict) 0);
    [done|].
  intros i key Hk. by apply writeEntry_key.
Qed.

Lemma WriteObject_Stream (fuel : nat) (objectList : list PDFObject)
  (obj : PDFObject) (st : PDFStream) (metadata : bool) :
  _sub obj = Stream st ->
  isMetadata objectList (_dict st) = Ok metadata ->
  let doASCII := doASCII_of metadata st in
  let convData := convertData (_data st) doASCII in
  WriteObject (S fuel) objectList obj =
  (body ← for_each
     (streamEntryByKey (WriteObject fuel objectList) objectList (_dict st)
        (cd_size convData))
     (writtenKeys (_dict st));
   Ok ("<<" +:+ LF +:+ writeFilter doASCII (_format st) +:+ body
       +:+ ">>" +:+ LF +:+ "stream" +:+ LF
       +:+ cd_data convData +:+ LF +:+ "endstream")).
Proof.
  intros Hsub Hmeta. cbv zeta. simpl. rewrite Hsub, Hmeta. simpl.
  unfold PDFDictionary_count. rewrite write_convertData.
  set (convData := convertData (_data st) (doASCII_of metadata st)).
  rewrite (for_each_seq (_order (_dict st)) _
    (fun key => if String.eqb key "Filter" then Ok EmptyString
                else streamEntryByKey (WriteObject fuel objectList)
                       objectList (_dict st) (cd_size convData) key) 0).
  2:{ intros i key Hk. by apply writeStreamEntry_key. }
  rewrite (for_each_filter (fun key => key <> "Filter")).
  2:{ intros key Hkey. destruct (String.eqb_spec key "Filter"); [done|].
      by destruct Hkey. }
  fold (writtenKeys (_dict st)).
  rewrite (for_each_ext _
    (streamEntryByKey (WriteObject fuel objectList) objectList (_dict st)
       (cd_size convData))); [done|].
  intros key Hkey. apply list_elem_of_filter in Hkey as [Hne _].
  by destruct (String.eqb_spec key "Filter").
Qed.

(** A loop whose rounds all write [g x c] for some [c] wrote the [g x c]
    one after the other. *)
Lemma for_each_Forall2 {A : Type} (f : A -> result string)
  (g : A -> string -> string) (l : list A) (body : string) :
  (forall x r, f x = Ok r -> exists c, r = g x c) ->
  for_each f l = Ok body ->
  exists cs, Forall2 (fun x c => f x = Ok (g x c)) l cs
             /\ body = join (zip_with g l cs).
Proof.
  intros Hg. revert body. induction l as [|x l IH]; intros body Hl.
  - injection Hl as <-. exists []. by split; [constructor|].
  - simpl in Hl. destruct (f x) as [r| |] eqn:Hx; try done.
    simpl in Hl. destruct (for_each f l) as [rs| |] eqn:Hrs; try done.
    simpl in Hl. injection Hl as <-.
    destruct (Hg x r Hx) as [c ->].
    destruct (IH rs eq_refl) as (cs & Hcs & ->).
    exists (c :: cs). split; [by constructor|done].
Qed.

Lemma entryKeyVerbatim_shape (W : PDFObject -> result string)
  (objectList : list PDFObject) (dict : PDFDictionary) (key r : string) :
  entryKeyVerbatim W objectList dict key = Ok r ->
  exists c, r = keyThenValue key c.
Proof.
  unfold entryKeyVerbatim. intros Hr.
  destruct (writeChild W objectList (PDFDictionary_value dict key) LF)
    as [c| |]; try done.
  injection Hr as <-. by exists c.
Qed.

Lemma streamEntryByKey_shape (W : PDFObject -> result string)
  (objectList : list PDFObject) (dict : PDFDictionary) (len : nat)
  (key r : string) :
  streamEntryByKey W objectList dict len key = Ok r ->
  exists c, r = keyThenValue key c.
Proof.
  unfold streamEntryByKey. destruct (String.eqb_spec key "Length") as [->|].
  - intros Hr. injection Hr as <-. by exists (show_size len +:+ LF).
  - apply entryKeyVerbatim_shape.
Qed.

Lemma keyThenValue_inj (key c1 c2 : string) :
  keyThenValue key c1 = keyThenValue key c2 -> c1 = c2.
Proof.
  unfold keyThenValue. intros H.
  by repeat (apply (inj (String.append _)) in H).
Qed.

Lemma entryKeyVerbatim_value (W : PDFObject -> result string)
  (objectList : list PDFObject) (dict : PDFDictionary) (key c : string) :
  entryKeyVerbatim W objectList dict key = Ok (keyThenValue key c) ->
  writeChild W objectList (PDFDictionary_value dict key) LF = Ok c.
Proof.
  unfold entryKeyVerbatim. intros Hr.
  destruct (writeChild W objectList (PDFDictionary_value dict key) LF)
    as [c'| |]; try done.
  apply (inj Ok) in Hr. f_equal. by apply (keyThenValue_inj key).
Qed.

(** The layout of a dictionary that was written. *)
Lemma WriteObject_Dictionary_layout (fuel : nat)
  (objectList : list PDFObject) (obj : PDFObject) (dict : PDFDictionary)
  (out : string) :
  _sub obj = Dictionary dict ->
  WriteObject (S fuel) objectList obj = Ok out ->
  exists values,
    Forall2 (valueWritten (WriteObject fuel objectList) objectList dict)
      (_order dict) values
    /\ out = "<<" +:+ LF
             +:+ join (zip_with keyThenValue (_order dict) values) +:+ ">>".
Proof.
  intros Hsub Hout.
  rewrite (WriteObject_Dictionary _ _ _ dict Hsub) in Hout.
  destruct (for_each _ _) as [body| |] eqn:Hbody; try done.
  apply (inj Ok) in Hout as <-.
  apply (for_each_Forall2 _ keyThenValue) in Hbody as (values & Hvalues & ->).
  - exists values. split; [|done].
    eapply Forall2_impl; [exact Hvalues|].
    intros key value. apply entryKeyVerbatim_value.
  - intros key r. apply entryKeyVerbatim_shape.
Qed.

(** The layout of a stream that was written: the [/Filter] line of the
    mode, the entries of the keys other than [Filter], each [Length] among
    them with the size of the converted data, and the converted data. *)
Lemma WriteObject_Stream_layout (fuel : nat) (objectList : list PDFObject)
  (obj : PDFObject) (st : PDFStream) (out : string) :
  _sub obj = Stream st ->
  WriteObject (S fuel) objectList obj = Ok out ->
  exists metadata values,
    isMetadata objectList (_dict st) = Ok metadata
    /\ let doASCII := doASCII_of metadata st in
       let convData := convertData (_data st) doASCII in
       Forall2 (streamValueWritten (WriteObject fuel objectList) objectList
                  (_dict st) (cd_size convData))
         (writtenKeys (_dict st)) values
       /\ out = "<<" +:+ LF +:+ writeFilter doASCII (_format st)
                +:+ join (zip_with keyThenValue (writtenKeys (_dict st)) values)
                +:+ ">>" +:+ LF +:+ "stream" +:+ LF
                +:+ cd_data convData +:+ LF +:+ "endstream".
Proof.
  intros Hsub Hout.
  destruct (isMetadata objectList (_dict st)) as [metadata| |] eqn:Hmeta.
  2,3: by (simpl in Hout; rewrite Hsub, Hmeta in Hout).
  rewrite (WriteObject_Stream _ _ _ st metadata Hsub Hmeta) in Hout.
  cbv zeta in Hout.
  destruct (for_each _ _) as [body| |] eqn:Hbody; try done.
  apply (inj Ok) in Hout as <-.
  apply (for_each_Forall2 _ keyThenValue) in Hbody as (values & Hvalues & ->).
  2:{ intros key r. apply streamEntryByKey_shape. }
  exists metadata, values. split; [done|]. cbv zeta. split; [|done].
  eapply Forall2_impl; [exact Hvalues|].
  intros key value Hkey. unfold streamEntryByKey in Hkey.
  unfold streamValueWritten.
  destruct (String.eqb_spec key "Length") as [->|Hne].
  - apply (inj Ok) in Hkey. symmetry.
    apply (keyThenValue_inj "Length"). exact Hkey.
  - by apply entryKeyVerbatim_value.
Qed.

(** A value that is an indirect object is written by its identifier. *)
Lemma valueWritten_indirect (W : PDFObject -> result string)
  (objectList : list PDFObject) (dict : PDFDictionary) (key : string)
  (p : ptr) (target : PDFObject) :
  PDFDictionary_value dict key = Some p ->
  objectList !! p = Some target ->
  indirect target = true ->
  valueWritten W objectList dict key
    (show_int (getID target) +:+ " 0 R" +:+ LF).
Proof.
  intros Hkey Hp Hind. unfold valueWritten, writeChild, deref.
  by rewrite Hkey, Hp, result_bind_Ok, Hind.
Qed.

(** X16: in a dictionary that was written, every value that is an
    indirect object was written as [<id> 0 R] with the identifier of the
    object, after its key as it is. *)
Lemma WriteObject_Dictionary_references (fuel : nat)
  (objectList : list PDFObject) (obj : PDFObject) (dict : PDFDictionary)
  (out : string) :
  _sub obj = Dictionary dict ->
  WriteObject (S fuel) objectList obj = Ok out ->
  exists values,
    Forall2 (fun key value =>
               forall p target,
                 PDFDictionary_value dict key = Some p ->
                 objectList !! p = Some target ->
                 indirect target = true ->
                 value = show_int (getID target) +:+ " 0 R" +:+ LF)
      (_order dict) values
    /\ out = "<<" +:+ LF
             +:+ join (zip_with keyThenValue (_order dict) values) +:+ ">>".
Proof.
  intros Hsub Hout.
  destruct (WriteObject_Dictionary_layout _ _ _ _ _ Hsub Hout)
    as (values & Hvalues & ->).
  exists values. split; [|done].
  eapply Forall2_impl; [exact Hvalues|].
  intros key value Hwritten p target Hkey Hp Hind.
  pose proof (valueWritten_indirect (WriteObject fuel objectList)
                objectList dict key p target Hkey Hp Hind) as Href.
  unfold valueWritten in *. rewrite Hwritten in Href.
  by apply (inj Ok) in Href.
Qed.



(** ** The encoding of a stream *)

Lemma isMetadata_spec (objectList : list PDFObject) (dict : PDFDictionary)
  (metadata : bool) :
  isMetadata objectList dict = Ok metadata ->
  metadata = true <-> TypeIsMetadata objectList dict.
Proof.
  unfold isMetadata, TypeIsMetadata.
  destruct (PDFDictionary_value dict "Type") as [p|] eqn:Hp.
  - simpl. destruct (objectList !! p) as [t|] eqn:Ht; [|done]. simpl.
    unfold asName, isName, type.
    destruct (_sub t) as [| | |v| | | |] eqn:Hsub; simpl;
      intros Hm; apply (inj Ok) in Hm as <-;
      try (split; [done|]; intros (p' & t' & Hp' & Ht' & Hsub');
           congruence).
    split.
    + intros Hv. apply String.eqb_eq in Hv as ->. by exists p, t.
    + intros (p' & t' & Hp' & Ht' & Hsub').
      apply String.eqb_eq. congruence.
  - intros Hm. apply (inj Ok) in Hm as <-.
    split; [done|]. by intros (p & t & ? & _).
Qed.

(** What is written for a stream is in one of two forms: the raw bytes
    and no [Filter] entry, or the armored bytes after the [Filter] entry
    of the source encoding. *)
Lemma WriteObject_stream_shape (fuel : nat)
  (objectList : list PDFObject) (obj : PDFObject) (st : PDFStream)
  (out : string) :
  _sub obj = Stream st ->
  WriteObject (S fuel) objectList obj = Ok out ->
  exists values,
    Forall (fun key => key <> "Filter") (writtenKeys (_dict st))
    /\ length values = length (writtenKeys (_dict st))
    /\ let entries :=
         join (zip_with keyThenValue (writtenKeys (_dict st)) values) in
       ((TypeIsMetadata objectList (_dict st) \/ outputAsText st = true)
        /\ out = "<<" +:+ LF +:+ entries
                 +:+ ">>" +:+ LF +:+ "stream" +:+ LF
                 +:+ String.string_of_list_byte (_data st)
                 +:+ LF +:+ "endstream")
       \/ (~ TypeIsMetadata objectList (_dict st)
           /\ outputAsText st = false
           /\ out = "<<" +:+ LF +:+ filterDeclared (_format st) +:+ entries
                    +:+ ">>" +:+ LF +:+ "stream" +:+ LF
                    +:+ hexArmorEvery 40 (_data st)
                    +:+ LF +:+ "endstream").
Proof.
  intros Hsub Hout.
  destruct (WriteObject_Stream_layout _ _ _ st _ Hsub Hout)
    as (metadata & values & Hmeta & Hvalues & ->).
  exists values. split.
  { unfold writtenKeys. apply Forall_forall. intros key Hkey.
    by apply list_elem_of_filter in Hkey as [Hne _]. }
  split; [symmetry; by eapply Forall2_length|].
  cbv zeta. apply isMetadata_spec in Hmeta.
  unfold doASCII_of. destruct metadata.
  - left. split; [left; by apply Hmeta|done].
  - destruct (outputAsText st) eqn:Htext.
    + left. split; [by right|done].
    + right. split; [|split; [done|]].
      * intros HT. apply Hmeta in HT. done.
      * rewrite convertData_armored. simpl cd_data.
        by destruct (_format st).
Qed.


(** ** The identifiers of [SavePDF] *)

Lemma indirect_setID (i : Z) (o : PDFObject) :
  indirect (setID i o) = indirect o.
Proof. reflexivity. Qed.

Lemma wrap_int_small (z : Z) : - 2 ^ 31 <= z < 2 ^ 31 -> wrap_int z = z.
Proof. intros Hz. unfold wrap_int. lia_mod. Qed.

Lemma countIndirect_cons (o : PDFObject) (l : list PDFObject) :
  countIndirect (o :: l) =
  if indirect o then S (countIndirect l) else countIndirect l.
Proof.
  unfold countIndirect. rewrite filter_cons.
  destruct (indirect o); by destruct (decide _).
Qed.

(** The pass changes nothing but identifiers, and those of indirect objects
    only. *)
Lemma assignIDs_same (i : Z) (objectList : list PDFObject) :
  Forall2 (fun o o' => _refCount o' = _refCount o /\ _sub o' = _sub o
                       /\ (indirect o = false -> o' = o))
    objectList (assignIDs i objectList).
Proof.
  revert i. induction objectList as [|it rest IH]; intros i; [constructor|].
  simpl. destruct (indirect it) eqn:Hit; constructor; auto.
  split; [done|]. split; [done|]. congruence.
Qed.

Lemma assignIDs_countIndirect (i : Z) (objectList : list PDFObject) :
  countIndirect (assignIDs i objectList) = countIndirect objectList.
Proof.
  revert i. induction objectList as [|it rest IH]; intros i; [done|].
  simpl. destruct (indirect it) eqn:Hit;
    rewrite !countIndirect_cons, ?indirect_setID, Hit; by rewrite IH.
Qed.

(** From the counter [i] on, the indirect objects get [i + 1], [i + 2], ...
    in the order of the list, as long as [int] does not overflow. *)
Lemma assignIDs_from (i : Z) (objectList : list PDFObject) :
  0 <= i -> i + Z.of_nat (countIndirect objectList) < 2 ^ 31 ->
  getID <$> filter (fun o => indirect o = true) (assignIDs i objectList)
  = seqZ (i + 1) (Z.of_nat (countIndirect objectList)).
Proof.
  revert i. induction objectList as [|it rest IH]; intros i Hi Hmax; [done|].
  rewrite countIndirect_cons in *. simpl.
  destruct (indirect it) eqn:Hit.
  - rewrite filter_cons, indirect_setID, Hit.
    destruct (decide (true = true)); [|done].
    rewrite wrap_int_small by lia.
    rewrite fmap_cons, seqZ_cons by lia. f_equal.
    rewrite IH by lia. f_equal. lia.
  - rewrite filter_cons, Hit.
    destruct (decide (false = true)); [done|]. by apply IH.
Qed.

(** C3: after the first loop of [SavePDF] over a list of objects as the
    builder makes them (no identifier yet) the indirect objects carry, in
    the order of the list, the identifiers 1, 2, ..., K, with K their
    number, and every other object is still without identifier; nothing
    else is changed. *)
Theorem assignIDs_dense (objectList : list PDFObject) :
  Z.of_nat (countIndirect objectList) < 2 ^ 31 ->
  Forall (fun o => getID o = 0) objectList ->
  getID <$> filter (fun o => indirect o = true) (assignIDs 0 objectList)
    = seqZ 1 (Z.of_nat (countIndirect objectList))
  /\ countIndirect (assignIDs 0 objectList) = countIndirect objectList
  /\ Forall (fun o => indirect o = false -> getID o = 0)
       (assignIDs 0 objectList)
  /\ Forall2 (fun o o' => _refCount o' = _refCount o /\ _sub o' = _sub o)
       objectList (assignIDs 0 objectList).
Proof.
  intros Hmax Hnew. split; [|split; [|split]].
  - by apply assignIDs_from.
  - apply assignIDs_countIndirect.
  - pose proof (assignIDs_same 0 objectList) as Hsame.
    apply Forall_forall. intros o' Ho' Hinline.
    apply list_elem_of_lookup in Ho' as [j Hj].
    destruct (Forall2_lookup_r _ _ _ _ _ Hsame Hj)
      as (o & Ho & Hcount & Hsub & Hsame').
    assert (indirect o = false) as Ho_inline.
    { unfold indirect, isStream, isDictionary, type in *.
      by rewrite <- Hcount, <- Hsub. }
    rewrite (Hsame' Ho_inline).
    by eapply (Forall_lookup_1 _ _ _ _ Hnew).
  - eapply Forall2_impl; [apply assignIDs_same|].
    by intros o o' (Hcount & Hsub & _).
Qed.

(** ** The second loop of [SavePDF] *)

Lemma setOutputAsText_twice (o : PDFObject) :
  setOutputAsText (setOutputAsText o) = setOutputAsText o.
Proof. unfold setOutputAsText. by destruct (_sub o) eqn:Hsub; simpl; rewrite ?Hsub. Qed.

Lemma sameButText_refl (l : list PDFObject) : Forall2 sameButText l l.
Proof. apply Forall_Forall2_diag, Forall_forall. intros o _. by left. Qed.

Lemma sameButText_trans (l1 l2 l3 : list PDFObject) :
  Forall2 sameButText l1 l2 -> Forall2 sameButText l2 l3 ->
  Forall2 sameButText l1 l3.
Proof.
  intros H12 H23. eapply Forall2_trans; [|exact H12|exact H23].
  intros o1 o2 o3 [->| ->] [->| ->]; unfold sameButText; auto.
  right. apply setOutputAsText_twice.
Qed.

Lemma sameButText_insert (l : list PDFObject) (p : nat) (o : PDFObject) :
  l !! p = Some o -> Forall2 sameButText l (<[p := setOutputAsText o]> l).
Proof.
  intros Hp. apply Forall2_same_length_lookup. split.
  - by rewrite length_insert.
  - intros j o1 o2 H1 H2. destruct (decide (p = j)) as [->|Hne].
    + rewrite list_lookup_insert_eq in H2 by (by eapply lookup_lt_Some).
      right. congruence.
    + rewrite list_lookup_insert_ne in H2 by done. left. congruence.
Qed.

Lemma deref_Some (objectList : list PDFObject) (p : option ptr)
  (o : PDFObject) :
  deref objectList p = Ok o <-> exists i, p = Some i /\ objectList !! i = Some o.
Proof.
  unfold deref. destruct p as [i|].
  - destruct (objectList !! i) eqn:Hi; split.
    + intros H. apply (inj Ok) in H as ->. by exists i.
    + intros (j & Hj & Ho). congruence.
    + done.
    + intros (j & Hj & Ho). congruence.
  - split; [done|]. by intros (j & Hj & _).
Qed.

Lemma locateContents_sameButText (objectList objectList' : list PDFObject)
  (it : nat) :
  locateContents objectList it = Ok objectList' ->
  Forall2 sameButText objectList objectList'.
Proof.
  unfold locateContents.
  destruct (deref objectList (Some it)) as [this| |] eqn:Hthis; try done.
  apply deref_Some in Hthis as (i & [= <-] & Hthis). simpl.
  repeat match goal with
  | |- Ok _ = Ok _ -> _ =>
      let H := fresh in intros H; apply (inj Ok) in H as <-
  | |- Forall2 sameButText ?l ?l => apply sameButText_refl
  | |- Forall2 sameButText _ (<[_ := _]> _) => by apply sameButText_insert
  | |- context [deref ?l (Some ?p)] =>
      let H := fresh "Hderef" in
      destruct (deref l (Some p)) eqn:H; simpl; try done;
      apply deref_Some in H as (? & [= <-] & H)
  | |- context [match ?x with _ => _ end] => destruct x eqn:?; simpl; try done
  end.
Qed.

Lemma fold_locateContents_sameButText (its : list nat)
  (objectList objectList' : list PDFObject) :
  fold_result locateContents its objectList = Ok objectList' ->
  Forall2 sameButText objectList objectList'.
Proof.
  revert objectList. induction its as [|it its IH]; intros objectList Hfold.
  - apply (inj Ok) in Hfold as <-. apply sameButText_refl.
  - simpl in Hfold.
    destruct (locateContents objectList it) as [l1| |] eqn:H1; try done.
    eapply sameButText_trans; [by eapply locateContents_sameButText|].
    by apply IH.
Qed.

Lemma sameButText_indirect (o o' : PDFObject) :
  sameButText o o' -> indirect o' = indirect o /\ getID o' = getID o.
Proof.
  intros [->| ->]; [done|]. unfold setOutputAsText.
  by destruct (_sub o) eqn:Hsub; unfold indirect, isStream, isDictionary,
    type, getID; simpl; rewrite ?Hsub.
Qed.

Lemma sameButText_ids (l l' : list PDFObject) :
  Forall2 sameButText l l' ->
  getID <$> filter (fun o => indirect o = true) l'
  = getID <$> filter (fun o => indirect o = true) l.
Proof.
  induction 1 as [|o o' l l' Ho Hl IH]; [done|].
  apply sameButText_indirect in Ho as [Hind Hid].
  rewrite !filter_cons, Hind.
  destruct (decide (indirect o = true)); [|done].
  by rewrite !fmap_cons, Hid, IH.
Qed.

(** ** The cross-reference table *)

(** [offset] is the difference of the two calls of [tellp()], whatever the
    stream had received before [start] was taken. *)
Lemma offset_tellp (seekable : bool) (before written : string) :
  Z.of_nat (offset seekable written)
  = tellp seekable (before +:+ written) - tellp seekable before.
Proof.
  unfold offset, tellp. destruct seekable; [|done].
  rewrite string_length_app. lia.
Qed.

Lemma dom_map_insert `{Countable K} {V : Type} (k : K) (v : V)
  (m : gmap K V) :
  dom (map_insert k v m) = {[k]} ∪ dom m.
Proof.
  unfold map_insert. destruct (m !! k) eqn:Hk.
  - symmetry. apply subseteq_union_1_L, singleton_subseteq_l.
    apply elem_of_dom. eauto.
  - apply dom_insert_L.
Qed.

Lemma writeIndirect_dom (seekable : bool)
  (fuel : nat) (objectList : list PDFObject)
  (acc acc' : string * gmap Z nat) (current : PDFObject) :
  writeIndirect seekable fuel objectList acc current = Ok acc' ->
  dom acc'.2 =
  if indirect current then {[getID current]} ∪ dom acc.2 else dom acc.2.
Proof.
  unfold writeIndirect. destruct (indirect current).
  - destruct (WriteObject fuel objectList current) as [w| |]; try done.
    simpl. intros H. apply (inj Ok) in H as <-. apply dom_map_insert.
  - intros H. by apply (inj Ok) in H as <-.
Qed.

(** [xref] has a key for each identifier of an indirect object. *)
Lemma fold_writeIndirect_dom (seekable : bool)
  (fuel : nat) (objectList l : list PDFObject)
  (acc acc' : string * gmap Z nat) :
  fold_result (writeIndirect seekable fuel objectList) l acc = Ok acc' ->
  dom acc'.2 =
  dom acc.2 ∪ list_to_set (getID <$> filter (fun o => indirect o = true) l).
Proof.
  revert acc. induction l as [|current l IH]; intros acc Hfold.
  - apply (inj Ok) in Hfold as <-. simpl. by rewrite (right_id_L ∅ (∪)).
  - simpl in Hfold.
    destruct (writeIndirect seekable fuel objectList acc current)
      as [acc1| |] eqn:H1;
      try done.
    simpl in Hfold. apply IH in Hfold. apply writeIndirect_dom in H1.
    rewrite Hfold, H1, filter_cons. destruct (indirect current).
    + destruct (decide (true = true)); [|done].
      rewrite fmap_cons, list_to_set_cons.
      rewrite (comm_L (∪) {[getID current]} (dom acc.2)).
      by rewrite (assoc_L (∪)).
    + by destruct (decide (false = true)).
Qed.

Lemma xrefLines_length (xref : gmap Z nat) :
  length (xrefLines xref) = S (size xref).
Proof.
  unfold xrefLines. simpl. rewrite length_map, length_seqZ. lia.
Qed.

(** The keys of [xref] are the identifiers [1..K] of the K indirect
    objects: the table is printed without [xref[i]] ever adding a key. *)
Lemma SavePDF_xref_keys (seekable : bool)
  (fuel : nat) (objectList marked : list PDFObject)
  (its : list nat) (acc : string * gmap Z nat) (header : string) :
  Z.of_nat (countIndirect objectList) < 2 ^ 31 ->
  fold_result locateContents its (assignIDs 0 objectList) = Ok marked ->
  fold_result (writeIndirect seekable fuel marked) marked (header, ∅)
  = Ok acc ->
  dom acc.2 = list_to_set (seqZ 1 (Z.of_nat (countIndirect objectList))).
Proof.
  intros Hmax Hmark Hbody.
  apply fold_writeIndirect_dom in Hbody. cbn [snd] in Hbody.
  apply fold_locateContents_sameButText, sameButText_ids in Hmark.
  rewrite Hmark, (assignIDs_from 0) in Hbody by lia.
  by rewrite Hbody, dom_empty_L, (left_id_L ∅ (∪)).
Qed.

(** C4 fails in the code: with K indirect objects, the header of the
    table and [/Size] both give K, not K + 1, while K + 1 entries are
    written, the one of the free-list head and one for each object. *)
Theorem SavePDF_xref_count (seekable : bool)
  (fuel : nat) (majorVersion minorVersion : Z)
  (objectList : list PDFObject) (i_root i_info : ptr) (out : string) :
  Z.of_nat (countIndirect objectList) < 2 ^ 31 ->
  SavePDF seekable fuel majorVersion minorVersion objectList i_root i_info
  = Ok out ->
  exists (body : string) (xref : gmap Z nat) (root info : PDFObject),
    length (xrefLines xref) = S (countIndirect objectList)
    /\ out = body
             +:+ ("xref" +:+ LF
                  +:+ "0 " +:+ show_size (countIndirect objectList) +:+ LF
                  +:+ join (xrefLines xref))
             +:+ ("trailer" +:+ LF
                  +:+ "<< /Size " +:+ show_size (countIndirect objectList)
                  +:+ " /Root " +:+ show_int (getID root)
                  +:+ " 0 R /Info " +:+ show_int (getID info)
                  +:+ " 0 R>>" +:+ LF
                  +:+ "startxref" +:+ LF
                  +:+ show_size (offset seekable body) +:+ LF
                  +:+ "%%EOF" +:+ LF).
Proof.
  intros Hmax Hsave. unfold SavePDF in Hsave.
  destruct (fold_result locateContents _ _) as [marked| |] eqn:Hmark;
    try done.
  simpl in Hsave.
  destruct (fold_result (writeIndirect seekable fuel marked) marked _)
    as [[body xref]| |] eqn:Hbody; try done.
  simpl in Hsave.
  destruct (marked !! i_root) as [root|]; try done.
  destruct (marked !! i_info) as [info|]; try done.
  simpl in Hsave. apply (inj Ok) in Hsave as <-.
  assert (size xref = countIndirect objectList) as Hsize.
  { pose proof (SavePDF_xref_keys _ _ _ _ _ (body, xref) _ Hmax Hmark Hbody)
      as Hkeys.
    cbn [snd] in Hkeys. rewrite <- size_dom, Hkeys.
    rewrite size_list_to_set by apply NoDup_seqZ.
    rewrite length_seqZ. lia. }
  exists body, xref, root, info. split.
  - by rewrite xrefLines_length, Hsize.
  - unfold writeXref, writeTrailer. by rewrite Hsize.
Qed.

(** ** The graph builder *)

Lemma register_objectList (id : PDFIdentifier) (o : PDFObject)
  (ctx : Context) :
  objectList (register id o ctx) = objectList ctx ++ [o].
Proof. reflexivity. Qed.

Lemma register_visited (id : PDFIdentifier) (o : PDFObject) (ctx : Context) :
  visited ctx !! id = None ->
  visited (register id o ctx) = <[id := length (objectList ctx)]> (visited ctx).
Proof.
  intros Hid. unfold register. cbn [visited objectList].
  unfold map_insert. by rewrite Hid.
Qed.

(** An object met again has its count incremented, nothing else. *)
Lemma VisitObject_visited (doc : CGPDFDocument) (fuel : nat)
  (obj : PDFIdentifier) (o : CGPDFObject) (p : ptr) (ctx : Context) :
  doc !! obj = Some o -> visited ctx !! obj = Some p ->
  VisitObject doc (S fuel) obj ctx = Ok (incAt p ctx).
Proof. intros Hdoc Hvis. simpl. by rewrite Hdoc, Hvis. Qed.

(** A Name met for the first time is appended with one reference. *)
Lemma VisitObject_Name (doc : CGPDFDocument) (fuel : nat)
  (obj : PDFIdentifier) (v : string) (ctx : Context) :
  doc !! obj = Some (kCGPDFObjectTypeName v) -> visited ctx !! obj = None ->
  VisitObject doc (S fuel) obj ctx = Ok (register obj (new (Name v)) ctx).
Proof.
  intros Hdoc Hvis. simpl. rewrite Hdoc, Hvis.
  unfold VisitName, visitScalar. by rewrite Hvis, Hdoc.
Qed.

(** *** Cycles through a stream *)

(** [VisitStream] registers the stream after its dictionary has been
    visited: a stream whose dictionary refers to the stream is entered
    again and again. *)
Lemma VisitObject_stream_self (doc : CGPDFDocument) (stream : PDFIdentifier)
  (key : string) (rest : list (string * PDFIdentifier)) (data : CFDataRef)
  (format : CGPDFDataFormat) :
  doc !! stream
    = Some (kCGPDFObjectTypeStream ((key, stream) :: rest) data format) ->
  forall (fuel : nat) (ctx : Context),
    visited ctx !! stream = None ->
    VisitObject doc fuel stream ctx = OutOfFuel.
Proof.
  intros Hdoc fuel. induction fuel as [|fuel IH]; intros ctx Hvis; [done|].
  simpl. rewrite Hdoc, Hvis. unfold VisitStream. rewrite Hvis, Hdoc.
  simpl. rewrite String.eqb_refl. unfold visitChild.
  by rewrite (IH ctx Hvis).
Qed.

(** The cycle through a dictionary and an array is built once: the
    dictionary is registered before its children are visited. *)
Lemma dictCycleDoc_built :
  built dictCycleDoc 2 0%nat = Ok [(type_dict, 2); (type_array, 1)].
Proof. vm_compute. reflexivity. Qed.

(** C1 fails in the code for streams: [VisitStream] registers the stream
    after the visit of its dictionary, unlike [VisitDict] and [VisitArray].
    The build of a stream that is a value of its own dictionary does not
    end, whatever the fuel, and a stream reached again through a dictionary
    below it is built twice. *)
Theorem VisitStream_registers_after_children :
  (forall fuel : nat,
     VisitDict selfStreamDoc (VisitObject selfStreamDoc fuel) 0%nat Context_new
     = OutOfFuel)
  /\ built streamCycleDoc 4 0%nat
     = Ok [(type_dict, 1); (type_dict, 2); (type_stream, 1); (type_stream, 1)].
Proof.
  split; [|vm_compute; reflexivity].
  intros fuel. unfold VisitDict.
  change (visited Context_new !! 0%nat) with (@None ptr).
  change (selfStreamDoc !! 0%nat)
    with (Some (kCGPDFObjectTypeDictionary [("X", 1%nat)])).
  simpl. unfold visitChild.
  by rewrite (VisitObject_stream_self selfStreamDoc 1%nat "Self" [] []
                CGPDFDataFormatRaw).
Qed.

(** *** A Name shared by two dictionaries *)

Lemma visitChild_Ok (V : PDFIdentifier -> Context -> result Context)
  (value : PDFIdentifier) (ctx ctx' : Context) (found : ptr) :
  V value ctx = Ok ctx' -> visited ctx' !! value = Some found ->
  visitChild V value ctx = Ok (found, ctx').
Proof. intros HV Hfound. unfold visitChild. by rewrite HV, result_bind_Ok, Hfound. Qed.


(** *** Invariants of the builder *)

Lemma fold_result_inv {A B : Type} (P : B -> Prop) (f : B -> A -> result B)
  (l : list A) (b b' : B) :
  (forall b x b', P b -> f b x = Ok b' -> P b') ->
  P b -> fold_result f l b = Ok b' -> P b'.
Proof.
  intros Hf. revert b. induction l as [|x l IH]; intros b Hb Hfold.
  - by apply (inj Ok) in Hfold as <-.
  - simpl in Hfold. destruct (f b x) as [b1| |] eqn:H1; try done.
    eapply IH; [|exact Hfold]. by eapply Hf.
Qed.

Section Invariant.

Variable doc : CGPDFDocument.

(** A property of the context that every step of the builder keeps. *)
Variable P : Context -> Prop.

Hypothesis P_incAt : forall p ctx, P ctx -> P (incAt p ctx).
Hypothesis P_register : forall id v ctx,
  (forall st, v <> Stream st) ->
  visited ctx !! id = None -> P ctx -> P (register id (new v) ctx).
Hypothesis P_register_stream : forall id entries data format st ctx,
  doc !! id = Some (kCGPDFObjectTypeStream entries data format) ->
  P ctx -> P (register id (new (Stream st)) ctx).
Hypothesis P_dictAddValue : forall key found p ctx,
  P ctx -> P (storeAt (dictAddValue key found) p ctx).
Hypothesis P_arrayAddValue : forall found p ctx,
  P ctx -> P (storeAt (arrayAddValue found) p ctx).

Lemma visitScalar_inv (read : CGPDFObject -> option PDFValue)
  (obj : PDFIdentifier) (ctx ctx' : Context) :
  (forall o v st, read o = Some v -> v <> Stream st) ->
  P ctx -> visitScalar doc read obj ctx = Ok ctx' -> P ctx'.
Proof.
  intros Hread HP. unfold visitScalar.
  destruct (visited ctx !! obj) as [p|] eqn:Hvis.
  - intros H. apply (inj Ok) in H as <-. by apply P_incAt.
  - destruct (doc !! obj) as [o|]; simpl; [|done].
    destruct (read o) as [v|] eqn:Hv; [|done].
    intros H. apply (inj Ok) in H as <-. apply P_register; eauto.
Qed.

Section Children.

Variable V : PDFIdentifier -> Context -> result Context.
Hypothesis V_inv : forall value ctx ctx', P ctx -> V value ctx = Ok ctx' -> P ctx'.

Lemma visitChild_inv (value : PDFIdentifier) (ctx ctx' : Context)
  (found : ptr) :
  P ctx -> visitChild V value ctx = Ok (found, ctx') -> P ctx'.
Proof.
  intros HP. unfold visitChild.
  destruct (V value ctx) as [c| |] eqn:HV; try done. simpl.
  destruct (visited c !! value); [|done].
  intros H. apply (inj Ok) in H. injection H as _ <-. by eapply V_inv.
Qed.

Lemma VisitDict_inv (dict : PDFIdentifier) (ctx ctx' : Context) (p : ptr) :
  P ctx -> VisitDict doc V dict ctx = Ok (p, ctx') -> P ctx'.
Proof.
  intros HP. unfold VisitDict.
  destruct (visited ctx !! dict) as [q|] eqn:Hvis.
  - intros H. apply (inj Ok) in H. injection H as _ <-. by apply P_incAt.
  - destruct (doc !! dict) as [[]|]; try done.
    destruct (fold_result _ _ _) as [c| |] eqn:Hfold; try done.
    intros H. apply (inj Ok) in H. injection H as _ <-.
    revert Hfold. apply fold_result_inv; [|by apply P_register].
    intros c1 it c2 Hc1.
    destruct (CGPDFDictionaryGetObject entries it) as [value|].
    + destruct (visitChild V value c1) as [[found c3]| |] eqn:Hchild;
        try done.
      intros H. apply (inj Ok) in H as <-.
      apply (P_dictAddValue it found (length (objectList ctx)) c3).
      by eapply visitChild_inv.
    + intros H. by apply (inj Ok) in H as <-.
Qed.

Lemma VisitArray_inv (array : PDFIdentifier) (ctx ctx' : Context) :
  P ctx -> VisitArray doc V array ctx = Ok ctx' -> P ctx'.
Proof.
  intros HP. unfold VisitArray.
  destruct (visited ctx !! array) as [q|] eqn:Hvis.
  - intros H. apply (inj Ok) in H as <-. by apply P_incAt.
  - destruct (doc !! array) as [[]|]; try done.
    apply fold_result_inv; [|by apply P_register].
    intros c1 value c2 Hc1.
    destruct (visitChild V value c1) as [[found c3]| |] eqn:Hchild; try done.
    intros H. apply (inj Ok) in H as <-.
    apply (P_arrayAddValue found (length (objectList ctx)) c3).
    by eapply visitChild_inv.
Qed.

Lemma VisitStream_inv (stream : PDFIdentifier) (ctx ctx' : Context) :
  P ctx -> VisitStream doc V stream ctx = Ok ctx' -> P ctx'.
Proof.
  intros HP. unfold VisitStream.
  destruct (visited ctx !! stream) as [q|] eqn:Hvis.
  - intros H. apply (inj Ok) in H as <-. by apply P_incAt.
  - destruct (doc !! stream) as [[]|] eqn:Hdoc; try done.
    destruct (fold_result _ _ _) as [[newDict c]| |] eqn:Hfold; try done.
    intros H. apply (inj Ok) in H as <-.
    eapply P_register_stream; [exact Hdoc|].
    revert Hfold.
    apply (fold_result_inv (fun acc => P acc.2)
             _ _ (PDFDictionary_new, ctx) (newDict, c)); [|done].
    intros acc it acc' Hacc.
    destruct (CGPDFDictionaryGetObject entries it) as [value|].
    + destruct (visitChild V value acc.2) as [[found c3]| |] eqn:Hchild;
        try done.
      intros H. apply (inj Ok) in H as <-. simpl.
      by eapply visitChild_inv.
    + intros H. by apply (inj Ok) in H as <-.
Qed.

End Children.

Lemma VisitObject_inv (fuel : nat) (obj : PDFIdentifier)
  (ctx ctx' : Context) :
  P ctx -> VisitObject doc fuel obj ctx = Ok ctx' -> P ctx'.
Proof.
  revert obj ctx ctx'.
  induction fuel as [|fuel IH]; intros obj ctx ctx' HP; [done|].
  simpl. destruct (doc !! obj) as [o|]; [|done].
  destruct (visited ctx !! obj) as [p|].
  { intros H. apply (inj Ok) in H as <-. by apply P_incAt. }
  destruct o.
  - apply visitScalar_inv; [|done]. by intros o' w st [= <-].
  - apply visitScalar_inv; [|done].
    intros o' w st. by destruct o'; intros [= <-].
  - apply visitScalar_inv; [|done].
    intros o' w st. by destruct o'; intros [= <-].
  - apply visitScalar_inv; [|done].
    intros o' w st. by destruct o'; intros [= <-].
  - apply visitScalar_inv; [|done].
    intros o' w st. by destruct o'; intros [= <-].
  - apply visitScalar_inv; [|done].
    intros o' w st. by destruct o'; intros [= <-].
  - by apply VisitArray_inv.
  - destruct (VisitDict doc (VisitObject doc fuel) obj ctx)
      as [[p c]| |] eqn:Hdict; try done.
    intros H. apply (inj Ok) in H as <-.
    by eapply (VisitDict_inv (VisitObject doc fuel)).
  - by apply VisitStream_inv.
Qed.

End Invariant.

(** Every object the builder makes is without identifier. *)
Lemma VisitObject_no_ids (doc : CGPDFDocument) (fuel : nat)
  (obj : PDFIdentifier) (ctx ctx' : Context) :
  Forall (fun o => getID o = 0) (objectList ctx) ->
  VisitObject doc fuel obj ctx = Ok ctx' ->
  Forall (fun o => getID o = 0) (objectList ctx').
Proof.
  apply (VisitObject_inv doc
           (fun ctx => Forall (fun o => getID o = 0) (objectList ctx))).
  - intros p c Hc. apply Forall_alter; [done|]. by intros o _ Ho.
  - intros id v c _ _ Hc. apply Forall_app_2; [done|]. by repeat constructor.
  - intros id entries data format st c _ Hc.
    apply Forall_app_2; [done|]. by repeat constructor.
  - intros key found p c Hc. apply Forall_alter; [done|].
    intros o _ Ho. unfold dictAddValue. by destruct (_sub o).
  - intros found p c Hc. apply Forall_alter; [done|].
    intros o _ Ho. unfold arrayAddValue. by destruct (_sub o).
Qed.

(** X17: the builder gives no identifier: when no object of the list has
    one, none has one after the visit of a dictionary, so that the first
    loop of [SavePDF] starts from objects without identifier. *)
Lemma VisitDict_no_ids (doc : CGPDFDocument) (fuel : nat)
  (dict : PDFIdentifier) (ctx ctx' : Context) (p : ptr) :
  Forall (fun o => getID o = 0) (objectList ctx) ->
  VisitDict doc (VisitObject doc fuel) dict ctx = Ok (p, ctx') ->
  Forall (fun o => getID o = 0) (objectList ctx').
Proof.
  apply (VisitDict_inv doc
           (fun ctx => Forall (fun o => getID o = 0) (objectList ctx))).
  - intros q c Hc. apply Forall_alter; [done|]. by intros o _ Ho.
  - intros id v c _ _ Hc. apply Forall_app_2; [done|]. by repeat constructor.
  - intros key found q c Hc. apply Forall_alter; [done|].
    intros o _ Ho. unfold dictAddValue. by destruct (_sub o).
  - intros value c c'. apply VisitObject_no_ids.
Qed.

(** What has been visited stays visited. *)
Lemma VisitObject_visited_mono (doc : CGPDFDocument) (fuel : nat)
  (obj : PDFIdentifier) (ctx ctx' : Context) :
  VisitObject doc fuel obj ctx = Ok ctx' ->
  dom (visited ctx) ⊆ dom (visited ctx').
Proof.
  apply (VisitObject_inv doc
           (fun c => dom (visited ctx) ⊆ dom (visited c))); try done.
  - intros id v c _ _ Hc. unfold register. cbn [visited].
    rewrite dom_map_insert. by apply union_subseteq_r'.
  - intros id entries data format st c _ Hc. unfold register. cbn [visited].
    rewrite dom_map_insert. by apply union_subseteq_r'.
Qed.

(** *** Documents without streams *)

Lemma fold_result_Ok {A B : Type} (Inv : B -> Prop) (Q : A -> Prop)
  (f : B -> A -> result B) (l : list A) (b : B) :
  (forall b x, Inv b -> Q x -> exists b', f b x = Ok b' /\ Inv b') ->
  Forall Q l -> Inv b ->
  exists b', fold_result f l b = Ok b' /\ Inv b'.
Proof.
  intros Hf Hl. revert b. induction Hl as [|x l Hx Hl IH]; intros b Hb.
  - by exists b.
  - destruct (Hf b x Hb Hx) as (b1 & H1 & Hb1).
    destruct (IH b1 Hb1) as (b' & Hfold & Hb').
    exists b'. simpl. by rewrite H1.
Qed.

Lemma CGPDFDictionaryGetObject_elem (entries : list (string * PDFIdentifier))
  (key : string) (value : PDFIdentifier) :
  CGPDFDictionaryGetObject entries key = Some value ->
  value ∈ snd <$> entries.
Proof.
  induction entries as [|[k v] entries IH]; [done|]. simpl.
  destruct (String.eqb k key).
  - intros [= ->]. apply list_elem_of_here.
  - intros H. by apply list_elem_of_further, IH.
Qed.

Lemma unvisited_mono (doc : CGPDFDocument) (ctx ctx' : Context) :
  dom (visited ctx) ⊆ dom (visited ctx') ->
  (size (unvisited doc ctx') <= size (unvisited doc ctx))%nat.
Proof.
  intros Hsub. apply subseteq_size. unfold unvisited.
  by apply difference_mono_l.
Qed.

Lemma unvisited_register (doc : CGPDFDocument) (id : PDFIdentifier)
  (o : PDFObject) (ctx : Context) :
  id ∈ dom doc -> visited ctx !! id = None ->
  (size (unvisited doc (register id o ctx)) < size (unvisited doc ctx))%nat.
Proof.
  intros Hdoc Hvis. apply subset_size. unfold unvisited.
  rewrite register_visited, dom_insert_L by done.
  apply not_elem_of_dom in Hvis. split.
  - apply difference_mono_l, union_subseteq_r.
  - intros Hsub. assert (id ∈ dom doc ∖ dom (visited ctx)) as Hid
      by by apply elem_of_difference.
    apply Hsub, elem_of_difference in Hid as [_ Hid].
    apply Hid, elem_of_union_l, elem_of_singleton. done.
Qed.

Section WithoutStreams.

Variable doc : CGPDFDocument.
Hypothesis doc_wellFormed : wellFormed doc.
Hypothesis doc_streamFree : streamFree doc.

Section Children.

Variable V : PDFIdentifier -> Context -> result Context.
Variable fuel : nat.
Hypothesis V_returns : forall value ctx,
  value ∈ dom doc -> (size (unvisited doc ctx) < fuel)%nat ->
  returns (V value ctx) value ctx.

Lemma visitChild_returns (value : PDFIdentifier) (ctx : Context) :
  value ∈ dom doc -> (size (unvisited doc ctx) < fuel)%nat ->
  exists found ctx', visitChild V value ctx = Ok (found, ctx')
                     /\ dom (visited ctx) ⊆ dom (visited ctx').
Proof.
  intros Hvalue Hsize.
  destruct (V_returns value ctx Hvalue Hsize) as (ctx' & HV & Hin & Hsub).
  apply elem_of_dom in Hin as [found Hfound].
  exists found, ctx'. split; [|done].
  unfold visitChild. by rewrite HV, result_bind_Ok, Hfound.
Qed.

Lemma VisitDict_returns (dict : PDFIdentifier)
  (entries : list (string * PDFIdentifier)) (ctx : Context) :
  doc !! dict = Some (kCGPDFObjectTypeDictionary entries) ->
  (size (unvisited doc ctx) <= fuel)%nat ->
  exists p, returns (r ← VisitDict doc V dict ctx; Ok r.2) dict ctx
            /\ exists ctx', VisitDict doc V dict ctx = Ok (p, ctx').
Proof.
  intros Hdoc Hsize. unfold VisitDict.
  destruct (visited ctx !! dict) as [q|] eqn:Hvis.
  { exists q. split; [|by eexists]. exists (incAt q ctx).
    split; [done|]. split; [by apply (elem_of_dom_2 _ _ q)|done]. }
  rewrite Hdoc. cbv zeta.
  set (ctx_a := register dict (new (Dictionary PDFDictionary_new)) ctx).
  assert (dict ∈ dom doc) as Hdict by by apply (elem_of_dom_2 _ _ _ Hdoc).
  assert (size (unvisited doc ctx_a) < fuel)%nat as Hsize_a.
  { pose proof (unvisited_register doc dict
                  (new (Dictionary PDFDictionary_new)) ctx Hdict Hvis).
    fold ctx_a in H. lia. }
  assert (dom (visited ctx) ⊆ dom (visited ctx_a)
          /\ dict ∈ dom (visited ctx_a)) as [Hsub_a Hdict_a].
  { unfold ctx_a. rewrite register_visited, dom_insert_L by done.
    split; [apply union_subseteq_r|].
    by apply elem_of_union_l, elem_of_singleton. }
  edestruct (fold_result_Ok
    (fun c => dom (visited ctx_a) ⊆ dom (visited c))
    (fun it => forall value, CGPDFDictionaryGetObject entries it = Some value
                             -> value ∈ dom doc))
    as (c & Hfold & Hc); [| |reflexivity|].
  3:{ exists (length (objectList ctx)). rewrite Hfold. split; [|by eexists].
      exists c. split; [done|]. split; [by apply Hc|by etrans]. }
  - intros c1 it Hc1 Hit. cbv beta.
    destruct (CGPDFDictionaryGetObject entries it) as [value|] eqn:Hget.
    + destruct (visitChild_returns value c1) as (found & c3 & Hchild & Hsub).
      * by apply Hit.
      * pose proof (unvisited_mono doc _ _ Hc1). lia.
      * rewrite Hchild. eexists. split; [reflexivity|]. simpl. by etrans.
    + by exists c1.
  - apply Forall_forall. intros it _ value Hget.
    apply (doc_wellFormed dict _ value Hdoc).
    by apply CGPDFDictionaryGetObject_elem in Hget.
Qed.

Lemma VisitArray_returns (array : PDFIdentifier)
  (items : list PDFIdentifier) (ctx : Context) :
  doc !! array = Some (kCGPDFObjectTypeArray items) ->
  (size (unvisited doc ctx) <= fuel)%nat ->
  returns (VisitArray doc V array ctx) array ctx.
Proof.
  intros Hdoc Hsize. unfold VisitArray.
  destruct (visited ctx !! array) as [q|] eqn:Hvis.
  { exists (incAt q ctx).
    split; [done|]. split; [by apply (elem_of_dom_2 _ _ q)|done]. }
  rewrite Hdoc. cbv zeta.
  set (ctx_a := register array (new (Array [])) ctx).
  assert (array ∈ dom doc) as Harray by by apply (elem_of_dom_2 _ _ _ Hdoc).
  assert (size (unvisited doc ctx_a) < fuel)%nat as Hsize_a.
  { pose proof (unvisited_register doc array (new (Array [])) ctx
                  Harray Hvis).
    fold ctx_a in H. lia. }
  assert (dom (visited ctx) ⊆ dom (visited ctx_a)
          /\ array ∈ dom (visited ctx_a)) as [Hsub_a Harray_a].
  { unfold ctx_a. rewrite register_visited, dom_insert_L by done.
    split; [apply union_subseteq_r|].
    by apply elem_of_union_l, elem_of_singleton. }
  edestruct (fold_result_Ok
    (fun c => dom (visited ctx_a) ⊆ dom (visited c))
    (fun value => value ∈ dom doc))
    as (c & Hfold & Hc); [| |reflexivity|].
  3:{ rewrite Hfold. exists c. split; [done|].
      split; [by apply Hc|by etrans]. }
  - intros c1 value Hc1 Hvalue. cbv beta.
    destruct (visitChild_returns value c1) as (found & c3 & Hchild & Hsub).
    + done.
    + pose proof (unvisited_mono doc _ _ Hc1). lia.
    + rewrite Hchild. eexists. split; [reflexivity|]. simpl. by etrans.
  - apply Forall_forall. intros value Hvalue.
    by apply (doc_wellFormed array _ value Hdoc).
Qed.

End Children.

(** With fuel for every node not yet visited, the visit of a node of the
    document returns. *)
Lemma VisitObject_returns (fuel : nat) (obj : PDFIdentifier)
  (ctx : Context) :
  obj ∈ dom doc -> (size (unvisited doc ctx) < fuel)%nat ->
  returns (VisitObject doc fuel obj ctx) obj ctx.
Proof.
  revert obj ctx. induction fuel as [|fuel IH]; intros obj ctx Hobj Hsize;
    [lia|].
  apply elem_of_dom in Hobj as [o Ho]. simpl. rewrite Ho.
  destruct (visited ctx !! obj) as [p|] eqn:Hvis.
  { exists (incAt p ctx).
    split; [done|]. split; [by apply (elem_of_dom_2 _ _ p)|done]. }
  assert (forall v, returns (Ok (register obj (new v) ctx)) obj ctx)
    as Hscalar.
  { intros v. eexists. split; [reflexivity|].
    rewrite register_visited, dom_insert_L by done.
    split; [by apply elem_of_union_l, elem_of_singleton|].
    apply union_subseteq_r. }
  destruct o as [|b|v|v|v|v|items|entries|entries data format];
    try (unfold VisitNull, VisitBoolean, VisitInteger,
      VisitFloat, VisitName, VisitString, visitScalar; rewrite Hvis, Ho;
      by apply Hscalar).
  - apply (VisitArray_returns _ fuel IH _ items); [done|lia].
  - destruct (VisitDict_returns _ fuel IH obj entries ctx) as (p & Hr & _);
      [done|lia|done].
  - by destruct (doc_streamFree obj entries data format).
Qed.

End WithoutStreams.

(** Without streams there is one object for each source node visited. *)
Lemma VisitDict_one_node_each (doc : CGPDFDocument) (fuel : nat)
  (dict : PDFIdentifier) (ctx ctx' : Context) (p : ptr) :
  streamFree doc ->
  length (objectList ctx) = size (visited ctx) ->
  VisitDict doc (VisitObject doc fuel) dict ctx = Ok (p, ctx') ->
  length (objectList ctx') = size (visited ctx').
Proof.
  intros Hfree.
  assert (forall q c, length (objectList c) = size (visited c) ->
            length (objectList (incAt q c)) = size (visited (incAt q c)))
    as HincAt.
  { intros q c Hc. unfold incAt. cbn [objectList visited].
    by rewrite length_alter. }
  assert (forall id v c, (forall st, v <> Stream st) ->
            visited c !! id = None ->
            length (objectList c) = size (visited c) ->
            length (objectList (register id (new v) c))
            = size (visited (register id (new v) c))) as Hregister.
  { intros id v c _ Hid Hc.
    rewrite register_visited, register_objectList by done.
    rewrite length_app, map_size_insert_None by done. simpl. lia. }
  assert (forall f q c, length (objectList c) = size (visited c) ->
            length (objectList (storeAt f q c))
            = size (visited (storeAt f q c))) as HstoreAt.
  { intros f q c Hc. unfold storeAt. cbn [objectList visited].
    by rewrite length_alter. }
  apply (VisitDict_inv doc
           (fun c => length (objectList c) = size (visited c))); auto.
  intros value c c'.
  apply (VisitObject_inv doc
           (fun c => length (objectList c) = size (visited c))); auto.
  intros id entries data format st c0 Hid. by destruct (Hfree id entries data format).
Qed.

(** X18: whatever the cycles of a well-formed document without streams,
    with fuel for each of its nodes the build from a dictionary returns,
    with one object for each source node visited. *)
Lemma VisitDict_without_streams (doc : CGPDFDocument) (fuel : nat)
  (root : PDFIdentifier) (entries : list (string * PDFIdentifier)) :
  wellFormed doc -> streamFree doc ->
  doc !! root = Some (kCGPDFObjectTypeDictionary entries) ->
  (size (dom doc) <= fuel)%nat ->
  exists p ctx',
    VisitDict doc (VisitObject doc fuel) root Context_new = Ok (p, ctx')
    /\ length (objectList ctx') = size (visited ctx').
Proof.
  intros Hwf Hfree Hroot Hfuel.
  destruct (VisitDict_returns doc Hwf (VisitObject doc fuel) fuel
              (VisitObject_returns doc Hwf Hfree fuel)
              root entries Context_new Hroot) as (p & _ & ctx' & Hvisit).
  - etrans; [|exact Hfuel]. apply subseteq_size. unfold unvisited.
    apply subseteq_difference_l. done.
  - exists p, ctx'. split; [done|].
    by apply (VisitDict_one_node_each doc fuel root Context_new ctx' p).
Qed.

End Properties.

(** * More properties of the code *)

Section MoreProperties.

Context {fm : FloatModel}.

(** ** [convertData], more *)

Lemma convertLoop_length (ptr : list byte) (i : Z) :
  0 <= i ->
  Z.of_nat (String.length (convertLoop ptr i))
  = 2 * Z.of_nat (length ptr) + ((i + Z.of_nat (length ptr)) / 40 - i / 40).
Proof.
  revert i. induction ptr as [|p ptr IH]; intros i Hi.
  - change (convertLoop [] i) with EmptyString.
    change (Z.of_nat (length (@nil byte))) with 0.
    change (Z.of_nat (String.length EmptyString)) with 0.
    rewrite Z.add_0_r. lia.
  - rewrite convertLoop_cons, !string_length_app, !Nat2Z.inj_add.
    rewrite IH by lia.
    replace (Z.of_nat (String.length (hexPair p))) with 2 by reflexivity.
    replace (i + 1 + Z.of_nat (length ptr))
      with (i + Z.of_nat (length (p :: ptr))) by (simpl length; lia).
    destruct ((i + 1) mod 40 =? 0) eqn:E.
    + apply Z.eqb_eq in E. rewrite LF_length. simpl length. lia_mod.
    + apply Z.eqb_neq in E. simpl String.length. simpl length. lia_mod.
Qed.

(** X1: the size of armored data of [n] bytes is [2 n + n / 40 + 1]: two
    digits a byte, a line feed after each full line of 40 bytes, and the
    last line feed. *)
Theorem convertData_armored_size (data : CFDataRef) :
  cd_size (convertData data true)
  = (2 * length data + length data / 40 + 1)%nat.
Proof.
  unfold convertData. simpl negb. cbv iota. cbn [cd_size].
  rewrite string_length_app, LF_length.
  pose proof (convertLoop_length data 0 (Z.le_refl 0)) as Hlen.
  apply Nat2Z.inj. rewrite !Nat2Z.inj_add, Hlen, Nat2Z.inj_mul.
  rewrite Nat2Z.inj_div, Z.add_0_l.
  change (Z.of_nat 40) with 40. change (Z.of_nat 2) with 2. lia_mod.
Qed.

Lemma forallb_string_app (f : ascii -> bool) (s t : string) :
  forallb f (list_ascii_of_string (s +:+ t))
  = forallb f (list_ascii_of_string s) && forallb f (list_ascii_of_string t).
Proof.
  induction s as [|c s IH]; [done|].
  rewrite string_app_cons. simpl. by rewrite IH, andb_assoc.
Qed.

Lemma hexPair_armorChar (p : byte) :
  forallb armorChar (list_ascii_of_string (hexPair p)) = true.
Proof. destruct p; reflexivity. Qed.

Lemma convertLoop_armorChar (ptr : list byte) (i : Z) :
  forallb armorChar (list_ascii_of_string (convertLoop ptr i)) = true.
Proof.
  revert i. induction ptr as [|p ptr IH]; intros i; [done|].
  rewrite convertLoop_cons, !forallb_string_app, hexPair_armorChar, IH.
  by destruct ((i + 1) mod 40 =? 0).
Qed.

(** X2: armored data hold nothing but the digits [0-9], [A-F] and line
    feeds: no lowercase digit, no space, and no [>], the end-of-data mark of
    the hex filter. *)
Theorem convertData_armored_alphabet (data : CFDataRef) :
  forallb armorChar (list_ascii_of_string (cd_data (convertData data true)))
  = true.
Proof.
  unfold convertData. simpl negb. cbv iota. cbn [cd_data].
  by rewrite forallb_string_app, convertLoop_armorChar.
Qed.

Lemma hexDecode_pair (p : byte) (s : string) :
  hexDecode (hexPair p +:+ s) = p :: hexDecode s.
Proof. destruct p; reflexivity. Qed.

Lemma hexDecode_LF (s : string) : hexDecode (LF +:+ s) = hexDecode s.
Proof. reflexivity. Qed.

Lemma hexDecode_convertLoop (ptr : list byte) (i : Z) (rest : string) :
  hexDecode (convertLoop ptr i +:+ rest) = ptr ++ hexDecode rest.
Proof.
  revert i. induction ptr as [|p ptr IH]; intros i; [done|].
  rewrite convertLoop_cons, !string_app_assoc, hexDecode_pair.
  rewrite <- app_comm_cons. f_equal.
  destruct ((i + 1) mod 40 =? 0).
  - rewrite hexDecode_LF. apply IH.
  - apply IH.
Qed.

(** X3: [convertData] loses nothing: in either mode, buffers with the same
    converted data are the same buffer. *)
Theorem convertData_injective (doASCII : bool) (data1 data2 : CFDataRef) :
  cd_data (convertData data1 doASCII) = cd_data (convertData data2 doASCII) ->
  data1 = data2.
Proof.
  destruct doASCII; unfold convertData; simpl negb; cbv iota; cbn [cd_data].
  - intros H. apply (f_equal hexDecode) in H.
    rewrite !hexDecode_convertLoop in H.
    change (hexDecode LF) with (@nil byte) in H.
    by rewrite !app_nil_r in H.
  - intros H. apply (f_equal String.list_byte_of_string) in H.
    by rewrite !String.list_byte_of_string_of_list_byte in H.
Qed.

(** ** [make_writable], more *)

Lemma make_writable_cons (c : ascii) (s : string) :
  make_writable (String c s)
  = (if Ascii.eqb c " "%char then "#20" else String c EmptyString)
    +:+ make_writable s.
Proof. simpl. by destruct (Ascii.eqb c " "%char). Qed.

Lemma make_writable_app (s t : string) :
  make_writable (s +:+ t) = make_writable s +:+ make_writable t.
Proof.
  induction s as [|c s IH]; [done|].
  by rewrite string_app_cons, !make_writable_cons, IH, string_app_assoc.
Qed.

Lemma make_writable_length (s : string) :
  String.length (make_writable s) = (String.length s + 2 * spaces s)%nat.
Proof.
  induction s as [|c s IH]; [done|].
  rewrite make_writable_cons, string_length_app, IH. simpl.
  destruct (Ascii.eqb c " "%char); simpl; lia.
Qed.

Lemma make_writable_spaces (s : string) : spaces (make_writable s) = O.
Proof.
  induction s as [|c s IH]; [done|].
  simpl. destruct (Ascii.eqb c " "%char) eqn:E; [exact IH|].
  simpl. by rewrite E.
Qed.

(** X4: what [make_writable] returns has no space and is two bytes longer
    for each space of its argument; it returns its argument as it is exactly
    when that has no space. *)
Theorem make_writable_no_space (i_s : string) :
  spaces (make_writable i_s) = O
  /\ String.length (make_writable i_s)
     = (String.length i_s + 2 * spaces i_s)%nat
  /\ (make_writable i_s = i_s <-> spaces i_s = O).
Proof.
  split; [apply make_writable_spaces|].
  split; [apply make_writable_length|].
  split.
  - intros Heq. pose proof (make_writable_length i_s) as Hlen.
    rewrite Heq in Hlen. lia.
  - induction i_s as [|c s IH]; [done|].
    simpl. destruct (Ascii.eqb c " "%char); [done|].
    intros Hno. by rewrite IH.
Qed.

(** X5: [make_writable] works piece by piece, and leaves [#] as it is: a
    space and the text [#20] are written alike, so two Names can be written
    as one. *)
Theorem make_writable_collision (s t : string) :
  make_writable (s +:+ " " +:+ t) = make_writable (s +:+ "#20" +:+ t)
  /\ s +:+ " " +:+ t <> s +:+ "#20" +:+ t.
Proof.
  split.
  - by rewrite !make_writable_app.
  - intros H. apply (f_equal String.length) in H.
    rewrite !string_length_app in H. simpl in H. lia.
Qed.

(** ** [PDFDictionary], more *)

Lemma lookup_map_insert `{Countable K} {V : Type} (k k' : K) (v : V)
  (m : gmap K V) :
  map_insert k v m !! k'
  = match m !! k' with
    | Some x => Some x
    | None => if decide (k = k') then Some v else None
    end.
Proof.
  unfold map_insert. destruct (m !! k) as [x|] eqn:Hk.
  - destruct (m !! k') as [x'|] eqn:Hk'; [done|].
    destruct (decide (k = k')) as [->|]; [congruence|done].
  - destruct (decide (k = k')) as [->|Hne].
    + by rewrite lookup_insert_eq, Hk.
    + rewrite lookup_insert_ne by done. by destruct (m !! k').
Qed.

Lemma foldl_addValue (kvs : list (string * ptr)) (d : PDFDictionary) :
  let d' := foldl (fun d kv => PDFDictionary_addValue kv.1 kv.2 d) d kvs in
  _order d' = _order d ++ kvs.*1
  /\ forall key, _value d' !! key
       = match _value d !! key with
         | Some p => Some p
         | None => firstAdded kvs key
         end.
Proof.
  revert d. induction kvs as [|[k p] kvs IH]; intros d; simpl.
  - split; [by rewrite app_nil_r|]. intros key. by destruct (_ !! key).
  - destruct (IH (PDFDictionary_addValue k p d)) as [Ho Hv].
    split; [by rewrite Ho; simpl; rewrite <- app_assoc|].
    intros key. rewrite Hv. simpl. rewrite lookup_map_insert.
    destruct (_value d !! key); [done|].
    destruct (String.eqb_spec k key) as [->|Hne].
    + by rewrite decide_True.
    + by rewrite decide_False.
Qed.

(** X6: a dictionary filled by [addValue] lists every key added, in the
    order of the calls and as often as it was added, and gives for a key the
    pointer of the first call with that key: a later [addValue] of the same
    key adds an entry that reads the first pointer.  An index within the
    entries reads the key and that pointer; the index [count()] is a read
    past the end; a larger one returns the null pointer and leaves [o_key]. *)
Theorem PDFDictionary_addValue_value (kvs : list (string * ptr)) (i : nat)
  (key o_key : string) :
  let d := PDFDictionary_of kvs in
  PDFDictionary_count d = length kvs
  /\ PDFDictionary_value d key = firstAdded kvs key
  /\ PDFDictionary_value_at d i o_key
     = match kvs !! i with
       | Some (k, _) => Ok (firstAdded kvs k, k)
       | None => if (length kvs <? i)%nat then Ok (None, o_key) else Fault
       end.
Proof.
  destruct (foldl_addValue kvs PDFDictionary_new) as [Ho Hv].
  fold (PDFDictionary_of kvs) in Ho, Hv. simpl in Ho.
  assert (PDFDictionary_count (PDFDictionary_of kvs) = length kvs) as Hc.
  { unfold PDFDictionary_count. by rewrite Ho, length_fmap. }
  assert (forall k, PDFDictionary_value (PDFDictionary_of kvs) k
                    = firstAdded kvs k) as Hval.
  { intros k. unfold PDFDictionary_value. rewrite Hv.
    simpl. by rewrite lookup_empty. }
  split; [exact Hc|]. split; [apply Hval|].
  unfold PDFDictionary_value_at. rewrite Hc, Ho, list_lookup_fmap.
  destruct (kvs !! i) as [[k p]|] eqn:Hi.
  - apply lookup_lt_Some in Hi.
    destruct (Nat.ltb_spec (length kvs) i); [lia|].
    simpl. by rewrite Hval.
  - by destruct (length kvs <? i)%nat.
Qed.

(** ** The offsets of the cross-reference table *)

Lemma substring_0_r (n : nat) (s : string) : substring n 0 s = EmptyString.
Proof.
  revert n. induction s as [|c s IH]; intros [|n]; try done. simpl. apply IH.
Qed.

Lemma substring_app_l (s t : string) (off n : nat) :
  String.length (substring off n s) = n ->
  substring off n (s +:+ t) = substring off n s.
Proof.
  revert off n. induction s as [|c s IH]; intros off n Hlen.
  - assert (n = O) as ->.
    { destruct off, n; simpl in Hlen; lia. }
    by rewrite !substring_0_r.
  - rewrite string_app_cons. destruct off as [|off].
    + destruct n as [|n]; [done|]. simpl in *. f_equal. apply IH. lia.
    + simpl in *. by apply IH.
Qed.

Lemma substring_app_at (pre m post : string) :
  substring (String.length pre) (String.length m) (pre +:+ m +:+ post) = m.
Proof.
  induction pre as [|c pre IH]; [|by rewrite string_app_cons].
  change (EmptyString +:+ m +:+ post) with (m +:+ post).
  rewrite substring_app_l; rewrite substring_whole; done.
Qed.

Lemma objectAt_app (s t : string) (i : Z) (off : nat) :
  objectAt s i off -> objectAt (s +:+ t) i off.
Proof.
  unfold objectAt. intros H. rewrite substring_app_l; [done|]. by rewrite H.
Qed.

Lemma writeIndirect_objectAt (seekable : bool)
  (fuel : nat) (objectList : list PDFObject)
  (acc acc' : string * gmap Z nat) (current : PDFObject) :
  (forall i off, acc.2 !! i = Some off ->
                 if seekable then objectAt acc.1 i off else off = 0%nat) ->
  writeIndirect seekable fuel objectList acc current = Ok acc' ->
  forall i off, acc'.2 !! i = Some off ->
                if seekable then objectAt acc'.1 i off else off = 0%nat.
Proof.
  intros Hacc. unfold writeIndirect. destruct (indirect current).
  - destruct (WriteObject fuel objectList current) as [w| |]; try done.
    simpl. intros H. apply (inj Ok) in H as <-. cbn [fst snd].
    intros i off. rewrite lookup_map_insert.
    destruct (acc.2 !! i) as [off'|] eqn:Hi.
    + intros [= <-]. specialize (Hacc _ _ Hi).
      destruct seekable; [by apply objectAt_app|done].
    + destruct (decide (getID current = i)) as [<-|]; [|done].
      intros [= <-]. destruct seekable; [|done].
      unfold offset, objectAt.
      rewrite <- (substring_app_at acc.1 (objHeader (getID current))
                    (w +:+ LF +:+ "endobj" +:+ LF)) at 2.
      unfold objHeader. by rewrite !string_app_assoc.
  - intros H. by apply (inj Ok) in H as <-.
Qed.

(** X7: the table [SavePDF] writes has, after the line of entry 0, one
    line for each identifier 1, 2, ..., K of the K indirect objects.  On a
    stream that can seek, the offset of the line of an identifier is the
    place of the output where that identifier and [0 obj] are written; on a
    stream that cannot, where [tellp()] is -1 every time, the offset of
    every line is 0. *)
Theorem SavePDF_xref_offsets (seekable : bool)
  (fuel : nat) (majorVersion minorVersion : Z)
  (objectList : list PDFObject) (i_root i_info : ptr) (out : string) :
  Z.of_nat (countIndirect objectList) < 2 ^ 31 ->
  SavePDF seekable fuel majorVersion minorVersion objectList i_root i_info
  = Ok out ->
  exists (body : string) (offsets : list nat) (trailer : string),
    out = body
          +:+ ("xref" +:+ LF
               +:+ "0 " +:+ show_size (countIndirect objectList) +:+ LF
               +:+ join (("0000000000 00000 n " +:+ LF)
                           :: (xrefEntry <$> offsets)))
          +:+ trailer
    /\ length offsets = countIndirect objectList
    /\ forall (j : nat) (off : nat),
         offsets !! j = Some off ->
         if seekable then objectAt out (Z.of_nat j + 1) off
         else off = 0%nat.
Proof.
  intros Hmax Hsave. unfold SavePDF in Hsave.
  destruct (fold_result locateContents _ _) as [marked| |] eqn:Hmark;
    try done.
  simpl in Hsave.
  destruct (fold_result (writeIndirect seekable fuel marked) marked _)
    as [[body xref]| |] eqn:Hbody; try done.
  simpl in Hsave.
  destruct (marked !! i_root) as [root|]; try done.
  destruct (marked !! i_info) as [info|]; try done.
  simpl in Hsave. apply (inj Ok) in Hsave as <-.
  pose proof (SavePDF_xref_keys _ _ _ _ _ (body, xref) _ Hmax Hmark Hbody)
    as Hkeys.
  cbn [snd] in Hkeys.
  assert (size xref = countIndirect objectList) as Hsize.
  { rewrite <- size_dom, Hkeys.
    rewrite size_list_to_set by apply NoDup_seqZ.
    rewrite length_seqZ. lia. }
  assert (forall i off, xref !! i = Some off ->
            if seekable then objectAt body i off else off = 0%nat) as Hat.
  { refine (fold_result_inv
              (fun acc => forall i off, acc.2 !! i = Some off ->
                 if seekable then objectAt acc.1 i off else off = 0%nat)
              _ _ _ (body, xref) _ _ Hbody); [|done].
    intros acc current acc' Hacc. by apply writeIndirect_objectAt. }
  exists body,
    ((fun i => default 0%nat (xref !! i))
       <$> seqZ 1 (Z.of_nat (countIndirect objectList))),
    (writeTrailer xref root info (offset seekable body)).
  split; [|split].
  - unfold writeXref, xrefLines. rewrite Hsize.
    by rewrite <- list_fmap_compose.
  - rewrite length_fmap, length_seqZ. lia.
  - intros j off Hj.
    assert (if seekable then objectAt body (Z.of_nat j + 1) off
            else off = 0%nat) as Hgoal;
      [|destruct seekable; [by apply objectAt_app|done]].
    rewrite list_lookup_fmap in Hj.
    destruct (seqZ 1 _ !! j) as [i|] eqn:Hi; [|done].
    apply lookup_seqZ in Hi as [-> Hlt].
    assert ((1 + Z.of_nat j) ∈ dom xref) as Hin.
    { rewrite Hkeys, elem_of_list_to_set, elem_of_seqZ. lia. }
    apply elem_of_dom in Hin as [off' Hoff'].
    simpl in Hj. rewrite Hoff' in Hj. simpl in Hj. injection Hj as <-.
    rewrite Z.add_comm. by apply Hat.
Qed.

(** ** The second loop of [SavePDF], more *)

Lemma list_insert_alter {A : Type} (f : A -> A) (l : list A) (p : nat)
  (x : A) :
  l !! p = Some x -> <[p := f x]> l = alter f p l.
Proof.
  revert p. induction l as [|y l IH]; intros [|p] Hp; try done.
  - by injection Hp as ->.
  - simpl. f_equal. by apply IH.
Qed.

Lemma asStream_isStream (o : PDFObject) :
  isStream o = match asStream o with Some _ => true | None => false end.
Proof.
  unfold asStream, isStream, type. by destruct (_sub o).
Qed.

(** One round marks the stream of [textTarget], if there is one. *)
Lemma locateContents_textTarget (l l' : list PDFObject) (it : nat) :
  locateContents l it = Ok l' ->
  l' = match textTarget l it with
       | Some p => alter setOutputAsText p l
       | None => l
       end.
Proof.
  unfold locateContents, textTarget, pageContents, isFunctionType4, deref.
  destruct (l !! it) as [this|] eqn:Hthis; [|done]. simpl.
  destruct (asDictionary this) as [dict|] eqn:Hdict; simpl.
  - destruct (PDFDictionary_value dict "Type") as [p|]; simpl.
    2:{ intros H. apply (inj Ok) in H as <-.
        unfold asDictionary, asStream, isDictionary, isStream, type in *.
        by destruct (_sub this). }
    assert (isFunctionType4 l this = false) as Hfn.
    { unfold isFunctionType4, asDictionary, asStream, isDictionary,
        isStream, type in *. by destruct (_sub this). }
    unfold isFunctionType4 in Hfn.
    destruct (l !! p) as [t|]; [|done]. simpl.
    destruct (asName t) as [type_|]; simpl.
    2:{ intros H. apply (inj Ok) in H as <-. by rewrite Hfn. }
    destruct (String.eqb type_ "Page").
    2:{ intros H. apply (inj Ok) in H as <-. by rewrite Hfn. }
    destruct (PDFDictionary_value dict "Contents") as [pc|]; simpl.
    2:{ intros H. apply (inj Ok) in H as <-. by rewrite Hfn. }
    destruct (l !! pc) as [contents|] eqn:Hpc; [|done]. simpl.
    rewrite asStream_isStream.
    destruct (asStream contents).
    + intros H. apply (inj Ok) in H as <-. by apply list_insert_alter.
    + intros H. apply (inj Ok) in H as <-. by rewrite Hfn.
  - destruct (asStream this) as [stream|].
    2:{ intros H. by apply (inj Ok) in H as <-. }
    destruct (PDFDictionary_value (_dict stream) "FunctionType") as [p|].
    2:{ intros H. by apply (inj Ok) in H as <-. }
    destruct (l !! p) as [obj|]; [|done]. simpl.
    destruct (asNumber obj) as [num|].
    2:{ intros H. by apply (inj Ok) in H as <-. }
    destruct (intValue num =? 4).
    + intros H. apply (inj Ok) in H as <-. by apply list_insert_alter.
    + intros H. by apply (inj Ok) in H as <-.
Qed.


(** What the loop looks at is not what it changes. *)
Lemma sameButText_as (o o' : PDFObject) :
  sameButText o o' ->
  asDictionary o' = asDictionary o /\ asName o' = asName o
  /\ asNumber o' = asNumber o /\ isStream o' = isStream o
  /\ _dict <$> asStream o' = _dict <$> asStream o.
Proof.
  intros [->| ->]; [done|].
  unfold setOutputAsText, asDictionary, asName, asNumber, asStream,
    isDictionary, isName, isNumber, isStream, type.
  by destruct (_sub o) eqn:Hsub; simpl; rewrite ?Hsub.
Qed.

Lemma sameButText_lookup (l l' : list PDFObject) (p : nat) :
  Forall2 sameButText l l' ->
  match l !! p, l' !! p with
  | Some o, Some o' => sameButText o o'
  | None, None => True
  | _, _ => False
  end.
Proof.
  intros Hl. destruct (l !! p) as [o|] eqn:Hp.
  - destruct (Forall2_lookup_l _ _ _ _ _ Hl Hp) as (o' & -> & Ho). done.
  - destruct (l' !! p) as [o'|] eqn:Hp'; [|done].
    destruct (Forall2_lookup_r _ _ _ _ _ Hl Hp') as (o & Ho & _). congruence.
Qed.

Lemma pageContents_sameButText (l l' : list PDFObject) (o o' : PDFObject) :
  Forall2 sameButText l l' -> sameButText o o' ->
  pageContents l' o' = pageContents l o.
Proof.
  intros Hl Ho. unfold pageContents.
  destruct (sameButText_as _ _ Ho) as (-> & _).
  destruct (asDictionary o) as [dict|]; [|done]. simpl.
  destruct (PDFDictionary_value dict "Type") as [p|]; [|done]. simpl.
  pose proof (sameButText_lookup _ _ p Hl) as Hp.
  destruct (l !! p) as [t|], (l' !! p) as [t'|]; try done. simpl.
  destruct (sameButText_as _ _ Hp) as (_ & -> & _).
  destruct (asName t) as [type_|]; [|done]. simpl.
  destruct (String.eqb type_ "Page"); [|done].
  destruct (PDFDictionary_value dict "Contents") as [pc|]; [|done]. simpl.
  pose proof (sameButText_lookup _ _ pc Hl) as Hpc.
  destruct (l !! pc) as [c|], (l' !! pc) as [c'|]; try done. simpl.
  by destruct (sameButText_as _ _ Hpc) as (_ & _ & _ & -> & _).
Qed.

Lemma isFunctionType4_sameButText (l l' : list PDFObject)
  (o o' : PDFObject) :
  Forall2 sameButText l l' -> sameButText o o' ->
  isFunctionType4 l' o' = isFunctionType4 l o.
Proof.
  intros Hl Ho. unfold isFunctionType4.
  destruct (sameButText_as _ _ Ho) as (_ & _ & _ & _ & Hdict).
  destruct (asStream o) as [st|], (asStream o') as [st'|]; try done.
  simpl in Hdict. injection Hdict as ->.
  destruct (PDFDictionary_value (_dict st) "FunctionType") as [p|]; [|done].
  pose proof (sameButText_lookup _ _ p Hl) as Hp.
  destruct (l !! p) as [n|], (l' !! p) as [n'|]; try done. simpl.
  by destruct (sameButText_as _ _ Hp) as (_ & _ & -> & _).
Qed.

Lemma textTarget_sameButText (l l' : list PDFObject) (it : nat) :
  Forall2 sameButText l l' -> textTarget l' it = textTarget l it.
Proof.
  intros Hl. unfold textTarget.
  pose proof (sameButText_lookup _ _ it Hl) as Hit.
  destruct (l !! it) as [o|], (l' !! it) as [o'|]; try done. simpl.
  by rewrite (pageContents_sameButText l l' o o'),
    (isFunctionType4_sameButText l l' o o').
Qed.

(** The rounds [its] of the loop over [l], begun at [l0]. *)
Lemma fold_locateContents_textTarget (its : list nat)
  (l l0 l' : list PDFObject) :
  Forall2 sameButText l l0 ->
  fold_result locateContents its l0 = Ok l' ->
  forall p,
    l' !! p
    = (if existsb (fun it => bool_decide (textTarget l it = Some p)) its
       then setOutputAsText else id) <$> l0 !! p.
Proof.
  revert l0. induction its as [|it its IH]; intros l0 Hl Hfold p.
  - apply (inj Ok) in Hfold as <-. simpl. by destruct (l0 !! p).
  - simpl in Hfold.
    destruct (locateContents l0 it) as [l1| |] eqn:H1; try done.
    simpl in Hfold.
    pose proof (locateContents_sameButText _ _ _ H1) as H01.
    rewrite (IH l1 (sameButText_trans _ _ _ Hl H01) Hfold p).
    apply locateContents_textTarget in H1.
    rewrite (textTarget_sameButText l l0 it Hl) in H1. simpl.
    destruct (textTarget l it) as [q|] eqn:Hq.
    + subst l1. destruct (decide (q = p)) as [->|Hne].
      * rewrite bool_decide_true by done. simpl.
        rewrite list_lookup_alter_eq. destruct (l0 !! p) as [o|]; [|done].
        simpl. destruct (existsb _ its); [|done].
        by rewrite setOutputAsText_twice.
      * rewrite bool_decide_false by congruence. simpl.
        by rewrite list_lookup_alter_ne.
    + subst l1. by rewrite bool_decide_false.
Qed.

(** X8: the second loop of [SavePDF] sets [outputAsText] of the stream a
    dictionary with the [Type] [Page] has as [Contents], and of a stream
    whose [FunctionType] is 4, and changes nothing else: a [Contents] that
    is an array of streams is left as it is. *)
Theorem SavePDF_locateContents (objectList marked : list PDFObject) :
  fold_result locateContents (seq 0 (length objectList)) objectList
  = Ok marked ->
  marked
  = imap (fun p o => if textMarked objectList p then setOutputAsText o
                     else o)
      objectList.
Proof.
  intros Hfold. apply list_eq. intros p.
  rewrite (fold_locateContents_textTarget _ objectList objectList marked
             (sameButText_refl objectList) Hfold p).
  rewrite list_lookup_imap. fold (textMarked objectList p).
  by destruct (textMarked objectList p), (objectList !! p).
Qed.

(** ** The builder keeps its pointers inside the list *)

Lemma dictOK_mono (n n' : nat) (d : PDFDictionary) :
  (n <= n')%nat -> dictOK n d -> dictOK n' d.
Proof.
  intros Hn [Hkeys Hptrs]. split; [done|].
  eapply map_Forall_impl; [exact Hptrs|]. simpl. intros _ p Hp. lia.
Qed.

Lemma ptrsOK_mono (n n' : nat) (o : PDFObject) :
  (n <= n')%nat -> ptrsOK n o -> ptrsOK n' o.
Proof.
  intros Hn. unfold ptrsOK. destruct (_sub o); try done.
  - intros Hv. eapply Forall_impl; [exact Hv|]. simpl. intros p Hp. lia.
  - by apply dictOK_mono.
  - by apply dictOK_mono.
Qed.

Lemma dictOK_new (n : nat) : dictOK n PDFDictionary_new.
Proof. split; [constructor|]. apply map_Forall_empty. Qed.

Lemma dictOK_addValue (n : nat) (key : string) (p : ptr)
  (d : PDFDictionary) :
  (p < n)%nat -> dictOK n d -> dictOK n (PDFDictionary_addValue key p d).
Proof.
  intros Hp [Hkeys Hptrs]. split; simpl.
  - apply Forall_app_2.
    + eapply Forall_impl; [exact Hkeys|]. intros k [q Hq].
      rewrite lookup_map_insert, Hq. by eexists.
    + constructor; [|constructor]. rewrite lookup_map_insert.
      destruct (_value d !! key); [by eexists|].
      rewrite decide_True by done. by eexists.
  - intros k q. rewrite lookup_map_insert.
    destruct (_value d !! k) as [q'|] eqn:Hk.
    + intros [= <-]. by apply (Hptrs k).
    + destruct (decide (key = k)); [|done]. by intros [= <-].
Qed.

Lemma heapOK_app (l : list PDFObject) (o : PDFObject) :
  heapOK l -> ptrsOK (S (length l)) o -> heapOK (l ++ [o]).
Proof.
  intros Hl Ho. unfold heapOK. rewrite length_app, Nat.add_1_r.
  apply Forall_app_2; [|by constructor].
  eapply Forall_impl; [exact Hl|]. intros o'. apply ptrsOK_mono. lia.
Qed.

Lemma heapOK_alter (f : PDFObject -> PDFObject) (p : nat)
  (l : list PDFObject) :
  (forall o, ptrsOK (length l) o -> ptrsOK (length l) (f o)) ->
  heapOK l -> heapOK (alter f p l).
Proof.
  intros Hf Hl. unfold heapOK. rewrite length_alter.
  apply Forall_alter; [done|]. intros o _. apply Hf.
Qed.

Lemma contextOK_new : contextOK Context_new.
Proof. split; [constructor|]. apply map_Forall_empty. Qed.

Lemma contextOK_incAt (p : ptr) (ctx : Context) :
  contextOK ctx -> contextOK (incAt p ctx).
Proof.
  intros [Hheap Hvis]. split; simpl.
  - by apply heapOK_alter.
  - by rewrite length_alter.
Qed.

Lemma contextOK_register (id : PDFIdentifier) (o : PDFObject)
  (ctx : Context) :
  ptrsOK (S (length (objectList ctx))) o ->
  contextOK ctx -> contextOK (register id o ctx).
Proof.
  intros Ho [Hheap Hvis]. split; simpl.
  - by apply heapOK_app.
  - rewrite length_app, Nat.add_1_r. intros k q.
    rewrite lookup_map_insert.
    destruct (visited ctx !! k) as [q'|] eqn:Hk.
    + intros [= <-]. specialize (Hvis k q' Hk). simpl in Hvis. lia.
    + destruct (decide (id = k)); [|done]. intros [= <-]. lia.
Qed.

Lemma contextOK_dictAddValue (key : string) (found p : ptr)
  (ctx : Context) :
  (found < length (objectList ctx))%nat ->
  contextOK ctx -> contextOK (storeAt (dictAddValue key found) p ctx).
Proof.
  intros Hfound [Hheap Hvis]. split; simpl.
  - apply heapOK_alter; [|done]. intros o. unfold ptrsOK, dictAddValue.
    destruct (_sub o) eqn:Hsub; simpl; rewrite ?Hsub; try done.
    by apply dictOK_addValue.
  - by rewrite length_alter.
Qed.

Lemma contextOK_arrayAddValue (found p : ptr) (ctx : Context) :
  (found < length (objectList ctx))%nat ->
  contextOK ctx -> contextOK (storeAt (arrayAddValue found) p ctx).
Proof.
  intros Hfound [Hheap Hvis]. split; simpl.
  - apply heapOK_alter; [|done]. intros o. unfold ptrsOK, arrayAddValue.
    destruct (_sub o) eqn:Hsub; simpl; rewrite ?Hsub; try done.
    intros Hv. apply Forall_app_2; [done|]. by constructor.
  - by rewrite length_alter.
Qed.


(** ** The builder appends and counts, nothing else *)

Lemma grows_refl (ctx : Context) : grows ctx ctx.
Proof.
  split; [done|]. split; [by eauto|]. split; [done|]. congruence.
Qed.

Lemma grows_trans (ctx1 ctx2 ctx3 : Context) :
  grows ctx1 ctx2 -> grows ctx2 ctx3 -> grows ctx1 ctx3.
Proof.
  intros (Hlen12 & Hobj12 & Hvis12 & Hnew12) (Hlen23 & Hobj23 & Hvis23 & Hnew23).
  split; [lia|]. split; [|split].
  - intros p o Hp.
    destruct (Hobj12 p o Hp) as (o2 & Hp2 & Hsub2 & Hid2).
    destruct (Hobj23 p o2 Hp2) as (o3 & Hp3 & Hsub3 & Hid3).
    exists o3. split; [done|]. split; congruence.
  - by etrans.
  - intros id q Hnone Hq.
    destruct (visited ctx2 !! id) as [q2|] eqn:H2.
    + assert (visited ctx3 !! id = Some q2) as Hq2
        by by eapply lookup_weaken.
      assert (q2 = q) as -> by congruence. by eapply Hnew12.
    + specialize (Hnew23 id q H2 Hq). lia.
Qed.

Lemma grows_alter (f : PDFObject -> PDFObject) (p : ptr)
  (ctx ctx' : Context) :
  (forall o, _sub (f o) = _sub o /\ _id (f o) = _id o)
  \/ (length (objectList ctx) <= p)%nat ->
  grows ctx ctx' -> grows ctx (storeAt f p ctx').
Proof.
  intros Hf (Hlen & Hobj & Hvis & Hnew).
  split; [by simpl; rewrite length_alter|]. split; [|done].
  intros q o Hq. simpl.
  destruct (Hobj q o Hq) as (o' & Hq' & Hsub & Hid).
  destruct (decide (p = q)) as [->|Hne].
  - rewrite list_lookup_alter_eq, Hq'. simpl. eexists. split; [done|].
    destruct Hf as [Hf|Hp].
    + destruct (Hf o') as [-> ->]. done.
    + apply lookup_lt_Some in Hq. lia.
  - rewrite list_lookup_alter_ne by done. by exists o'.
Qed.

Lemma grows_incAt (p : ptr) (ctx : Context) : grows ctx (incAt p ctx).
Proof.
  apply (grows_alter inc p ctx ctx); [by left|apply grows_refl].
Qed.

Lemma map_insert_subseteq `{Countable K} {V : Type} (k : K) (v : V)
  (m : gmap K V) :
  m ⊆ map_insert k v m.
Proof.
  unfold map_insert. destruct (m !! k) eqn:Hk; [done|].
  by apply insert_subseteq.
Qed.

Lemma grows_register (id : PDFIdentifier) (o : PDFObject) (ctx : Context) :
  grows ctx (register id o ctx).
Proof.
  split; [simpl; rewrite length_app; lia|]. split; [|split].
  - intros p o' Hp. exists o'. split; [|done]. simpl.
    by apply lookup_app_l_Some.
  - apply map_insert_subseteq.
  - intros k q Hk. simpl. rewrite lookup_map_insert, Hk.
    destruct (decide (id = k)); [|done]. intros [= <-]. lia.
Qed.

Lemma register_lookup (id : PDFIdentifier) (o : PDFObject) (ctx : Context) :
  is_Some (visited (register id o ctx) !! id).
Proof.
  simpl. rewrite lookup_map_insert.
  destruct (visited ctx !! id); [by eexists|].
  rewrite decide_True by done. by eexists.
Qed.

Lemma grows_lookup (ctx ctx' : Context) (id : PDFIdentifier) :
  grows ctx ctx' -> is_Some (visited ctx !! id) ->
  is_Some (visited ctx' !! id).
Proof.
  intros (_ & _ & Hvis & _) [q Hq]. exists q. by eapply lookup_weaken.
Qed.


(** ** Every visit that returns *)

Section Visits.

Variable doc : CGPDFDocument.

Lemma visitScalar_visitedFrom (read : CGPDFObject -> option PDFValue)
  (obj : PDFIdentifier) (ctx ctx' : Context) :
  (forall o v n, read o = Some v -> ptrsOK n (new v)) ->
  visitScalar doc read obj ctx = Ok ctx' -> visitedFrom obj ctx ctx'.
Proof.
  intros Hread. unfold visitScalar.
  destruct (visited ctx !! obj) as [p|] eqn:Hvis.
  - intros H. apply (inj Ok) in H as <-.
    split; [apply contextOK_incAt|]. split; [apply grows_incAt|].
    simpl. by eexists.
  - destruct (doc !! obj) as [o|]; simpl; [|done].
    destruct (read o) as [v|] eqn:Hv; [|done].
    intros H. apply (inj Ok) in H as <-.
    split; [apply contextOK_register; by eapply Hread|].
    split; [apply grows_register|apply register_lookup].
Qed.

Variable V : PDFIdentifier -> Context -> result Context.
Hypothesis V_visitedFrom : forall value ctx ctx',
  V value ctx = Ok ctx' -> visitedFrom value ctx ctx'.

Lemma visitChild_visitedFrom (value : PDFIdentifier) (ctx ctx' : Context)
  (found : ptr) :
  visitChild V value ctx = Ok (found, ctx') ->
  (contextOK ctx ->
   contextOK ctx' /\ (found < length (objectList ctx'))%nat)
  /\ grows ctx ctx'
  /\ visited ctx' !! value = Some found.
Proof.
  unfold visitChild.
  destruct (V value ctx) as [c| |] eqn:HV; try done. simpl.
  destruct (visited c !! value) as [q|] eqn:Hq; [|done].
  intros H. apply (inj Ok) in H. injection H as <- <-.
  destruct (V_visitedFrom _ _ _ HV) as (HOK & Hgrows & _).
  split; [|done]. intros Hctx. specialize (HOK Hctx).
  split; [done|]. destruct HOK as [_ Hvis]. by apply (Hvis value q).
Qed.

Lemma VisitDict_visitedFrom (dict : PDFIdentifier) (ctx ctx' : Context)
  (p : ptr) :
  VisitDict doc V dict ctx = Ok (p, ctx') ->
  visitedFrom dict ctx ctx' /\ visited ctx' !! dict = Some p.
Proof.
  unfold VisitDict.
  destruct (visited ctx !! dict) as [q|] eqn:Hvis.
  { intros H. apply (inj Ok) in H. injection H as <- <-.
    split; [|done].
    split; [apply contextOK_incAt|]. split; [apply grows_incAt|].
    simpl. by eexists. }
  destruct (doc !! dict) as [[]|]; try done.
  destruct (fold_result _ _ _) as [c| |] eqn:Hfold; try done.
  intros H. apply (inj Ok) in H. injection H as <- <-.
  cut ((contextOK ctx -> contextOK c) /\ grows ctx c
       /\ visited c !! dict = Some (length (objectList ctx))).
  { intros (HOK & Hgrows & Hdict). split; [|done].
    split; [done|]. split; [done|]. by eexists. }
  revert Hfold.
  apply (fold_result_inv
           (fun c => (contextOK ctx -> contextOK c) /\ grows ctx c
                     /\ visited c !! dict = Some (length (objectList ctx)))).
  - intros c1 it c2 (HOK1 & Hgrows1 & Hdict1).
    destruct (CGPDFDictionaryGetObject entries it) as [value|].
    2:{ intros H. by apply (inj Ok) in H as <-. }
    destruct (visitChild V value c1) as [[found c3]| |] eqn:Hchild;
      try done.
    intros H. apply (inj Ok) in H as <-.
    destruct (visitChild_visitedFrom _ _ _ _ Hchild)
      as (HOK3 & Hgrows3 & Hfound).
    split; [|split].
    + intros Hctx. destruct (HOK3 (HOK1 Hctx)) as [Hc3 Hlt].
      by apply (contextOK_dictAddValue it found _ c3).
    + apply (grows_alter _ _ ctx c3); [by right|].
      by eapply grows_trans.
    + simpl. destruct Hgrows3 as (_ & _ & Hsub & _).
      by eapply lookup_weaken.
  - split; [|split].
    + apply contextOK_register. apply dictOK_new.
    + apply grows_register.
    + by rewrite register_visited, lookup_insert_eq.
Qed.

Lemma VisitArray_visitedFrom (array : PDFIdentifier) (ctx ctx' : Context) :
  VisitArray doc V array ctx = Ok ctx' -> visitedFrom array ctx ctx'.
Proof.
  unfold VisitArray.
  destruct (visited ctx !! array) as [q|] eqn:Hvis.
  { intros H. apply (inj Ok) in H as <-.
    split; [apply contextOK_incAt|]. split; [apply grows_incAt|].
    simpl. by eexists. }
  destruct (doc !! array) as [[]|]; try done.
  intros Hfold.
  cut ((contextOK ctx -> contextOK ctx') /\ grows ctx ctx'
       /\ visited ctx' !! array = Some (length (objectList ctx))).
  { intros (HOK & Hgrows & Harray).
    split; [done|]. split; [done|]. by eexists. }
  revert Hfold.
  apply (fold_result_inv
           (fun c => (contextOK ctx -> contextOK c) /\ grows ctx c
                     /\ visited c !! array = Some (length (objectList ctx)))).
  - intros c1 value c2 (HOK1 & Hgrows1 & Harray1).
    destruct (visitChild V value c1) as [[found c3]| |] eqn:Hchild;
      try done.
    intros H. apply (inj Ok) in H as <-.
    destruct (visitChild_visitedFrom _ _ _ _ Hchild)
      as (HOK3 & Hgrows3 & Hfound).
    split; [|split].
    + intros Hctx. destruct (HOK3 (HOK1 Hctx)) as [Hc3 Hlt].
      by apply (contextOK_arrayAddValue found _ c3).
    + apply (grows_alter _ _ ctx c3); [by right|].
      by eapply grows_trans.
    + simpl. destruct Hgrows3 as (_ & _ & Hsub & _).
      by eapply lookup_weaken.
  - split; [|split].
    + apply contextOK_register. constructor.
    + apply grows_register.
    + by rewrite register_visited, lookup_insert_eq.
Qed.


Lemma VisitStream_visitedFrom (stream : PDFIdentifier)
  (ctx ctx' : Context) :
  VisitStream doc V stream ctx = Ok ctx' -> visitedFrom stream ctx ctx'.
Proof.
  unfold VisitStream.
  destruct (visited ctx !! stream) as [q|] eqn:Hvis.
  { intros H. apply (inj Ok) in H as <-.
    split; [apply contextOK_incAt|]. split; [apply grows_incAt|].
    simpl. by eexists. }
  destruct (doc !! stream) as [[]|]; try done.
  destruct (fold_result _ _ _) as [[newDict c]| |] eqn:Hfold; try done.
  intros H. apply (inj Ok) in H as <-.
  cut ((contextOK ctx ->
        contextOK c /\ dictOK (length (objectList c)) newDict)
       /\ grows ctx c).
  { intros (HOK & Hgrows). split; [|split].
    - intros Hctx. destruct (HOK Hctx) as [Hc HnewDict].
      apply contextOK_register; [|done].
      apply (dictOK_mono (length (objectList c))); [lia|done].
    - eapply grows_trans; [exact Hgrows|apply grows_register].
    - apply register_lookup. }
  revert Hfold.
  apply (fold_result_inv
           (fun acc => (contextOK ctx ->
                        contextOK acc.2
                        /\ dictOK (length (objectList acc.2)) acc.1)
                       /\ grows ctx acc.2)
           _ _ (PDFDictionary_new, ctx) (newDict, c)).
  - intros acc it acc' (HOK1 & Hgrows1).
    destruct (CGPDFDictionaryGetObject entries it) as [value|].
    2:{ intros H. by apply (inj Ok) in H as <-. }
    destruct (visitChild V value acc.2) as [[found c3]| |] eqn:Hchild;
      try done.
    intros H. apply (inj Ok) in H as <-. cbn [fst snd].
    destruct (visitChild_visitedFrom _ _ _ _ Hchild)
      as (HOK3 & Hgrows3 & Hfound).
    split; [|by eapply grows_trans].
    intros Hctx. destruct (HOK1 Hctx) as [Hc1 Hdict1].
    destruct (HOK3 Hc1) as [Hc3 Hlt]. split; [done|].
    apply dictOK_addValue; [done|].
    apply (dictOK_mono (length (objectList acc.2))); [|done].
    by destruct Hgrows3.
  - split; [|apply grows_refl]. intros Hctx. split; [done|].
    apply dictOK_new.
Qed.

End Visits.

Lemma VisitObject_visitedFrom (doc : CGPDFDocument) (fuel : nat)
  (obj : PDFIdentifier) (ctx ctx' : Context) :
  VisitObject doc fuel obj ctx = Ok ctx' -> visitedFrom obj ctx ctx'.
Proof.
  revert obj ctx ctx'.
  induction fuel as [|fuel IH]; intros obj ctx ctx'; [done|].
  simpl. destruct (doc !! obj) as [o|]; [|done].
  destruct (visited ctx !! obj) as [p|] eqn:Hvis.
  { intros H. apply (inj Ok) in H as <-.
    split; [apply contextOK_incAt|]. split; [apply grows_incAt|].
    simpl. by eexists. }
  destruct o.
  - apply visitScalar_visitedFrom. by intros o' w n [= <-].
  - apply visitScalar_visitedFrom.
    intros o' w n. by destruct o'; intros [= <-].
  - apply visitScalar_visitedFrom.
    intros o' w n. by destruct o'; intros [= <-].
  - apply visitScalar_visitedFrom.
    intros o' w n. by destruct o'; intros [= <-].
  - apply visitScalar_visitedFrom.
    intros o' w n. by destruct o'; intros [= <-].
  - apply visitScalar_visitedFrom.
    intros o' w n. by destruct o'; intros [= <-].
  - by apply VisitArray_visitedFrom.
  - destruct (VisitDict doc (VisitObject doc fuel) obj ctx)
      as [[p c]| |] eqn:Hdict; try done.
    intros H. apply (inj Ok) in H as <-.
    by destruct (VisitDict_visitedFrom doc _ IH _ _ _ _ Hdict).
  - by apply VisitStream_visitedFrom.
Qed.


(** X9: the builder stores no pointer that leaves the list.  From a
    context whose pointers are inside its list (the empty one is), a visit
    of a dictionary that returns leaves such a context, and the pointer it
    returns is inside the list too. *)
Theorem VisitDict_contextOK (doc : CGPDFDocument) (fuel : nat)
  (dict : PDFIdentifier) (ctx ctx' : Context) (p : ptr) :
  contextOK ctx ->
  VisitDict doc (VisitObject doc fuel) dict ctx = Ok (p, ctx') ->
  contextOK ctx' /\ (p < length (objectList ctx'))%nat.
Proof.
  intros Hctx Hvisit.
  destruct (VisitDict_visitedFrom doc _ (VisitObject_visitedFrom doc fuel)
              _ _ _ _ Hvisit) as ((HOK & _ & _) & Hp).
  specialize (HOK Hctx). split; [done|].
  destruct HOK as [_ Hvis]. by apply (Hvis dict p).
Qed.

(** X10: a visit only appends objects and counts references.  An object
    of the list keeps its place, its value and its identifier, a node
    already visited keeps its pointer, a node visited for the first time
    gets a pointer to an appended object, and the pointer returned is the
    one recorded for the dictionary. *)
Theorem VisitDict_grows (doc : CGPDFDocument) (fuel : nat)
  (dict : PDFIdentifier) (ctx ctx' : Context) (p : ptr) :
  VisitDict doc (VisitObject doc fuel) dict ctx = Ok (p, ctx') ->
  grows ctx ctx' /\ visited ctx' !! dict = Some p.
Proof.
  intros Hvisit.
  destruct (VisitDict_visitedFrom doc _ (VisitObject_visitedFrom doc fuel)
              _ _ _ _ Hvisit) as ((_ & Hgrows & _) & Hp).
  by split.
Qed.

(** X11: the [assert] after [VisitObject( value, ctx )] holds: when the
    visit of a child returns, the child is in [visited], whatever its type
    and whether or not it had been visited. *)
Theorem visitChild_found (doc : CGPDFDocument) (fuel : nat)
  (value : PDFIdentifier) (ctx ctx' : Context) :
  VisitObject doc fuel value ctx = Ok ctx' ->
  exists found, visitChild (VisitObject doc fuel) value ctx = Ok (found, ctx').
Proof.
  intros Hvisit.
  destruct (VisitObject_visitedFrom doc fuel _ _ _ Hvisit)
    as (_ & _ & [found Hfound]).
  exists found. by apply visitChild_Ok.
Qed.

(** ** Documents the reader knows every node of *)

Lemma fold_result_no_Fault {A B : Type} (f : B -> A -> result B)
  (l : list A) (b : B) :
  (forall b x, x ∈ l -> f b x <> Fault) -> fold_result f l b <> Fault.
Proof.
  revert b. induction l as [|x l IH]; intros b Hf; [done|]. simpl.
  destruct (f b x) as [b'| |] eqn:Hx; simpl; [|by destruct (Hf b x); [left|]|done].
  apply IH. intros b1 y Hy. apply Hf. by right.
Qed.

Section NoFault.

Variable doc : CGPDFDocument.
Hypothesis doc_wellFormed : wellFormed doc.

Variable V : PDFIdentifier -> Context -> result Context.
Hypothesis V_visitedFrom : forall value ctx ctx',
  V value ctx = Ok ctx' -> visitedFrom value ctx ctx'.
Hypothesis V_no_Fault : forall value ctx,
  value ∈ dom doc -> V value ctx <> Fault.

Lemma visitChild_no_Fault (value : PDFIdentifier) (ctx : Context) :
  value ∈ dom doc -> visitChild V value ctx <> Fault.
Proof.
  intros Hvalue. unfold visitChild.
  destruct (V value ctx) as [c| |] eqn:HV; simpl; [| |done].
  - destruct (V_visitedFrom _ _ _ HV) as (_ & _ & [found ->]). done.
  - by destruct (V_no_Fault value ctx).
Qed.

Lemma VisitDict_no_Fault (dict : PDFIdentifier)
  (entries : list (string * PDFIdentifier)) (ctx : Context) :
  doc !! dict = Some (kCGPDFObjectTypeDictionary entries) ->
  VisitDict doc V dict ctx <> Fault.
Proof.
  intros Hdoc. unfold VisitDict. destruct (visited ctx !! dict); [done|].
  rewrite Hdoc. cbv zeta.
  destruct (fold_result _ _ _) as [c| |] eqn:Hfold; try done.
  exfalso. revert Hfold. apply fold_result_no_Fault. intros c it _. cbv beta.
  destruct (CGPDFDictionaryGetObject entries it) as [value|] eqn:Hget;
    [|done].
  destruct (visitChild V value c) as [[found c']| |] eqn:Hchild; try done.
  exfalso. revert Hchild. apply visitChild_no_Fault.
  apply (doc_wellFormed dict _ value Hdoc).
  by apply CGPDFDictionaryGetObject_elem in Hget.
Qed.

Lemma VisitArray_no_Fault (array : PDFIdentifier)
  (items : list PDFIdentifier) (ctx : Context) :
  doc !! array = Some (kCGPDFObjectTypeArray items) ->
  VisitArray doc V array ctx <> Fault.
Proof.
  intros Hdoc. unfold VisitArray. destruct (visited ctx !! array); [done|].
  rewrite Hdoc. cbv zeta.
  apply fold_result_no_Fault. intros c value Hvalue. cbv beta.
  destruct (visitChild V value c) as [[found c']| |] eqn:Hchild; try done.
  exfalso. revert Hchild. apply visitChild_no_Fault.
  by apply (doc_wellFormed array _ value Hdoc).
Qed.

Lemma VisitStream_no_Fault (stream : PDFIdentifier)
  (entries : list (string * PDFIdentifier)) (data : CFDataRef)
  (format : CGPDFDataFormat) (ctx : Context) :
  doc !! stream = Some (kCGPDFObjectTypeStream entries data format) ->
  VisitStream doc V stream ctx <> Fault.
Proof.
  intros Hdoc. unfold VisitStream. destruct (visited ctx !! stream); [done|].
  rewrite Hdoc. cbv zeta.
  destruct (fold_result _ _ _) as [[newDict c]| |] eqn:Hfold; try done.
  exfalso. revert Hfold. apply fold_result_no_Fault. intros acc it _. cbv beta.
  destruct (CGPDFDictionaryGetObject entries it) as [value|] eqn:Hget;
    [|done].
  destruct (visitChild V value acc.2) as [[found c']| |] eqn:Hchild;
    try done.
  exfalso. revert Hchild. apply visitChild_no_Fault.
  apply (doc_wellFormed stream _ value Hdoc).
  by apply CGPDFDictionaryGetObject_elem in Hget.
Qed.

End NoFault.

Lemma VisitObject_no_Fault (doc : CGPDFDocument) (fuel : nat)
  (obj : PDFIdentifier) (ctx : Context) :
  wellFormed doc -> obj ∈ dom doc -> VisitObject doc fuel obj ctx <> Fault.
Proof.
  intros Hwf. revert obj ctx.
  induction fuel as [|fuel IH]; intros obj ctx Hobj; [done|].
  apply elem_of_dom in Hobj as [o Ho]. simpl. rewrite Ho.
  destruct (visited ctx !! obj) as [p|] eqn:Hvis; [done|].
  destruct o as [|b|v|v|v|v|items|entries|entries data format];
    try (unfold VisitNull, VisitBoolean, VisitInteger,
      VisitFloat, VisitName, VisitString, visitScalar; by rewrite Hvis, Ho).
  - by apply (VisitArray_no_Fault doc Hwf _
                (VisitObject_visitedFrom doc fuel) IH obj items).
  - pose proof (VisitDict_no_Fault doc Hwf _
                  (VisitObject_visitedFrom doc fuel) IH obj entries ctx Ho).
    by destruct (VisitDict doc (VisitObject doc fuel) obj ctx)
      as [[p c]| |].
  - by apply (VisitStream_no_Fault doc Hwf _
                (VisitObject_visitedFrom doc fuel) IH obj entries data format).
Qed.

(** X12: on a document whose nodes have their children in the document
    the builder fails no [assert] and follows no null pointer, whatever the
    cycles and the streams: the visit of a dictionary returns or goes on. *)
Theorem VisitDict_never_Fault (doc : CGPDFDocument) (fuel : nat)
  (dict : PDFIdentifier) (entries : list (string * PDFIdentifier))
  (ctx : Context) :
  wellFormed doc ->
  doc !! dict = Some (kCGPDFObjectTypeDictionary entries) ->
  VisitDict doc (VisitObject doc fuel) dict ctx <> Fault.
Proof.
  intros Hwf Hdoc.
  apply (VisitDict_no_Fault doc Hwf _ (VisitObject_visitedFrom doc fuel)
           (fun value c => VisitObject_no_Fault doc fuel value c Hwf)
           dict entries ctx Hdoc).
Qed.


(** ** The serializer follows no pointer out of the list *)

Lemma for_each_no_Fault {A : Type} (body : A -> result string)
  (l : list A) :
  (forall x, x ∈ l -> body x <> Fault) -> for_each body l <> Fault.
Proof.
  induction l as [|x l IH]; intros Hbody; [done|]. simpl.
  destruct (body x) as [r| |] eqn:Hx; simpl;
    [|by destruct (Hbody x); [left|]|done].
  destruct (for_each body l) as [rs| |] eqn:Hl; simpl; try done.
  apply IH. intros y Hy. apply Hbody. by right.
Qed.

Section WriteNoFault.

Variable objectList : list PDFObject.
Hypothesis objectList_OK : heapOK objectList.

Variable W : PDFObject -> result string.
Hypothesis W_no_Fault : forall obj,
  ptrsOK (length objectList) obj -> W obj <> Fault.

Lemma deref_heapOK (p : ptr) :
  (p < length objectList)%nat ->
  exists obj, deref objectList (Some p) = Ok obj
              /\ ptrsOK (length objectList) obj.
Proof.
  intros Hp. apply lookup_lt_is_Some in Hp as [obj Hobj].
  exists obj. unfold deref. rewrite Hobj. split; [done|].
  by apply (Forall_lookup_1 _ _ _ _ objectList_OK Hobj).
Qed.

Lemma writeChild_no_Fault (p : ptr) (sep : string) :
  (p < length objectList)%nat ->
  writeChild W objectList (Some p) sep <> Fault.
Proof.
  intros Hp. destruct (deref_heapOK p Hp) as (obj & Hobj & Hptrs).
  unfold writeChild. rewrite Hobj. simpl.
  destruct (indirect obj); [done|].
  pose proof (W_no_Fault obj Hptrs). by destruct (W obj).
Qed.

Lemma dictOK_value_at (dict : PDFDictionary) (i : nat) (o_key : string) :
  dictOK (length objectList) dict ->
  (i < PDFDictionary_count dict)%nat ->
  exists p name,
    PDFDictionary_value_at dict i o_key = Ok (Some p, name)
    /\ (p < length objectList)%nat.
Proof.
  intros [Hkeys Hptrs] Hi. unfold PDFDictionary_value_at.
  destruct (Nat.ltb_spec (PDFDictionary_count dict) i); [lia|].
  apply lookup_lt_is_Some in Hi as [k Hk]. rewrite Hk.
  destruct (Forall_lookup_1 _ _ _ _ Hkeys Hk) as [p Hp].
  exists p, k. unfold PDFDictionary_value. rewrite Hp.
  split; [done|]. by apply (Hptrs k).
Qed.

Lemma writeEntry_no_Fault (dict : PDFDictionary) (i : nat) :
  dictOK (length objectList) dict ->
  (i < PDFDictionary_count dict)%nat ->
  writeEntry W objectList dict i <> Fault.
Proof.
  intros Hdict Hi.
  destruct (dictOK_value_at dict i EmptyString Hdict Hi)
    as (p & name & Hat & Hp).
  unfold writeEntry. rewrite Hat. simpl.
  pose proof (writeChild_no_Fault p LF Hp).
  by destruct (writeChild W objectList (Some p) LF).
Qed.

Lemma writeStreamEntry_no_Fault (dict : PDFDictionary) (convData : ConvData)
  (i : nat) :
  dictOK (length objectList) dict ->
  (i < PDFDictionary_count dict)%nat ->
  writeStreamEntry W objectList dict convData i <> Fault.
Proof.
  intros Hdict Hi.
  destruct (dictOK_value_at dict i EmptyString Hdict Hi)
    as (p & name & Hat & Hp).
  unfold writeStreamEntry. rewrite Hat. simpl.
  destruct (String.eqb name "Filter"); [done|].
  destruct (String.eqb name "Length"); [done|].
  pose proof (writeChild_no_Fault p LF Hp).
  by destruct (writeChild W objectList (Some p) LF).
Qed.

Lemma isMetadata_no_Fault (dict : PDFDictionary) :
  dictOK (length objectList) dict -> isMetadata objectList dict <> Fault.
Proof.
  intros [_ Hptrs]. unfold isMetadata.
  destruct (PDFDictionary_value dict "Type") as [p|] eqn:Hp; [|done].
  destruct (deref_heapOK p) as (t & -> & _); [by apply (Hptrs "Type")|].
  simpl. unfold asName, isName, type. by destruct (_sub t).
Qed.

End WriteNoFault.

Lemma WriteObject_no_Fault (fuel : nat) (objectList : list PDFObject)
  (obj : PDFObject) :
  heapOK objectList -> ptrsOK (length objectList) obj ->
  WriteObject fuel objectList obj <> Fault.
Proof.
  intros Hheap. revert obj.
  induction fuel as [|fuel IH]; intros obj Hobj; [done|].
  simpl. unfold ptrsOK in Hobj.
  destruct (_sub obj) as [b|n|v|v|v|dict|st|]; try done.
  - destruct (for_each _ _) as [body| |] eqn:Hbody; try done.
    exfalso. revert Hbody. apply for_each_no_Fault.
    intros i Hi. apply elem_of_seq in Hi as [_ Hi]. simpl in Hi.
    unfold PDFArray_count in Hi. unfold PDFArray_value.
    apply lookup_lt_is_Some in Hi as [p Hp]. rewrite Hp. simpl.
    apply (writeChild_no_Fault objectList Hheap _ IH).
    by apply (Forall_lookup_1 _ _ _ _ Hobj Hp).
  - destruct (for_each _ _) as [body| |] eqn:Hbody; try done.
    exfalso. revert Hbody. apply for_each_no_Fault.
    intros i Hi. apply elem_of_seq in Hi as [_ Hi]. simpl in Hi.
    by apply (writeEntry_no_Fault objectList Hheap _ IH).
  - pose proof (isMetadata_no_Fault objectList Hheap (_dict st) Hobj)
      as Hmeta.
    destruct (isMetadata objectList (_dict st)) as [metadata| |];
      try done.
    simpl.
    destruct (for_each _ _) as [body| |] eqn:Hbody; try done.
    exfalso. revert Hbody. apply for_each_no_Fault.
    intros i Hi. apply elem_of_seq in Hi as [_ Hi]. simpl in Hi.
    by apply (writeStreamEntry_no_Fault objectList Hheap _ IH).
Qed.


Lemma heapOK_Forall2 (R : PDFObject -> PDFObject -> Prop)
  (l l' : list PDFObject) :
  (forall o o' n, R o o' -> ptrsOK n o -> ptrsOK n o') ->
  Forall2 R l l' -> heapOK l -> heapOK l'.
Proof.
  intros HR Hl Hheap. unfold heapOK in *.
  rewrite <- (Forall2_length _ _ _ Hl).
  apply Forall_lookup_2. intros i o' Ho'.
  destruct (Forall2_lookup_r _ _ _ _ _ Hl Ho') as (o & Ho & Hoo').
  apply (HR o o' _ Hoo'). by apply (Forall_lookup_1 _ _ _ _ Hheap Ho).
Qed.

Lemma heapOK_assignIDs (i : Z) (l : list PDFObject) :
  heapOK l -> heapOK (assignIDs i l).
Proof.
  eapply heapOK_Forall2; [|apply assignIDs_same].
  intros o o' n (_ & Hsub & _). unfold ptrsOK. by rewrite Hsub.
Qed.

Lemma heapOK_sameButText (l l' : list PDFObject) :
  Forall2 sameButText l l' -> heapOK l -> heapOK l'.
Proof.
  apply heapOK_Forall2. intros o o' n [->| ->]; [done|].
  unfold ptrsOK, setOutputAsText.
  by destruct (_sub o) eqn:Hsub; simpl; rewrite ?Hsub.
Qed.

Lemma asDictionary_Some (o : PDFObject) (d : PDFDictionary) :
  asDictionary o = Some d -> _sub o = Dictionary d.
Proof.
  unfold asDictionary, isDictionary, type.
  destruct (_sub o); try done. by intros [= ->].
Qed.

Lemma asStream_Some (o : PDFObject) (st : PDFStream) :
  asStream o = Some st -> _sub o = Stream st.
Proof.
  unfold asStream, isStream, type.
  destruct (_sub o); try done. by intros [= ->].
Qed.

Lemma locateContents_no_Fault (l : list PDFObject) (it : nat) :
  heapOK l -> (it < length l)%nat -> locateContents l it <> Fault.
Proof.
  intros Hheap Hit. unfold locateContents.
  destruct (deref_heapOK l Hheap it Hit) as (this & -> & Hthis).
  rewrite result_bind_Ok.
  unfold ptrsOK in Hthis.
  destruct (asDictionary this) as [dict|] eqn:Hdict.
  - rewrite (asDictionary_Some _ _ Hdict) in Hthis.
    destruct Hthis as [_ Hptrs].
    destruct (PDFDictionary_value dict "Type") as [p|] eqn:Hp; [|done].
    destruct (deref_heapOK l Hheap p) as (obj & -> & _);
      [by apply (Hptrs "Type")|].
    rewrite result_bind_Ok. destruct (asName obj) as [type_|]; [|done].
    destruct (String.eqb type_ "Page"); [|done].
    destruct (PDFDictionary_value dict "Contents") as [pc|] eqn:Hpc;
      [|done].
    destruct (deref_heapOK l Hheap pc) as (contents & -> & _);
      [by apply (Hptrs "Contents")|].
    rewrite result_bind_Ok. by destruct (asStream contents).
  - destruct (asStream this) as [stream|] eqn:Hstream; [|done].
    rewrite (asStream_Some _ _ Hstream) in Hthis.
    destruct Hthis as [_ Hptrs].
    destruct (PDFDictionary_value (_dict stream) "FunctionType")
      as [p|] eqn:Hp; [|done].
    destruct (deref_heapOK l Hheap p) as (obj & -> & _);
      [by apply (Hptrs "FunctionType")|].
    rewrite result_bind_Ok. destruct (asNumber obj) as [num|]; [|done].
    by destruct (intValue num =? 4).
Qed.

Lemma fold_locateContents_no_Fault (its : list nat) (l : list PDFObject) :
  heapOK l -> Forall (fun it => (it < length l)%nat) its ->
  fold_result locateContents its l <> Fault.
Proof.
  revert l. induction its as [|it its IH]; intros l Hheap Hits; [done|].
  apply Forall_cons in Hits as [Hit Hits]. simpl.
  pose proof (locateContents_no_Fault l it Hheap Hit) as Hno.
  destruct (locateContents l it) as [l1| |] eqn:H1; try done. simpl.
  apply locateContents_sameButText in H1.
  apply IH; [by eapply heapOK_sameButText|].
  by rewrite <- (Forall2_length _ _ _ H1).
Qed.

Lemma writeIndirect_no_Fault (seekable : bool)
  (fuel : nat) (l : list PDFObject)
  (acc : string * gmap Z nat) (current : PDFObject) :
  heapOK l -> current ∈ l ->
  writeIndirect seekable fuel l acc current <> Fault.
Proof.
  intros Hheap Hcurrent. unfold writeIndirect.
  destruct (indirect current); [|done].
  pose proof (WriteObject_no_Fault fuel l current Hheap) as Hno.
  destruct (WriteObject fuel l current); try done.
  exfalso. apply Hno; [|done]. unfold heapOK in Hheap.
  by apply (proj1 (Forall_forall _ _) Hheap).
Qed.

(** [SavePDF] follows no pointer out of a list that has none and reads no
    key of a dictionary that is not there. *)
Lemma SavePDF_no_Fault (seekable : bool)
  (fuel : nat) (majorVersion minorVersion : Z)
  (objectList : list PDFObject) (i_root i_info : ptr) :
  heapOK objectList ->
  (i_root < length objectList)%nat -> (i_info < length objectList)%nat ->
  SavePDF seekable fuel majorVersion minorVersion objectList i_root i_info
  <> Fault.
Proof.
  intros Hheap Hroot Hinfo. unfold SavePDF.
  pose proof (heapOK_assignIDs 0 objectList Hheap) as Hheap1.
  pose proof (fold_locateContents_no_Fault
                (seq 0 (length (assignIDs 0 objectList)))
                (assignIDs 0 objectList) Hheap1) as Hno.
  destruct (fold_result locateContents _ _) as [marked| |] eqn:Hmark;
    try done.
  2:{ exfalso. apply Hno; [|done]. apply Forall_forall.
      intros it Hit. apply elem_of_seq in Hit. lia. }
  simpl. clear Hno.
  apply fold_locateContents_sameButText in Hmark.
  pose proof (heapOK_sameButText _ _ Hmark Hheap1) as Hheap2.
  assert (length marked = length objectList) as Hlen.
  { rewrite <- (Forall2_length _ _ _ Hmark).
    symmetry. apply (Forall2_length _ _ _ (assignIDs_same 0 objectList)). }
  destruct (fold_result (writeIndirect seekable fuel marked) marked _)
    as [[s xref]| |] eqn:Hbody; try done.
  2:{ exfalso. revert Hbody. apply fold_result_no_Fault.
      intros acc current Hcurrent.
      by apply writeIndirect_no_Fault. }
  rewrite result_bind_Ok.
  destruct (deref_heapOK marked Hheap2 i_root) as (root & Hr & _); [lia|].
  destruct (deref_heapOK marked Hheap2 i_info) as (info & Hi & _); [lia|].
  unfold deref in Hr, Hi. by rewrite Hr, Hi.
Qed.


(** X13: the conversion of a document whose nodes have their children in
    the document, with dictionaries as catalog and info, ends in no failed
    [assert], null pointer or read past the end of a vector, in the builder
    or in [SavePDF]: it returns its output or goes on. *)
Theorem convert_never_Fault (seekable : bool)
  (doc : CGPDFDocument) (fuel : nat)
  (catalog info : PDFIdentifier) (entries1 entries2 : list (string * nat))
  (majorVersion minorVersion : Z) :
  wellFormed doc ->
  doc !! catalog = Some (kCGPDFObjectTypeDictionary entries1) ->
  doc !! info = Some (kCGPDFObjectTypeDictionary entries2) ->
  convert doc seekable fuel catalog info majorVersion minorVersion <> Fault.
Proof.
  intros Hwf Hcatalog Hinfo. unfold convert.
  pose proof (fun dict entries ctx =>
    VisitDict_no_Fault doc Hwf _ (VisitObject_visitedFrom doc fuel)
      (fun value c => VisitObject_no_Fault doc fuel value c Hwf)
      dict entries ctx) as Hno.
  pose proof (fun dict ctx ctx' p =>
    VisitDict_visitedFrom doc _ (VisitObject_visitedFrom doc fuel)
      dict ctx ctx' p) as Hvisit.
  destruct (VisitDict doc (VisitObject doc fuel) catalog Context_new)
    as [[rootObj ctx1]| |] eqn:H1; try done.
  2:{ by destruct (Hno catalog entries1 Context_new Hcatalog). }
  rewrite result_bind_Ok.
  destruct (VisitDict doc (VisitObject doc fuel) info ctx1)
    as [[infoObj ctx2]| |] eqn:H2; try done.
  2:{ by destruct (Hno info entries2 ctx1 Hinfo). }
  rewrite result_bind_Ok.
  destruct (Hvisit _ _ _ _ H1) as ((HOK1 & _ & _) & Hroot).
  destruct (Hvisit _ _ _ _ H2) as ((HOK2 & Hgrows & _) & Hinfo').
  destruct (HOK2 (HOK1 contextOK_new)) as [Hheap Hvis].
  apply SavePDF_no_Fault; [done| |].
  - destruct Hgrows as (_ & _ & Hsub & _).
    apply (Hvis catalog rootObj). by eapply lookup_weaken.
  - by apply (Hvis info infoObj).
Qed.


(** ** The objects built stand for the nodes of the document *)

Lemma fold_result_prefix {A B : Type} (P : list A -> B -> Prop)
  (f : B -> A -> result B) (l : list A) (b b' : B) :
  P [] b ->
  (forall done x b1 b2, x ∈ l -> P done b1 -> f b1 x = Ok b2 ->
                        P (done ++ [x]) b2) ->
  fold_result f l b = Ok b' -> P l b'.
Proof.
  revert P b. induction l as [|x l IH]; intros P b Hb Hf Hfold.
  - by apply (inj Ok) in Hfold as <-.
  - simpl in Hfold. destruct (f b x) as [b1| |] eqn:H1; try done.
    simpl in Hfold.
    apply (IH (fun done => P (x :: done)) b1); [| |done].
    + apply (Hf [] x b b1); [left|done|done].
    + intros done y b2 b3 Hy Hb2 Hy'.
      apply (Hf (x :: done) y b2 b3); [by right|done|done].
Qed.

Lemma dictMirrors_mono (vis vis' : gmap PDFIdentifier ptr)
  (entries : list (string * PDFIdentifier)) (d : PDFDictionary) :
  vis ⊆ vis' -> dictMirrors vis entries d -> dictMirrors vis' entries d.
Proof.
  intros Hsub [Horder Hvalues]. split; [done|].
  intros key value Hget. destruct (Hvalues key value Hget) as (q & Hq & Hd).
  exists q. split; [by eapply lookup_weaken|done].
Qed.

Lemma mirrors_mono (vis vis' : gmap PDFIdentifier ptr) (o : CGPDFObject)
  (v : PDFValue) :
  vis ⊆ vis' -> mirrors vis o v -> mirrors vis' o v.
Proof.
  intros Hsub. destruct o; simpl; try done.
  - intros (qs & -> & Hqs). exists qs. split; [done|].
    eapply Forall2_impl; [exact Hqs|].
    intros value q Hq. exact (lookup_weaken _ _ _ _ Hq Hsub).
  - intros (d & -> & Hd). exists d. split; [done|].
    by eapply dictMirrors_mono.
  - intros (d & -> & Hd). exists d. split; [done|].
    by eapply dictMirrors_mono.
Qed.

Lemma mirrored_grows (doc : CGPDFDocument) (ctx ctx' : Context)
  (id : PDFIdentifier) (p : ptr) :
  grows ctx ctx' -> mirrored doc ctx id p -> mirrored doc ctx' id p.
Proof.
  intros (_ & Hobj & Hvis & _) (o & b & Hdoc & Hp & Hmirrors).
  destruct (Hobj p b Hp) as (b' & Hp' & Hsub' & _).
  exists o, b'. split; [done|]. split; [done|].
  rewrite Hsub'. by eapply mirrors_mono.
Qed.

Lemma mirrored_storeAt (doc : CGPDFDocument) (ctx : Context)
  (f : PDFObject -> PDFObject) (id : PDFIdentifier) (p q : ptr) :
  p <> q -> mirrored doc ctx id q -> mirrored doc (storeAt f p ctx) id q.
Proof.
  intros Hne (o & b & Hdoc & Hq & Hmirrors).
  exists o, b. split; [done|]. split; [|done].
  simpl. by rewrite list_lookup_alter_ne.
Qed.

Lemma newlyMirrored_trans (doc : CGPDFDocument) (ctx1 ctx2 ctx3 : Context) :
  newlyMirrored doc ctx1 ctx2 -> grows ctx2 ctx3 ->
  newlyMirrored doc ctx2 ctx3 -> newlyMirrored doc ctx1 ctx3.
Proof.
  intros H12 Hgrows H23 id p Hnone Hp.
  destruct (visited ctx2 !! id) as [q|] eqn:H2.
  - assert (visited ctx3 !! id = Some q) as Hq.
    { destruct Hgrows as (_ & _ & Hsub & _). by eapply lookup_weaken. }
    assert (q = p) as -> by congruence.
    eapply mirrored_grows; [exact Hgrows|]. by apply H12.
  - by apply H23.
Qed.

Lemma newlyMirrored_refl (doc : CGPDFDocument) (ctx : Context) :
  newlyMirrored doc ctx ctx.
Proof. intros id p Hnone Hp. congruence. Qed.

Lemma newlyMirrored_incAt (doc : CGPDFDocument) (p : ptr) (ctx : Context) :
  newlyMirrored doc ctx (incAt p ctx).
Proof. intros id q Hnone Hq. simpl in Hq. congruence. Qed.

(** A node registered with an object that stands for it. *)
Lemma newlyMirrored_register (doc : CGPDFDocument) (id : PDFIdentifier)
  (o : CGPDFObject) (v : PDFValue) (ctx : Context) :
  doc !! id = Some o ->
  mirrors (visited (register id (new v) ctx)) o v ->
  newlyMirrored doc ctx (register id (new v) ctx).
Proof.
  intros Hdoc Hmirrors k q Hnone Hq.
  assert (k = id /\ q = length (objectList ctx)) as [-> ->].
  { simpl in Hq. rewrite lookup_map_insert, Hnone in Hq.
    destruct (decide (id = k)) as [->|]; [|done]. by injection Hq as <-. }
  exists o, (new v). split; [done|]. split; [|done].
  simpl. by rewrite lookup_app_r, Nat.sub_diag.
Qed.


Lemma CGPDFDictionaryGetObject_dictVisitor
  (entries : list (string * PDFIdentifier)) (key : string) :
  key ∈ dictVisitor entries <->
  is_Some (CGPDFDictionaryGetObject entries key).
Proof.
  unfold dictVisitor. induction entries as [|[k v] entries IH]; simpl.
  - split; [by intros ?%elem_of_nil|by intros [? ?]].
  - destruct (String.eqb_spec k key) as [->|Hne].
    + split; [by eexists|left].
    + rewrite <- IH. split.
      * intros [?|?]%elem_of_cons; [congruence|done].
      * by right.
Qed.

Lemma firstAdded_elem (kvs : list (string * ptr)) (key : string) :
  key ∈ kvs.*1 -> exists q, firstAdded kvs key = Some q /\ (key, q) ∈ kvs.
Proof.
  induction kvs as [|[k q] kvs IH]; simpl; [by intros ?%elem_of_nil|].
  destruct (String.eqb_spec k key) as [->|Hne].
  - intros _. exists q. split; [done|left].
  - intros [?|Hin]%elem_of_cons; [congruence|].
    destruct (IH Hin) as (q' & Hq' & Hin'). exists q'. split; [done|by right].
Qed.

Lemma PDFDictionary_of_snoc (kvs : list (string * ptr)) (key : string)
  (p : ptr) :
  PDFDictionary_of (kvs ++ [(key, p)])
  = PDFDictionary_addValue key p (PDFDictionary_of kvs).
Proof. unfold PDFDictionary_of. by rewrite foldl_app. Qed.

(** The dictionary filled with the pointers recorded for the values of the
    keys of [entries] stands for [entries]. *)
Lemma dictMirrors_of (vis : gmap PDFIdentifier ptr)
  (entries : list (string * PDFIdentifier)) (kvs : list (string * ptr)) :
  kvs.*1 = dictVisitor entries ->
  Forall (fun kq => exists value,
            CGPDFDictionaryGetObject entries kq.1 = Some value
            /\ vis !! value = Some kq.2) kvs ->
  dictMirrors vis entries (PDFDictionary_of kvs).
Proof.
  intros Hkeys Hkvs.
  destruct (foldl_addValue kvs PDFDictionary_new) as [Ho Hv].
  fold (PDFDictionary_of kvs) in Ho, Hv. simpl in Ho.
  split; [by rewrite Ho|].
  intros key value Hget.
  assert (key ∈ kvs.*1) as Hin.
  { rewrite Hkeys. apply CGPDFDictionaryGetObject_dictVisitor. by eexists. }
  destruct (firstAdded_elem kvs key Hin) as (q & Hq & Hin').
  exists q. split.
  - destruct (proj1 (Forall_forall _ _) Hkvs (key, q) Hin')
      as (value' & Hget' & Hvis).
    simpl in *. congruence.
  - unfold PDFDictionary_value. rewrite Hv. simpl.
    by rewrite lookup_empty.
Qed.


Lemma visitChild_Ok_inv (V : PDFIdentifier -> Context -> result Context)
  (value : PDFIdentifier) (ctx ctx' : Context) (found : ptr) :
  visitChild V value ctx = Ok (found, ctx') ->
  V value ctx = Ok ctx' /\ visited ctx' !! value = Some found.
Proof.
  unfold visitChild. destruct (V value ctx) as [c| |]; try done. simpl.
  destruct (visited c !! value) as [q|] eqn:Hq; [|done].
  intros H. apply (inj Ok) in H. by injection H as <- <-.
Qed.

Section Mirrors.

Variable doc : CGPDFDocument.
Variable V : PDFIdentifier -> Context -> result Context.
Hypothesis V_visitedFrom : forall value ctx ctx',
  V value ctx = Ok ctx' -> visitedFrom value ctx ctx'.
Hypothesis V_mirrors : forall value ctx ctx',
  contextOK ctx -> V value ctx = Ok ctx' -> newlyMirrored doc ctx ctx'.

(** What the visit of a child does to the nodes visited since the node at
    [p] was registered: they are beyond [p] and keep or get their
    objects. *)
Lemma visitChild_beyond (it : PDFIdentifier) (p : ptr)
  (value : PDFIdentifier) (ctx c1 c3 : Context) (found : ptr)
  (f : PDFObject -> PDFObject) :
  contextOK c1 -> (p < length (objectList c1))%nat ->
  (forall id q, id <> it -> visited ctx !! id = None ->
     visited c1 !! id = Some q -> (p < q)%nat /\ mirrored doc c1 id q) ->
  visitChild V value c1 = Ok (found, c3) ->
  forall id q, id <> it -> visited ctx !! id = None ->
    visited (storeAt f p c3) !! id = Some q ->
    (p < q)%nat /\ mirrored doc (storeAt f p c3) id q.
Proof.
  intros Hc1 Hp Hbeyond Hchild id q Hne Hnone Hq. simpl in Hq.
  destruct (visitChild_Ok_inv _ _ _ _ _ Hchild) as [HV _].
  destruct (V_visitedFrom _ _ _ HV) as (_ & Hgrows & _).
  assert ((p < q)%nat /\ mirrored doc c3 id q) as [Hlt Hm].
  { destruct (visited c1 !! id) as [q'|] eqn:H1.
    - assert (visited c3 !! id = Some q') as Hq'.
      { destruct Hgrows as (_ & _ & Hsub & _). by eapply lookup_weaken. }
      assert (q' = q) as -> by congruence.
      destruct (Hbeyond id q Hne Hnone H1) as [Hlt Hm].
      split; [done|]. by eapply mirrored_grows.
    - split.
      + destruct Hgrows as (_ & _ & _ & Hnew).
        specialize (Hnew id q H1 Hq). lia.
      + by apply (V_mirrors value c1 c3 Hc1 HV). }
  split; [done|]. apply mirrored_storeAt; [lia|done].
Qed.

Lemma VisitDict_newlyMirrored (dict : PDFIdentifier) (ctx ctx' : Context)
  (p : ptr) :
  contextOK ctx -> VisitDict doc V dict ctx = Ok (p, ctx') ->
  newlyMirrored doc ctx ctx'.
Proof.
  intros Hctx. unfold VisitDict.
  destruct (visited ctx !! dict) as [q|] eqn:Hvis.
  { intros H. apply (inj Ok) in H. injection H as <- <-.
    apply newlyMirrored_incAt. }
  destruct (doc !! dict) as [[| | | | | | |entries|]|] eqn:Hdoc; try done.
  destruct (fold_result _ _ _) as [c| |] eqn:Hfold; try done.
  intros H. apply (inj Ok) in H. injection H as <- <-.
  set (p := length (objectList ctx)) in *.
  cut (contextOK c /\ (p < length (objectList c))%nat
       /\ visited c !! dict = Some p
       /\ (forall id q, id <> dict -> visited ctx !! id = None ->
             visited c !! id = Some q -> (p < q)%nat /\ mirrored doc c id q)
       /\ exists b kvs,
            objectList c !! p = Some b
            /\ _sub b = Dictionary (PDFDictionary_of kvs)
            /\ kvs.*1 = dictVisitor entries
            /\ Forall (fun kq => exists value,
                         CGPDFDictionaryGetObject entries kq.1 = Some value
                         /\ visited c !! value = Some kq.2) kvs).
  { intros (_ & _ & Hdict & Hbeyond & b & kvs & Hb & Hsub & Hkeys & Hkvs).
    intros id q Hnone Hq. destruct (decide (id = dict)) as [->|Hne].
    - assert (q = p) as -> by congruence.
      exists (kCGPDFObjectTypeDictionary entries), b.
      split; [done|]. split; [done|]. simpl.
      exists (PDFDictionary_of kvs). split; [done|].
      by apply dictMirrors_of.
    - by apply Hbeyond. }
  revert Hfold.
  apply (fold_result_prefix
    (fun done c =>
       contextOK c /\ (p < length (objectList c))%nat
       /\ visited c !! dict = Some p
       /\ (forall id q, id <> dict -> visited ctx !! id = None ->
             visited c !! id = Some q -> (p < q)%nat /\ mirrored doc c id q)
       /\ exists b kvs,
            objectList c !! p = Some b
            /\ _sub b = Dictionary (PDFDictionary_of kvs)
            /\ kvs.*1 = done
            /\ Forall (fun kq => exists value,
                         CGPDFDictionaryGetObject entries kq.1 = Some value
                         /\ visited c !! value = Some kq.2) kvs)).
  - split; [apply contextOK_register; [apply dictOK_new|done]|].
    split; [rewrite register_objectList, length_app; simpl; lia|].
    split; [by rewrite register_visited, lookup_insert_eq|].
    split.
    + intros id q Hne Hnone.
      rewrite register_visited, lookup_insert_ne by done. congruence.
    + exists (new (Dictionary PDFDictionary_new)), [].
      split; [|by repeat split].
      rewrite register_objectList. by rewrite lookup_app_r, Nat.sub_diag.
  - intros done it c1 c2 Hit (Hc1 & Hp & Hdict & Hbeyond & b & kvs & Hb
                              & Hsub & Hkeys & Hkvs).
    apply CGPDFDictionaryGetObject_dictVisitor in Hit as [value Hget].
    rewrite Hget.
    destruct (visitChild V value c1) as [[found c3]| |] eqn:Hchild;
      try done.
    intros H. apply (inj Ok) in H as <-.
    destruct (visitChild_visitedFrom V V_visitedFrom _ _ _ _ Hchild)
      as (HOK3 & Hgrows & Hfound).
    destruct (HOK3 Hc1) as [Hc3 Hlt].
    pose proof Hgrows as (Hlen & Hobj & Hvis13 & _).
    split; [by apply (contextOK_dictAddValue it found _ c3)|].
    split; [simpl; rewrite length_alter; lia|].
    split; [simpl; by eapply lookup_weaken|].
    split; [by apply (visitChild_beyond dict p value ctx c1 c3 found)|].
    destruct (Hobj p b Hb) as (b' & Hb' & Hsub' & _).
    exists (dictAddValue it found b'), (kvs ++ [(it, found)]).
    split; [simpl; by rewrite list_lookup_alter_eq, Hb'|].
    split; [|split].
    + unfold dictAddValue. rewrite Hsub', Hsub. simpl.
      by rewrite PDFDictionary_of_snoc.
    + by rewrite fmap_app, Hkeys.
    + apply Forall_app_2.
      * eapply Forall_impl; [exact Hkvs|].
        intros kq (value' & Hget' & Hq'). exists value'.
        split; [done|]. simpl. by eapply lookup_weaken.
      * constructor; [|constructor]. by exists value.
Qed.


Lemma VisitArray_newlyMirrored (array : PDFIdentifier)
  (ctx ctx' : Context) :
  contextOK ctx -> VisitArray doc V array ctx = Ok ctx' ->
  newlyMirrored doc ctx ctx'.
Proof.
  intros Hctx. unfold VisitArray.
  destruct (visited ctx !! array) as [q|] eqn:Hvis.
  { intros H. apply (inj Ok) in H as <-. apply newlyMirrored_incAt. }
  destruct (doc !! array) as [[| | | | | |items| |]|] eqn:Hdoc; try done.
  intros Hfold. set (p := length (objectList ctx)) in *.
  cut (contextOK ctx' /\ (p < length (objectList ctx'))%nat
       /\ visited ctx' !! array = Some p
       /\ (forall id q, id <> array -> visited ctx !! id = None ->
             visited ctx' !! id = Some q ->
             (p < q)%nat /\ mirrored doc ctx' id q)
       /\ exists b qs,
            objectList ctx' !! p = Some b /\ _sub b = Array qs
            /\ Forall2 (fun value q => visited ctx' !! value = Some q)
                 items qs).
  { intros (_ & _ & Harray & Hbeyond & b & qs & Hb & Hsub & Hqs).
    intros id q Hnone Hq. destruct (decide (id = array)) as [->|Hne].
    - assert (q = p) as -> by congruence.
      exists (kCGPDFObjectTypeArray items), b.
      split; [done|]. split; [done|]. simpl. by exists qs.
    - by apply Hbeyond. }
  revert Hfold.
  apply (fold_result_prefix
    (fun done c =>
       contextOK c /\ (p < length (objectList c))%nat
       /\ visited c !! array = Some p
       /\ (forall id q, id <> array -> visited ctx !! id = None ->
             visited c !! id = Some q -> (p < q)%nat /\ mirrored doc c id q)
       /\ exists b qs,
            objectList c !! p = Some b /\ _sub b = Array qs
            /\ Forall2 (fun value q => visited c !! value = Some q)
                 done qs)).
  - split; [apply contextOK_register; [constructor|done]|].
    split; [rewrite register_objectList, length_app; simpl; lia|].
    split; [by rewrite register_visited, lookup_insert_eq|].
    split.
    + intros id q Hne Hnone.
      rewrite register_visited, lookup_insert_ne by done. congruence.
    + exists (new (Array [])), [].
      split; [|by split].
      rewrite register_objectList. by rewrite lookup_app_r, Nat.sub_diag.
  - intros done value c1 c2 _ (Hc1 & Hp & Harray & Hbeyond & b & qs & Hb
                               & Hsub & Hqs).
    destruct (visitChild V value c1) as [[found c3]| |] eqn:Hchild;
      try done.
    intros H. apply (inj Ok) in H as <-.
    destruct (visitChild_visitedFrom V V_visitedFrom _ _ _ _ Hchild)
      as (HOK3 & Hgrows & Hfound).
    destruct (HOK3 Hc1) as [Hc3 Hlt].
    pose proof Hgrows as (Hlen & Hobj & Hvis13 & _).
    split; [by apply (contextOK_arrayAddValue found _ c3)|].
    split; [simpl; rewrite length_alter; lia|].
    split; [simpl; by eapply lookup_weaken|].
    split; [by apply (visitChild_beyond array p value ctx c1 c3 found)|].
    destruct (Hobj p b Hb) as (b' & Hb' & Hsub' & _).
    exists (arrayAddValue found b'), (qs ++ [found]).
    split; [simpl; by rewrite list_lookup_alter_eq, Hb'|].
    split.
    + unfold arrayAddValue. by rewrite Hsub', Hsub.
    + apply Forall2_app.
      * eapply Forall2_impl; [exact Hqs|].
        intros v q Hq. exact (lookup_weaken _ _ _ _ Hq Hvis13).
      * by constructor.
Qed.

Lemma VisitStream_newlyMirrored (stream : PDFIdentifier)
  (ctx ctx' : Context) :
  contextOK ctx -> VisitStream doc V stream ctx = Ok ctx' ->
  newlyMirrored doc ctx ctx'.
Proof.
  intros Hctx. unfold VisitStream.
  destruct (visited ctx !! stream) as [q|] eqn:Hvis.
  { intros H. apply (inj Ok) in H as <-. apply newlyMirrored_incAt. }
  destruct (doc !! stream) as [[| | | | | | | |entries data format]|]
    eqn:Hdoc; try done.
  destruct (fold_result _ _ _) as [[newDict c]| |] eqn:Hfold; try done.
  intros H. apply (inj Ok) in H as <-.
  cut (contextOK c /\ grows ctx c /\ newlyMirrored doc ctx c
       /\ exists kvs,
            newDict = PDFDictionary_of kvs
            /\ kvs.*1 = dictVisitor entries
            /\ Forall (fun kq => exists value,
                         CGPDFDictionaryGetObject entries kq.1 = Some value
                         /\ visited c !! value = Some kq.2) kvs).
  { intros (Hc & Hgrows & Hnew & kvs & -> & Hkeys & Hkvs).
    set (newStream := new (Stream _)).
    pose proof (grows_register stream newStream c) as Hgrows'.
    intros id q Hnone Hq.
    destruct (visited c !! id) as [q'|] eqn:Hid.
    - assert (q' = q) as ->.
      { simpl in Hq. rewrite lookup_map_insert, Hid in Hq. congruence. }
      eapply mirrored_grows; [exact Hgrows'|]. by apply Hnew.
    - apply (newlyMirrored_register doc stream
               (kCGPDFObjectTypeStream entries data format) _ c Hdoc);
        [|done|done].
      simpl. eexists. split; [done|].
      apply dictMirrors_of; [done|].
      eapply Forall_impl; [exact Hkvs|].
      intros kq (value & Hget & Hvalue). exists value. split; [done|].
      destruct Hgrows' as (_ & _ & Hsub & _).
      exact (lookup_weaken _ _ _ _ Hvalue Hsub). }
  revert Hfold.
  apply (fold_result_prefix
    (fun done (acc : PDFDictionary * Context) =>
       contextOK acc.2 /\ grows ctx acc.2 /\ newlyMirrored doc ctx acc.2
       /\ exists kvs,
            acc.1 = PDFDictionary_of kvs
            /\ kvs.*1 = done
            /\ Forall (fun kq => exists value,
                         CGPDFDictionaryGetObject entries kq.1 = Some value
                         /\ visited acc.2 !! value = Some kq.2) kvs)
    _ _ (PDFDictionary_new, ctx) (newDict, c)).
  - split; [done|]. split; [apply grows_refl|].
    split; [apply newlyMirrored_refl|]. by exists [].
  - intros done it acc acc' Hit (Hc1 & Hgrows1 & Hnew1 & kvs & Hdict
                                 & Hkeys & Hkvs).
    apply CGPDFDictionaryGetObject_dictVisitor in Hit as [value Hget].
    rewrite Hget.
    destruct (visitChild V value acc.2) as [[found c3]| |] eqn:Hchild;
      try done.
    intros H. apply (inj Ok) in H as <-. cbn [fst snd].
    destruct (visitChild_visitedFrom V V_visitedFrom _ _ _ _ Hchild)
      as (HOK3 & Hgrows3 & Hfound).
    destruct (visitChild_Ok_inv _ _ _ _ _ Hchild) as [HV _].
    destruct (HOK3 Hc1) as [Hc3 Hlt].
    split; [done|]. split; [by eapply grows_trans|].
    split; [eapply newlyMirrored_trans; eauto|].
    exists (kvs ++ [(it, found)]).
    split; [by rewrite PDFDictionary_of_snoc, Hdict|].
    split; [by rewrite fmap_app, Hkeys|].
    destruct Hgrows3 as (_ & _ & Hsub & _).
    apply Forall_app_2.
    + eapply Forall_impl; [exact Hkvs|].
      intros kq (value' & Hget' & Hq'). exists value'.
      split; [done|]. exact (lookup_weaken _ _ _ _ Hq' Hsub).
    + constructor; [|constructor]. by exists value.
Qed.

End Mirrors.


Lemma VisitObject_newlyMirrored (doc : CGPDFDocument) (fuel : nat)
  (obj : PDFIdentifier) (ctx ctx' : Context) :
  contextOK ctx -> VisitObject doc fuel obj ctx = Ok ctx' ->
  newlyMirrored doc ctx ctx'.
Proof.
  revert obj ctx ctx'.
  induction fuel as [|fuel IH]; intros obj ctx ctx' Hctx; [done|].
  simpl. destruct (doc !! obj) as [o|] eqn:Ho; [|done].
  destruct (visited ctx !! obj) as [p|] eqn:Hvis.
  { intros H. apply (inj Ok) in H as <-. apply newlyMirrored_incAt. }
  destruct o as [|b|v|v|v|v|items|entries|entries data format];
    try (unfold VisitNull, VisitBoolean, VisitInteger,
      VisitFloat, VisitName, VisitString, visitScalar; rewrite Hvis, Ho;
      simpl; intros H; apply (inj Ok) in H as <-;
      by eapply newlyMirrored_register).
  - by apply (VisitArray_newlyMirrored doc _
                (VisitObject_visitedFrom doc fuel) IH).
  - destruct (VisitDict doc (VisitObject doc fuel) obj ctx)
      as [[p c]| |] eqn:Hdict; try done.
    intros H. apply (inj Ok) in H as <-.
    by apply (VisitDict_newlyMirrored doc _
                (VisitObject_visitedFrom doc fuel) IH obj ctx c p).
  - by apply (VisitStream_newlyMirrored doc _
                (VisitObject_visitedFrom doc fuel) IH).
Qed.

(** X14: the objects built stand for the nodes of the document.  After a
    visit of a dictionary that returns, every node in [visited] has its
    object in the list: a scalar with the value the reader gives, an array
    with the pointers recorded for its elements, in their order, a
    dictionary or a stream with the keys the reader lists, in its order,
    each with the pointer recorded for its value, and a stream with its
    data and format, not marked as text. *)
Theorem VisitDict_faithful (doc : CGPDFDocument) (fuel : nat)
  (dict : PDFIdentifier) (ctx ctx' : Context) (p : ptr) :
  contextOK ctx -> faithful doc ctx ->
  VisitDict doc (VisitObject doc fuel) dict ctx = Ok (p, ctx') ->
  faithful doc ctx'.
Proof.
  intros Hctx Hfaithful Hvisit id q Hq.
  destruct (VisitDict_visitedFrom doc _ (VisitObject_visitedFrom doc fuel)
              _ _ _ _ Hvisit) as ((_ & Hgrows & _) & _).
  pose proof (VisitDict_newlyMirrored doc _
                (VisitObject_visitedFrom doc fuel)
                (VisitObject_newlyMirrored doc fuel) dict ctx ctx' p
                Hctx Hvisit) as Hnew.
  destruct (visited ctx !! id) as [q'|] eqn:Hid.
  - assert (visited ctx' !! id = Some q') as Hq'.
    { destruct Hgrows as (_ & _ & Hsub & _). by eapply lookup_weaken. }
    assert (q' = q) as -> by congruence.
    eapply mirrored_grows; [exact Hgrows|]. by apply Hfaithful.
  - by apply Hnew.
Qed.


(** ** Arrays *)

Lemma for_each_writeChild (W : PDFObject -> result string)
  (objectList : list PDFObject) (v : list ptr) (body : string) :
  for_each (fun p => writeChild W objectList (Some p) " ") v = Ok body ->
  exists values,
    Forall2 (fun p value =>
               exists target,
                 objectList !! p = Some target
                 /\ if indirect target
                    then value = show_int (getID target) +:+ " 0 R"
                    else W target = Ok value)
      v values
    /\ body = join ((fun value => value +:+ " ") <$> values).
Proof.
  revert body. induction v as [|p v IH]; intros body Hbody.
  - apply (inj Ok) in Hbody as <-. exists []. by split; [constructor|].
  - simpl in Hbody.
    destruct (writeChild W objectList (Some p) " ") as [r| |] eqn:Hp;
      try done.
    simpl in Hbody.
    destruct (for_each _ v) as [rs| |] eqn:Hv; try done.
    apply (inj Ok) in Hbody as <-.
    destruct (IH rs eq_refl) as (values & Hvalues & ->).
    unfold writeChild, deref in Hp.
    destruct (objectList !! p) as [target|] eqn:Htarget; [|done].
    simpl in Hp. destruct (indirect target) eqn:Hind.
    + apply (inj Ok) in Hp as <-.
      exists ((show_int (getID target) +:+ " 0 R") :: values). split.
      * constructor; [|done]. exists target. by rewrite Hind.
      * simpl. by rewrite !string_app_assoc.
    + destruct (W target) as [w| |] eqn:Hw; try done.
      apply (inj Ok) in Hp as <-.
      exists (w :: values). split; [|done].
      constructor; [|done]. exists target. by rewrite Hind.
Qed.

(** X15: an array is written as an opening bracket and a space, its
    elements in their order, each followed by a space, and a closing
    bracket: an element that is an indirect object as its identifier and
    [0 R], any other as the object itself is written.  An array without
    elements is the two brackets with a space between them. *)
Theorem WriteObject_Array (fuel : nat) (objectList : list PDFObject)
  (obj : PDFObject) (v : list ptr) (out : string) :
  _sub obj = Array v ->
  WriteObject (S fuel) objectList obj = Ok out ->
  exists values,
    Forall2 (fun p value =>
               exists target,
                 objectList !! p = Some target
                 /\ if indirect target
                    then value = show_int (getID target) +:+ " 0 R"
                    else WriteObject fuel objectList target = Ok value)
      v values
    /\ out = "[ " +:+ join ((fun value => value +:+ " ") <$> values)
             +:+ "]".
Proof.
  intros Hsub Hout. simpl in Hout. rewrite Hsub in Hout.
  unfold PDFArray_count in Hout.
  rewrite (for_each_seq v _
             (fun p => writeChild (WriteObject fuel objectList) objectList
                         (Some p) " ")) in Hout.
  - destruct (for_each _ v) as [body| |] eqn:Hbody; try done.
    apply (inj Ok) in Hout as <-.
    destruct (for_each_writeChild _ _ _ _ Hbody) as (values & Hvalues & ->).
    by exists values.
  - intros i p Hp. unfold PDFArray_value. simpl. by rewrite Hp.
Qed.


(** ** The objects [SavePDF] writes *)

Lemma fold_writeIndirect_body (seekable : bool)
  (fuel : nat) (marked l : list PDFObject)
  (acc acc' : string * gmap Z nat) :
  fold_result (writeIndirect seekable fuel marked) l acc = Ok acc' ->
  exists texts,
    Forall2 (fun o w => WriteObject fuel marked o = Ok w)
      (filter (fun o => indirect o = true) l) texts
    /\ acc'.1
       = acc.1 +:+ join (zip_with objectWritten
                           (filter (fun o => indirect o = true) l) texts).
Proof.
  revert acc. induction l as [|current l IH]; intros acc Hfold.
  - apply (inj Ok) in Hfold as <-. exists []. split; [constructor|].
    simpl. by rewrite string_app_nil_r.
  - simpl in Hfold.
    destruct (writeIndirect seekable fuel marked acc current)
      as [acc1| |] eqn:H1;
      try done.
    simpl in Hfold. destruct (IH acc1 Hfold) as (texts & Htexts & ->).
    unfold writeIndirect in H1. rewrite filter_cons.
    destruct (indirect current) eqn:Hind.
    + destruct (WriteObject fuel marked current) as [w| |] eqn:Hw;
        try done.
      apply (inj Ok) in H1 as <-. cbn [fst].
      destruct (decide (true = true)); [|done].
      exists (w :: texts). split; [by constructor|].
      simpl. unfold objectWritten at 2, objHeader.
      by rewrite !string_app_assoc.
    + apply (inj Ok) in H1 as <-.
      destruct (decide (false = true)); [done|]. by exists texts.
Qed.

(** X19: what [SavePDF] writes is the header, then the indirect objects
    of the list and no other, each once, in the order of the list, as its
    identifier, [0 obj], the object as [WriteObject] writes it and
    [endobj], then the table and the trailer, with after [startxref] the
    length of all that precedes the table on a stream that can seek, and 0
    on a stream that cannot, where [tellp()] is -1 every time. *)
Theorem SavePDF_body (seekable : bool)
  (fuel : nat) (majorVersion minorVersion : Z)
  (objectList : list PDFObject) (i_root i_info : ptr) (out : string) :
  SavePDF seekable fuel majorVersion minorVersion objectList i_root i_info
  = Ok out ->
  exists (marked : list PDFObject) (texts : list string)
         (xref : gmap Z nat) (root info : PDFObject),
    let written := filter (fun o => indirect o = true) marked in
    let body := writeHeader majorVersion minorVersion
                +:+ join (zip_with objectWritten written texts) in
    Forall2 sameButText (assignIDs 0 objectList) marked
    /\ Forall2 (fun o w => WriteObject fuel marked o = Ok w) written texts
    /\ marked !! i_root = Some root /\ marked !! i_info = Some info
    /\ out = body +:+ writeXref xref
             +:+ writeTrailer xref root info (offset seekable body).
Proof.
  intros Hsave. unfold SavePDF in Hsave.
  destruct (fold_result locateContents _ _) as [marked| |] eqn:Hmark;
    try done.
  simpl in Hsave.
  destruct (fold_result (writeIndirect seekable fuel marked) marked _)
    as [[s xref]| |] eqn:Hbody; try done.
  simpl in Hsave.
  destruct (marked !! i_root) as [root|] eqn:Hroot; try done.
  destruct (marked !! i_info) as [info|] eqn:Hinfo; try done.
  simpl in Hsave. apply (inj Ok) in Hsave as <-.
  destruct (fold_writeIndirect_body _ _ _ _ _ _ Hbody)
    as (texts & Htexts & Hs).
  cbn [fst] in Hs. subst s.
  exists marked, texts, xref, root, info. cbv zeta.
  split; [by apply fold_locateContents_sameButText in Hmark|].
  by repeat split.
Qed.


(** ** The width of the lines of the table *)

Lemma pretty_N_go_length_ge (x : N) (s : string) :
  (String.length s <= String.length (pretty_N_go x s))%nat.
Proof.
  revert s. induction (N.lt_wf_0 x) as [x _ IH]; intros s.
  destruct (decide (x = 0)%N) as [->|Hx]; [by rewrite pretty_N_go_0|].
  rewrite pretty_N_go_step by lia.
  etrans; [|apply IH; apply N.div_lt; lia]. simpl. lia.
Qed.

Lemma pretty_N_go_length_le (k : nat) (x : N) (s : string) :
  (x < 10 ^ N.of_nat k)%N ->
  (String.length (pretty_N_go x s) <= k + String.length s)%nat.
Proof.
  revert x s. induction k as [|k IH]; intros x s Hx.
  - assert (x = 0%N) as -> by (simpl in Hx; lia).
    by rewrite pretty_N_go_0.
  - destruct (decide (x = 0)%N) as [->|Hx0]; [rewrite pretty_N_go_0; lia|].
    rewrite pretty_N_go_step by lia.
    etrans; [apply IH|simpl; lia].
    apply N.Div0.div_lt_upper_bound.
    by rewrite Nat2N.inj_succ, N.pow_succ_r' in Hx.
Qed.

Lemma pretty_N_go_length_gt (k : nat) (x : N) (s : string) :
  (10 ^ N.of_nat k <= x)%N ->
  (k + String.length s < String.length (pretty_N_go x s))%nat.
Proof.
  revert x s. induction k as [|k IH]; intros x s Hx.
  - simpl in Hx. rewrite pretty_N_go_step by lia.
    eapply Nat.lt_le_trans; [|apply pretty_N_go_length_ge]. simpl. lia.
  - rewrite Nat2N.inj_succ, N.pow_succ_r' in Hx.
    assert (0 < 10 ^ N.of_nat k)%N by (apply N.neq_0_lt_0, N.pow_nonzero; lia).
    rewrite pretty_N_go_step by lia.
    eapply Nat.le_lt_trans; [|apply IH].
    + simpl. lia.
    + apply N.div_le_lower_bound; lia.
Qed.

Lemma join_replicate_length (n : nat) (s : string) :
  String.length (join (replicate n s)) = (n * String.length s)%nat.
Proof.
  induction n as [|n IH]; [done|].
  simpl. by rewrite string_length_app, IH.
Qed.

(** X20: a line of the table has the 20 bytes of an entry of a
    cross-reference table exactly when the offset is below [10^10]:
    [setw( 10 )] fills a shorter number with zeros and leaves a longer one
    as it is. *)
Theorem xrefEntry_20_bytes (off : nat) :
  String.length (xrefEntry off) = 20%nat <-> Z.of_nat off < 10 ^ 10.
Proof.
  unfold xrefEntry, setw10. rewrite !string_length_app, join_replicate_length.
  rewrite LF_length.
  change (String.length "0") with 1%nat.
  change (String.length " ") with 1%nat.
  change (String.length "00000 n ") with 8%nat.
  unfold show_size, pretty, pretty_nat, pretty, pretty_N.
  destruct (decide (N.of_nat off = 0)%N) as [Hoff|Hoff].
  { simpl. split; [lia|done]. }
  destruct (decide (N.of_nat off < 10 ^ N.of_nat 10)%N) as [Hlt|Hge].
  - pose proof (pretty_N_go_length_le 10 _ EmptyString Hlt) as Hle.
    simpl in Hle. split; [lia|]. intros _. lia.
  - pose proof (pretty_N_go_length_gt 10 (N.of_nat off) EmptyString) as Hgt.
    simpl in Hgt. split; [|lia].
    intros Hlen. assert (10 ^ 10 <= N.of_nat off)%N as H10 by lia.
    specialize (Hgt H10). lia.
Qed.


(** ** [main] *)

Lemma fold_convertFile (url : string -> option string)
  (open : string -> option CGPDFDocumentRef) (seekable : bool) (fuel : nat)
  (files : list string) (rs : list (string * string))
  (acc : string * string) :
  Forall2 (fun arg r => convertFile url open seekable fuel arg = Ok r)
    files rs ->
  fold_result
    (fun (acc : string * string) arg =>
       '(o, e) ← convertFile url open seekable fuel arg;
       Ok (acc.1 +:+ o, acc.2 +:+ e))
    files acc
  = Ok (acc.1 +:+ join rs.*1, acc.2 +:+ join rs.*2).
Proof.
  intros Hrs. revert acc.
  induction Hrs as [|arg [o e] files rs Harg Hrs IH]; intros [out err].
  - simpl. by rewrite !string_app_nil_r.
  - simpl. rewrite Harg. simpl. rewrite IH. simpl.
    by rewrite !string_app_assoc.
Qed.

(** X21: [main] converts its files one by one, each on its own: with at
    least one file, what it writes to [std::cout] and to [std::cerr] is
    what each file gives, one after the other in the order of the command
    line, a file that cannot be opened giving its line on [std::cerr] only,
    and the value returned is 0 whether or not a file could be opened. *)
Theorem main_each_file (url : string -> option string)
  (open : string -> option CGPDFDocumentRef) (seekable : bool) (fuel : nat)
  (argv0 : string) (files : list string) (rs : list (string * string)) :
  files <> [] ->
  Forall2 (fun arg r => convertFile url open seekable fuel arg = Ok r)
    files rs ->
  main url open seekable fuel (argv0 :: files) = Ok (join rs.*1, join rs.*2, 0).
Proof.
  intros Hfiles Hrs. unfold main.
  destruct files as [|file files]; [done|].
  by rewrite (fold_convertFile url open seekable fuel _ rs _ Hrs).
Qed.


(** ** Reference counts *)

Lemma occurrences_app (p : ptr) (l1 l2 : list ptr) :
  occurrences p (l1 ++ l2) = (occurrences p l1 + occurrences p l2)%nat.
Proof. unfold occurrences. by rewrite filter_app, length_app. Qed.

Lemma occurrences_cons (p q : ptr) (l : list ptr) :
  occurrences p (q :: l)
  = ((if decide (q = p) then 1 else 0) + occurrences p l)%nat.
Proof.
  unfold occurrences. rewrite filter_cons. by destruct (decide (q = p)).
Qed.

Lemma occurrences_0 (p : ptr) (l : list ptr) :
  p ∉ l -> occurrences p l = 0%nat.
Proof.
  induction l as [|q l IH]; [done|]. intros Hp.
  rewrite occurrences_cons, IH.
  - destruct (decide (q = p)) as [->|]; [|done]. destruct Hp. left.
  - intros Hin. apply Hp. by right.
Qed.

Lemma occurrences_pos (p : ptr) (l : list ptr) :
  p ∈ l -> (0 < occurrences p l)%nat.
Proof.
  induction 1 as [l|q l Hin IH]; rewrite occurrences_cons.
  - rewrite decide_True by done. lia.
  - lia.
Qed.

Lemma refsTo_app (l1 l2 : list PDFObject) (p : ptr) :
  refsTo (l1 ++ l2) p = (refsTo l1 p + refsTo l2 p)%nat.
Proof. unfold refsTo. by rewrite bind_app, occurrences_app. Qed.

Lemma refsTo_cons (o : PDFObject) (l : list PDFObject) (p : ptr) :
  refsTo (o :: l) p = (occurrences p (ptrsOf o) + refsTo l p)%nat.
Proof. unfold refsTo. by rewrite bind_cons, occurrences_app. Qed.

(** The references after the object at [pd] has been changed. *)
Lemma refsTo_alter (f : PDFObject -> PDFObject) (pd : nat)
  (l : list PDFObject) (o : PDFObject) (p : ptr) :
  l !! pd = Some o ->
  (refsTo (alter f pd l) p + occurrences p (ptrsOf o)
   = refsTo l p + occurrences p (ptrsOf (f o)))%nat.
Proof.
  revert pd. induction l as [|o' l IH]; intros [|pd] Hpd; try done.
  - injection Hpd as ->. simpl. rewrite !refsTo_cons. lia.
  - change (alter f (S pd) (o' :: l)) with (o' :: alter f pd l).
    rewrite !refsTo_cons. specialize (IH pd Hpd). lia.
Qed.

Lemma refsTo_alter_same (f : PDFObject -> PDFObject) (pd : nat)
  (l : list PDFObject) (p : ptr) :
  (forall o, ptrsOf (f o) = ptrsOf o) ->
  refsTo (alter f pd l) p = refsTo l p.
Proof.
  intros Hf. destruct (l !! pd) as [o|] eqn:Hpd.
  - pose proof (refsTo_alter f pd l o p Hpd) as H. rewrite Hf in H. lia.
  - f_equal. apply list_eq. intros i.
    destruct (decide (pd = i)) as [<-|Hne].
    + by rewrite list_lookup_alter_eq, Hpd.
    + by rewrite list_lookup_alter_ne.
Qed.

(** No object points to what is not in the list. *)
Lemma refsTo_beyond (l : list PDFObject) (p : ptr) :
  heapOK l -> (length l <= p)%nat -> refsTo l p = 0%nat.
Proof.
  intros Hheap Hp. apply occurrences_0. intros Hin.
  apply list_elem_of_bind in Hin as (o & Hin & Ho).
  pose proof (proj1 (Forall_forall _ _) Hheap o Ho) as Hptrs.
  unfold ptrsOK in Hptrs. unfold ptrsOf, dictPtrs in Hin.
  assert (forall d, dictOK (length l) d ->
            p ∈ omap (fun key => _value d !! key) (_order d) -> False)
    as Hdict.
  { intros d [_ Hd] Hp'. apply list_elem_of_omap in Hp' as (k & _ & Hk).
    specialize (Hd k p Hk). simpl in Hd. lia. }
  destruct (_sub o); try by apply elem_of_nil in Hin.
  - pose proof (proj1 (Forall_forall _ _) Hptrs p Hin). simpl in *. lia.
  - by apply (Hdict d).
  - by apply (Hdict (_dict st)).
Qed.

Lemma wrap_size_succ (z : Z) : wrap_size (wrap_size z + 1) = wrap_size (z + 1).
Proof. unfold wrap_size. by rewrite Z.add_mod_idemp_l. Qed.


Lemma ptrsOf_sub (o o' : PDFObject) :
  _sub o' = _sub o -> ptrsOf o' = ptrsOf o /\ isStream o' = isStream o.
Proof. unfold ptrsOf, isStream, type. by intros ->. Qed.

Lemma hasParent_credit (credit credit' : list ptr) (l : list PDFObject)
  (q : ptr) :
  (q ∈ credit -> q ∈ credit') ->
  hasParent credit l q -> hasParent credit' l q.
Proof. intros Hsub [Hq|Hparent]; [left; auto|by right]. Qed.

Lemma hasParent_alter (f : PDFObject -> PDFObject) (pd : nat)
  (credit : list ptr) (l : list PDFObject) (q : ptr) :
  (forall b, l !! pd = Some b ->
     (forall r, r ∈ ptrsOf b -> r ∈ ptrsOf (f b))
     /\ isStream (f b) = isStream b) ->
  hasParent credit l q -> hasParent credit (alter f pd l) q.
Proof.
  intros Hf [Hq|(p & o & Hp & Hin & Hwhy)]; [by left|]. right.
  destruct (decide (pd = p)) as [->|Hne].
  - destruct (Hf o Hp) as [Hptrs Hstream].
    exists p, (f o). rewrite list_lookup_alter_eq, Hp.
    split; [done|]. split; [by apply Hptrs|]. by rewrite Hstream.
  - exists p, o. by rewrite list_lookup_alter_ne.
Qed.

Lemma hasParent_grows (credit : list ptr) (ctx ctx' : Context) (q : ptr) :
  grows ctx ctx' ->
  hasParent credit (objectList ctx) q -> hasParent credit (objectList ctx') q.
Proof.
  intros (_ & Hobj & _) [Hq|(p & o & Hp & Hin & Hwhy)]; [by left|]. right.
  destruct (Hobj p o Hp) as (o' & Hp' & Hsub & _).
  destruct (ptrsOf_sub o o' Hsub) as [Hptrs Hstream].
  exists p, o'. by rewrite Hptrs, Hstream.
Qed.

(** The credit can be held in any order. *)
Lemma counted_equiv (credit credit' : list ptr) (ctx : Context) :
  (forall p, occurrences p credit' = occurrences p credit) ->
  (forall q, q ∈ credit <-> q ∈ credit') ->
  counted credit ctx -> counted credit' ctx.
Proof.
  intros Hocc Hin [Hbound Hcount]. split.
  - apply Forall_forall. intros q Hq. apply Hin in Hq.
    by apply (proj1 (Forall_forall _ _) Hbound).
  - intros p o Hp Hstream. destruct (Hcount p o Hp Hstream) as [-> Hparent].
    split; [by rewrite Hocc|].
    eapply hasParent_credit; [|exact Hparent]. apply Hin.
Qed.

Lemma counted_incAt (q : ptr) (credit : list ptr) (ctx : Context) :
  (q < length (objectList ctx))%nat ->
  counted credit ctx -> counted (q :: credit) (incAt q ctx).
Proof.
  intros Hq [Hbound Hcount]. split.
  - simpl. rewrite length_alter. by constructor.
  - intros p o'. simpl. intros Hp Hstream.
    assert (refsTo (alter inc q (objectList ctx)) p
            = refsTo (objectList ctx) p) as ->
      by by apply refsTo_alter_same.
    rewrite occurrences_cons.
    assert (exists o, objectList ctx !! p = Some o
                      /\ isStream o = false
                      /\ _refCount o'
                         = if decide (q = p) then wrap_size (_refCount o + 1)
                           else _refCount o) as (o & Ho & Hso & Hrc).
    { destruct (decide (q = p)) as [->|Hne].
      - rewrite list_lookup_alter_eq in Hp.
        destruct (objectList ctx !! p) as [o|]; [|done].
        injection Hp as <-. by exists o.
      - rewrite list_lookup_alter_ne in Hp by done. by exists o'. }
    destruct (Hcount p o Ho Hso) as [Hrefs Hparent]. split.
    + rewrite Hrc, Hrefs. destruct (decide (q = p)).
      * rewrite wrap_size_succ. f_equal. lia.
      * done.
    + apply hasParent_alter; [done|].
      eapply hasParent_credit; [|exact Hparent]. by right.
Qed.


(** A new object takes over the pointers it stores from the credit, and
    the pointer to it is held by who made it. *)
Lemma counted_register (id : PDFIdentifier) (o : PDFObject)
  (credit : list ptr) (ctx : Context) :
  heapOK (objectList ctx) ->
  _refCount o = 1 ->
  ptrsOf o = [] \/ isStream o = true ->
  counted (ptrsOf o ++ credit) ctx ->
  counted (length (objectList ctx) :: credit) (register id o ctx).
Proof.
  intros Hheap Hone Hkind [Hbound Hcount].
  apply Forall_app in Hbound as [_ Hbound].
  set (n := length (objectList ctx)) in *. split.
  - simpl. rewrite length_app. simpl. constructor; [lia|].
    eapply Forall_impl; [exact Hbound|]. simpl. lia.
  - intros p o' Hp Hstream. simpl in Hp.
    rewrite register_objectList, refsTo_app, refsTo_cons, occurrences_cons.
    change (refsTo [] p) with 0%nat.
    destruct (decide (p < n)%nat) as [Hlt|Hge].
    + rewrite lookup_app_l in Hp by done.
      destruct (Hcount p o' Hp Hstream) as [-> Hparent].
      rewrite occurrences_app, decide_False by lia. split; [f_equal; lia|].
      destruct Hparent as [Hin|(pp & oo & Hpp & Hin & Hwhy)].
      * apply elem_of_app in Hin as [Hin|Hin]; [|left; by right].
        right. exists n, o. split; [by rewrite lookup_app_r, Nat.sub_diag|].
        split; [done|]. right. destruct Hkind as [Hnil|Hs]; [|done].
        rewrite Hnil in Hin. by apply elem_of_nil in Hin.
      * right. exists pp, oo. split; [by apply lookup_app_l_Some|done].
    + assert (p = n) as ->.
      { apply lookup_lt_Some in Hp. rewrite length_app in Hp.
        simpl in Hp. unfold n in *. lia. }
      rewrite lookup_app_r, Nat.sub_diag in Hp by done.
      injection Hp as <-. destruct Hkind as [Hnil|Hs]; [|congruence].
      rewrite Hnil, Hone, decide_True by done.
      rewrite (refsTo_beyond _ n Hheap) by done.
      rewrite (occurrences_0 n credit).
      * split; [done|]. left. left.
      * intros Hin. pose proof (proj1 (Forall_forall _ _) Hbound n Hin).
        simpl in *. lia.
Qed.

(** A pointer stored in the object at [pd] is a pointer less to hold. *)
Lemma counted_storeAt (f : PDFObject -> PDFObject) (pd found : ptr)
  (b : PDFObject) (credit : list ptr) (ctx : Context) :
  objectList ctx !! pd = Some b ->
  ptrsOf (f b) = ptrsOf b ++ [found] ->
  isStream (f b) = isStream b ->
  _refCount (f b) = _refCount b ->
  (forall o, objectList ctx !! found = Some o -> isStream o = false ->
     (pd < found)%nat \/ hasParent credit (objectList ctx) found) ->
  counted (found :: credit) ctx -> counted credit (storeAt f pd ctx).
Proof.
  intros Hb Hptrs Hsame Hrc Hwhy [Hbound Hcount].
  apply Forall_cons in Hbound as [_ Hbound].
  assert (forall q, hasParent credit (objectList ctx) q ->
            hasParent credit (alter f pd (objectList ctx)) q) as Hlift.
  { intros q. apply hasParent_alter. intros b' Hb'.
    assert (b' = b) as -> by congruence. split; [|done].
    intros r Hr. rewrite Hptrs. apply elem_of_app. by left. }
  split; [by simpl; rewrite length_alter|].
  intros p o' Hp Hstream. simpl in Hp.
  pose proof (refsTo_alter f pd (objectList ctx) b p Hb) as Hrefs.
  rewrite Hptrs, occurrences_app, occurrences_cons in Hrefs.
  change (occurrences p []) with 0%nat in Hrefs.
  assert (exists o, objectList ctx !! p = Some o /\ isStream o = false
                    /\ _refCount o' = _refCount o) as (o & Ho & Hso & Hrc').
  { destruct (decide (pd = p)) as [->|Hne].
    - rewrite list_lookup_alter_eq, Hb in Hp. injection Hp as <-.
      exists b. by rewrite <- Hsame.
    - rewrite list_lookup_alter_ne in Hp by done. by exists o'. }
  destruct (Hcount p o Ho Hso) as [Hcnt Hparent].
  rewrite occurrences_cons in Hcnt. simpl. split.
  - rewrite Hrc', Hcnt. f_equal. lia.
  - destruct Hparent as [Hin|Hparent]; [|by apply Hlift; right].
    apply elem_of_cons in Hin as [->|Hin]; [|by left].
    destruct (Hwhy o Ho Hso) as [Hlt|Hparent]; [|by apply Hlift].
    right. exists pd, (f b). rewrite list_lookup_alter_eq, Hb.
    split; [done|]. split; [|by left].
    rewrite Hptrs. apply elem_of_app. right. left.
Qed.

(** A pointer to a stream can be held or not: a stream does not count. *)
Lemma counted_stream (t found : ptr) (credit : list ptr) (ctx : Context) :
  (found < length (objectList ctx))%nat ->
  (forall o, objectList ctx !! t = Some o -> isStream o = true) ->
  (forall o, objectList ctx !! found = Some o -> isStream o = true) ->
  counted (t :: credit) ctx -> counted (found :: credit) ctx.
Proof.
  intros Hfound Ht Hf [Hbound Hcount].
  apply Forall_cons in Hbound as [_ Hbound].
  split; [by constructor|].
  intros p o Hp Hstream.
  assert (t <> p) as Htp.
  { intros ->. specialize (Ht o Hp). congruence. }
  assert (found <> p) as Hfp.
  { intros ->. specialize (Hf o Hp). congruence. }
  destruct (Hcount p o Hp Hstream) as [-> Hparent].
  rewrite !occurrences_cons, !decide_False by done. split; [done|].
  destruct Hparent as [Hin|Hparent]; [|by right].
  apply elem_of_cons in Hin as [->|Hin]; [done|]. left. by right.
Qed.

Lemma counted_new : counted [] Context_new.
Proof. split; [constructor|]. intros p o Hp. by destruct p. Qed.


Lemma dictPtrs_addValue (key : string) (found : ptr) (d : PDFDictionary) :
  Forall (fun k => is_Some (_value d !! k)) (_order d) ->
  _value d !! key = None \/ _value d !! key = Some found ->
  dictPtrs (PDFDictionary_addValue key found d) = dictPtrs d ++ [found].
Proof.
  intros Hkeys Hkey. unfold dictPtrs. simpl. rewrite omap_app. f_equal.
  - apply list_omap_ext. apply Forall_Forall2_diag.
    eapply Forall_impl; [exact Hkeys|]. intros k [q Hq].
    by rewrite lookup_map_insert, Hq.
  - simpl. rewrite lookup_map_insert.
    destruct Hkey as [->| ->]; [|done]. by rewrite decide_True.
Qed.

Lemma PDFDictionary_of_keys (kvs : list (string * ptr)) :
  Forall (fun k => is_Some (_value (PDFDictionary_of kvs) !! k))
    (_order (PDFDictionary_of kvs)).
Proof.
  destruct (foldl_addValue kvs PDFDictionary_new) as [Ho Hv].
  fold (PDFDictionary_of kvs) in Ho, Hv. simpl in Ho.
  rewrite Ho. apply Forall_forall. intros k Hk. rewrite Hv. simpl.
  rewrite lookup_empty.
  destruct (firstAdded_elem kvs k Hk) as (q & -> & _). by eexists.
Qed.

(** In the dictionary filled so far a key read again has the pointer it
    gets again. *)
Lemma PDFDictionary_of_again (vis vis' : gmap PDFIdentifier ptr)
  (entries : list (string * PDFIdentifier)) (kvs : list (string * ptr))
  (key : string) (value : PDFIdentifier) (found : ptr) :
  Forall (fun kq => exists value,
            CGPDFDictionaryGetObject entries kq.1 = Some value
            /\ vis !! value = Some kq.2) kvs ->
  vis ⊆ vis' ->
  CGPDFDictionaryGetObject entries key = Some value ->
  vis' !! value = Some found ->
  _value (PDFDictionary_of kvs) !! key = None
  \/ _value (PDFDictionary_of kvs) !! key = Some found.
Proof.
  intros Hkvs Hsub Hget Hfound.
  destruct (foldl_addValue kvs PDFDictionary_new) as [_ Hv].
  fold (PDFDictionary_of kvs) in Hv. rewrite Hv. simpl.
  rewrite lookup_empty.
  destruct (decide (key ∈ kvs.*1)) as [Hin|Hnotin].
  - destruct (firstAdded_elem kvs key Hin) as (q & -> & Hq). right.
    destruct (proj1 (Forall_forall _ _) Hkvs (key, q) Hq)
      as (value' & Hget' & Hvalue').
    simpl in *. assert (value' = value) as -> by congruence.
    pose proof (lookup_weaken _ _ _ _ Hvalue' Hsub). congruence.
  - left. clear -Hnotin. induction kvs as [|[k q] kvs IH]; [done|].
    simpl in *. destruct (String.eqb_spec k key) as [->|Hne].
    + destruct Hnotin. left.
    + apply IH. intros Hin. apply Hnotin. by right.
Qed.

Lemma dictPtrs_new : dictPtrs PDFDictionary_new = [].
Proof. reflexivity. Qed.


Section Counts.

Variable doc : CGPDFDocument.
Variable V : PDFIdentifier -> Context -> result Context.
Hypothesis V_visitedFrom : forall value ctx ctx',
  V value ctx = Ok ctx' -> visitedFrom value ctx ctx'.
Hypothesis V_mirrors : forall value ctx ctx',
  contextOK ctx -> V value ctx = Ok ctx' -> newlyMirrored doc ctx ctx'.
Hypothesis V_counted : forall value ctx ctx' credit found,
  contextOK ctx -> counted credit ctx -> V value ctx = Ok ctx' ->
  visited ctx' !! value = Some found -> counted (found :: credit) ctx'.

(** The child found is beyond [pd], or was in the list and had its
    reason. *)
Lemma visitChild_why (pd : ptr) (value : PDFIdentifier) (c1 c3 : Context)
  (found : ptr) (credit : list ptr) :
  (pd < length (objectList c1))%nat ->
  counted credit c1 ->
  visitChild V value c1 = Ok (found, c3) ->
  forall o, objectList c3 !! found = Some o -> isStream o = false ->
    (pd < found)%nat \/ hasParent credit (objectList c3) found.
Proof.
  intros Hpd [_ Hcount] Hchild o Ho Hstream.
  destruct (visitChild_Ok_inv _ _ _ _ _ Hchild) as [HV _].
  destruct (V_visitedFrom _ _ _ HV) as (_ & Hgrows & _).
  destruct (decide (found < length (objectList c1))%nat) as [Hold|Hnew];
    [|left; lia].
  right. apply lookup_lt_is_Some in Hold as [o1 Ho1].
  pose proof Hgrows as (_ & Hobj & _).
  destruct (Hobj found o1 Ho1) as (o' & Ho' & Hsub & _).
  assert (o' = o) as -> by congruence.
  destruct (ptrsOf_sub o1 o Hsub) as [_ Hs].
  destruct (Hcount found o1 Ho1) as [_ Hparent]; [congruence|].
  by eapply hasParent_grows.
Qed.

Lemma VisitDict_counts (dict : PDFIdentifier) (ctx ctx' : Context)
  (p : ptr) (credit : list ptr) :
  contextOK ctx -> counted credit ctx ->
  VisitDict doc V dict ctx = Ok (p, ctx') -> counted (p :: credit) ctx'.
Proof.
  intros Hctx Hcredit. unfold VisitDict.
  destruct (visited ctx !! dict) as [q|] eqn:Hvis.
  { intros H. apply (inj Ok) in H. injection H as <- <-.
    apply counted_incAt; [|done]. destruct Hctx as [_ Hv].
    by apply (Hv dict q). }
  destruct (doc !! dict) as [[| | | | | | |entries|]|] eqn:Hdoc; try done.
  destruct (fold_result _ _ _) as [c| |] eqn:Hfold; try done.
  intros H. apply (inj Ok) in H. injection H as <- <-.
  set (pd := length (objectList ctx)) in *.
  cut (contextOK c /\ (pd < length (objectList c))%nat
       /\ counted (pd :: credit) c
       /\ exists b kvs,
            objectList c !! pd = Some b
            /\ _sub b = Dictionary (PDFDictionary_of kvs)
            /\ kvs.*1 = dictVisitor entries
            /\ Forall (fun kq => exists value,
                         CGPDFDictionaryGetObject entries kq.1 = Some value
                         /\ visited c !! value = Some kq.2) kvs).
  { by intros (_ & _ & Hc & _). }
  revert Hfold.
  apply (fold_result_prefix
    (fun done c =>
       contextOK c /\ (pd < length (objectList c))%nat
       /\ counted (pd :: credit) c
       /\ exists b kvs,
            objectList c !! pd = Some b
            /\ _sub b = Dictionary (PDFDictionary_of kvs)
            /\ kvs.*1 = done
            /\ Forall (fun kq => exists value,
                         CGPDFDictionaryGetObject entries kq.1 = Some value
                         /\ visited c !! value = Some kq.2) kvs)).
  - split; [apply contextOK_register; [apply dictOK_new|done]|].
    split; [rewrite register_objectList, length_app; simpl; lia|].
    split; [apply counted_register; try done; [by destruct Hctx|by left]|].
    exists (new (Dictionary PDFDictionary_new)), [].
    split; [|by repeat split].
    rewrite register_objectList. by rewrite lookup_app_r, Nat.sub_diag.
  - intros done it c1 c2 Hit (Hc1 & Hpd & Hcount1 & b & kvs & Hb & Hsub
                              & Hkeys & Hkvs).
    apply CGPDFDictionaryGetObject_dictVisitor in Hit as [value Hget].
    rewrite Hget.
    destruct (visitChild V value c1) as [[found c3]| |] eqn:Hchild;
      try done.
    intros H. apply (inj Ok) in H as <-.
    destruct (visitChild_visitedFrom V V_visitedFrom _ _ _ _ Hchild)
      as (HOK3 & Hgrows & Hfound).
    destruct (visitChild_Ok_inv _ _ _ _ _ Hchild) as [HV _].
    destruct (HOK3 Hc1) as [Hc3 Hlt].
    pose proof Hgrows as (Hlen & Hobj & Hvis13 & _).
    destruct (Hobj pd b Hb) as (b' & Hb' & Hsub' & _).
    split; [by apply (contextOK_dictAddValue it found _ c3)|].
    split; [simpl; rewrite length_alter; lia|].
    split.
    + apply (counted_storeAt _ pd found b').
      * done.
      * unfold ptrsOf, dictAddValue. rewrite Hsub', Hsub. simpl.
        apply dictPtrs_addValue; [apply PDFDictionary_of_keys|].
        by eapply PDFDictionary_of_again.
      * unfold dictAddValue, isStream, type. by rewrite Hsub', Hsub.
      * unfold dictAddValue. by rewrite Hsub', Hsub.
      * by apply (visitChild_why pd value c1 c3 found).
      * by apply (V_counted value c1 c3).
    + exists (dictAddValue it found b'), (kvs ++ [(it, found)]).
      split; [simpl; by rewrite list_lookup_alter_eq, Hb'|].
      split; [|split].
      * unfold dictAddValue. rewrite Hsub', Hsub. simpl.
        by rewrite PDFDictionary_of_snoc.
      * by rewrite fmap_app, Hkeys.
      * apply Forall_app_2.
        -- eapply Forall_impl; [exact Hkvs|].
           intros kq (value' & Hget' & Hq'). exists value'.
           split; [done|]. simpl. by eapply lookup_weaken.
        -- constructor; [|constructor]. by exists value.
Qed.


Lemma VisitArray_counts (array : PDFIdentifier) (ctx ctx' : Context)
  (found : ptr) (credit : list ptr) :
  contextOK ctx -> counted credit ctx ->
  VisitArray doc V array ctx = Ok ctx' ->
  visited ctx' !! array = Some found -> counted (found :: credit) ctx'.
Proof.
  intros Hctx Hcredit. unfold VisitArray.
  destruct (visited ctx !! array) as [q|] eqn:Hvis.
  { intros H. apply (inj Ok) in H as <-. simpl. intros Hq.
    assert (q = found) as -> by congruence.
    apply counted_incAt; [|done]. destruct Hctx as [_ Hv].
    by apply (Hv array found). }
  destruct (doc !! array) as [[| | | | | |items| |]|] eqn:Hdoc; try done.
  intros Hfold. set (pd := length (objectList ctx)) in *.
  cut (contextOK ctx' /\ (pd < length (objectList ctx'))%nat
       /\ visited ctx' !! array = Some pd
       /\ counted (pd :: credit) ctx'
       /\ exists b qs, objectList ctx' !! pd = Some b /\ _sub b = Array qs).
  { intros (_ & _ & Harray & Hc & _) Hfound.
    assert (pd = found) as <- by congruence. done. }
  revert Hfold.
  apply (fold_result_inv
    (fun c =>
       contextOK c /\ (pd < length (objectList c))%nat
       /\ visited c !! array = Some pd
       /\ counted (pd :: credit) c
       /\ exists b qs, objectList c !! pd = Some b /\ _sub b = Array qs)).
  - intros c1 value c2 (Hc1 & Hpd & Harray & Hcount1 & b & qs & Hb & Hsub).
    destruct (visitChild V value c1) as [[found' c3]| |] eqn:Hchild;
      try done.
    intros H. apply (inj Ok) in H as <-.
    destruct (visitChild_visitedFrom V V_visitedFrom _ _ _ _ Hchild)
      as (HOK3 & Hgrows & Hfound).
    destruct (visitChild_Ok_inv _ _ _ _ _ Hchild) as [HV _].
    destruct (HOK3 Hc1) as [Hc3 Hlt].
    pose proof Hgrows as (Hlen & Hobj & Hvis13 & _).
    destruct (Hobj pd b Hb) as (b' & Hb' & Hsub' & _).
    split; [by apply (contextOK_arrayAddValue found' _ c3)|].
    split; [simpl; rewrite length_alter; lia|].
    split; [simpl; by eapply lookup_weaken|].
    split.
    + apply (counted_storeAt _ pd found' b').
      * done.
      * unfold ptrsOf, arrayAddValue. by rewrite Hsub', Hsub.
      * unfold arrayAddValue, isStream, type. by rewrite Hsub', Hsub.
      * unfold arrayAddValue. by rewrite Hsub', Hsub.
      * by apply (visitChild_why pd value c1 c3 found').
      * by apply (V_counted value c1 c3).
    + exists (arrayAddValue found' b'), (qs ++ [found']).
      split; [simpl; by rewrite list_lookup_alter_eq, Hb'|].
      unfold arrayAddValue. by rewrite Hsub', Hsub.
  - split; [apply contextOK_register; [constructor|done]|].
    split; [rewrite register_objectList, length_app; simpl; lia|].
    split; [by rewrite register_visited, lookup_insert_eq|].
    split; [apply counted_register; try done; [by destruct Hctx|by left]|].
    exists (new (Array [])), [].
    split; [|done].
    rewrite register_objectList. by rewrite lookup_app_r, Nat.sub_diag.
Qed.

Lemma counted_move (found : ptr) (ptrs credit : list ptr) (ctx : Context) :
  counted (found :: ptrs ++ credit) ctx ->
  counted ((ptrs ++ [found]) ++ credit) ctx.
Proof.
  apply counted_equiv.
  - intros p. rewrite !occurrences_app, !occurrences_cons, occurrences_app.
    change (occurrences p []) with 0%nat. lia.
  - intros q. rewrite !elem_of_app, !elem_of_cons, elem_of_app, elem_of_nil.
    tauto.
Qed.

Lemma VisitStream_counts (stream : PDFIdentifier) (ctx ctx' : Context)
  (found : ptr) (credit : list ptr) :
  contextOK ctx -> counted credit ctx ->
  VisitStream doc V stream ctx = Ok ctx' ->
  visited ctx' !! stream = Some found -> counted (found :: credit) ctx'.
Proof.
  intros Hctx Hcredit Hvisit Hfound.
  destruct (VisitStream_visitedFrom doc V V_visitedFrom _ _ _ Hvisit)
    as (HOK & _ & _).
  destruct (HOK Hctx) as [_ Hbound]. clear HOK.
  specialize (Hbound stream found Hfound). simpl in Hbound.
  revert Hvisit Hfound Hbound. unfold VisitStream.
  destruct (visited ctx !! stream) as [q|] eqn:Hvis.
  { intros H. apply (inj Ok) in H as <-. simpl. intros Hq _.
    assert (q = found) as -> by congruence.
    apply counted_incAt; [|done]. destruct Hctx as [_ Hv].
    by apply (Hv stream found). }
  destruct (doc !! stream) as [[| | | | | | | |entries data format]|]
    eqn:Hdoc; try done.
  destruct (fold_result _ _ _) as [[newDict c]| |] eqn:Hfold; try done.
  intros H. apply (inj Ok) in H as <-.
  cut (contextOK c /\ newlyMirrored doc ctx c
       /\ counted (dictPtrs newDict ++ credit) c
       /\ exists kvs,
            newDict = PDFDictionary_of kvs
            /\ Forall (fun kq => exists value,
                         CGPDFDictionaryGetObject entries kq.1 = Some value
                         /\ visited c !! value = Some kq.2) kvs).
  { intros (Hc & Hnew & Hcount & _) Hfound Hbound.
    set (newStream := new (Stream _)) in *.
    assert (forall o, objectList (register stream newStream c)
                        !! length (objectList c) = Some o ->
                      isStream o = true) as Hlast.
    { intros o. rewrite register_objectList, lookup_app_r by done.
      rewrite Nat.sub_diag. by intros [= <-]. }
    apply (counted_stream (length (objectList c))); [done|done| |].
    - simpl in Hfound. rewrite lookup_map_insert in Hfound.
      destruct (visited c !! stream) as [k|] eqn:Hk.
      + injection Hfound as <-.
        destruct (Hnew stream k Hvis Hk) as (o & b & Ho & Hb & Hmirrors).
        assert (o = kCGPDFObjectTypeStream entries data format) as ->
          by congruence.
        destruct Hmirrors as (d & Hsub & _).
        intros o'. rewrite register_objectList.
        rewrite (lookup_app_l_Some _ _ _ _ Hb). intros [= <-].
        unfold isStream, type. by rewrite Hsub.
      + rewrite decide_True in Hfound by done. by injection Hfound as <-.
    - apply counted_register; [by destruct Hc|done|by right|done]. }
  revert Hfold.
  apply (fold_result_inv
    (fun (acc : PDFDictionary * Context) =>
       contextOK acc.2 /\ newlyMirrored doc ctx acc.2
       /\ counted (dictPtrs acc.1 ++ credit) acc.2
       /\ exists kvs,
            acc.1 = PDFDictionary_of kvs
            /\ Forall (fun kq => exists value,
                         CGPDFDictionaryGetObject entries kq.1 = Some value
                         /\ visited acc.2 !! value = Some kq.2) kvs)
    _ _ (PDFDictionary_new, ctx) (newDict, c)).
  - intros acc it acc' (Hc1 & Hnew1 & Hcount1 & kvs & Hdict & Hkvs).
    destruct (CGPDFDictionaryGetObject entries it) as [value|] eqn:Hget.
    2:{ intros H. apply (inj Ok) in H as <-. split; [done|].
        split; [done|]. split; [done|]. by exists kvs. }
    destruct (visitChild V value acc.2) as [[found' c3]| |] eqn:Hchild;
      try done.
    intros H. apply (inj Ok) in H as <-. cbn [fst snd].
    destruct (visitChild_visitedFrom V V_visitedFrom _ _ _ _ Hchild)
      as (HOK3 & Hgrows3 & Hfound').
    destruct (visitChild_Ok_inv _ _ _ _ _ Hchild) as [HV _].
    destruct (HOK3 Hc1) as [Hc3 Hlt].
    pose proof Hgrows3 as (_ & _ & Hsub & _).
    split; [done|]. split; [eapply newlyMirrored_trans; eauto|].
    split.
    + rewrite Hdict, dictPtrs_addValue.
      * apply counted_move. rewrite <- Hdict.
        by apply (V_counted value acc.2 c3).
      * apply PDFDictionary_of_keys.
      * by eapply PDFDictionary_of_again.
    + exists (kvs ++ [(it, found')]).
      split; [by rewrite PDFDictionary_of_snoc, Hdict|].
      apply Forall_app_2.
      * eapply Forall_impl; [exact Hkvs|].
        intros kq (value' & Hget' & Hq'). exists value'.
        split; [done|]. exact (lookup_weaken _ _ _ _ Hq' Hsub).
      * constructor; [|constructor]. by exists value.
  - split; [done|]. split; [apply newlyMirrored_refl|].
    split; [done|]. by exists [].
Qed.

End Counts.


Lemma VisitObject_counts (doc : CGPDFDocument) (fuel : nat)
  (obj : PDFIdentifier) (ctx ctx' : Context) (credit : list ptr)
  (found : ptr) :
  contextOK ctx -> counted credit ctx ->
  VisitObject doc fuel obj ctx = Ok ctx' ->
  visited ctx' !! obj = Some found -> counted (found :: credit) ctx'.
Proof.
  revert obj ctx ctx' credit found.
  induction fuel as [|fuel IH]; intros obj ctx ctx' credit found Hctx Hcredit;
    [done|].
  simpl. destruct (doc !! obj) as [o|] eqn:Ho; [|done].
  destruct (visited ctx !! obj) as [p|] eqn:Hvis.
  { intros H. apply (inj Ok) in H as <-. simpl. intros Hp.
    assert (p = found) as -> by congruence.
    apply counted_incAt; [|done]. destruct Hctx as [_ Hv].
    by apply (Hv obj found). }
  assert (forall v, ptrsOf (new v) = [] ->
            visited (register obj (new v) ctx) !! obj = Some found ->
            counted (found :: credit) (register obj (new v) ctx)) as Hscalar.
  { intros v Hv. rewrite register_visited, lookup_insert_eq by done.
    intros [= <-]. apply counted_register; [by destruct Hctx|done| |].
    - by left.
    - by rewrite Hv. }
  destruct o as [|b|v|v|v|v|items|entries|entries data format];
    try (unfold VisitNull, VisitBoolean, VisitInteger,
      VisitFloat, VisitName, VisitString, visitScalar; rewrite Hvis, Ho;
      simpl; intros H; apply (inj Ok) in H as <-; by apply Hscalar).
  - by apply (VisitArray_counts doc _ (VisitObject_visitedFrom doc fuel) IH).
  - destruct (VisitDict doc (VisitObject doc fuel) obj ctx)
      as [[p c]| |] eqn:Hdict; try done.
    intros H. apply (inj Ok) in H as <-. simpl. intros Hfound.
    destruct (VisitDict_visitedFrom doc _ (VisitObject_visitedFrom doc fuel)
                _ _ _ _ Hdict) as [_ Hp].
    assert (p = found) as -> by congruence.
    by apply (VisitDict_counts doc _ (VisitObject_visitedFrom doc fuel) IH
                obj ctx c found).
  - by apply (VisitStream_counts doc _ (VisitObject_visitedFrom doc fuel)
                (VisitObject_newlyMirrored doc fuel) IH).
Qed.

(** X22: the reference count of an object is the number of references to
    it.  After a visit of a dictionary that returns, an object that is not
    a stream has as count, in [size_t], the number of pointers to it stored
    in the arrays, dictionaries and streams of the list, one for each key
    listed, and held by the callers of [VisitDict], one for each call; and
    a pointer to it is held by a caller or stored in a stream or in an
    object before it in the list. *)
Theorem VisitDict_counted (doc : CGPDFDocument) (fuel : nat)
  (dict : PDFIdentifier) (ctx ctx' : Context) (p : ptr)
  (credit : list ptr) :
  contextOK ctx -> counted credit ctx ->
  VisitDict doc (VisitObject doc fuel) dict ctx = Ok (p, ctx') ->
  counted (p :: credit) ctx'.
Proof.
  intros Hctx Hcredit Hvisit.
  apply (VisitDict_counts doc _ (VisitObject_visitedFrom doc fuel)
           (VisitObject_counts doc fuel) dict ctx ctx' p credit Hctx Hcredit
           Hvisit).
Qed.


(** ** [SavePDF] returns on what the builder has made *)

Lemma occurrences_le (p : ptr) (l : list ptr) :
  (occurrences p l <= length l)%nat.
Proof. unfold occurrences. apply length_filter. Qed.

Lemma refsTo_delete (l : list PDFObject) (p : nat) (o : PDFObject)
  (q : ptr) :
  l !! p = Some o ->
  refsTo l q = (occurrences q (ptrsOf o) + refsTo (delete p l) q)%nat.
Proof.
  revert p. induction l as [|o' l IH]; intros [|p] Hp; try done.
  - injection Hp as ->. simpl. by rewrite refsTo_cons.
  - change (delete (S p) (o' :: l)) with (o' :: delete p l).
    rewrite !refsTo_cons, (IH p Hp). lia.
Qed.

(** Two objects with a pointer to [q] are two references to [q]. *)
Lemma refsTo_two (l : list PDFObject) (p p' : nat) (o o' : PDFObject)
  (q : ptr) :
  l !! p = Some o -> l !! p' = Some o' -> p <> p' ->
  q ∈ ptrsOf o -> q ∈ ptrsOf o' -> (2 <= refsTo l q)%nat.
Proof.
  intros Hp Hp' Hne Hq Hq'.
  apply occurrences_pos in Hq, Hq'.
  rewrite (refsTo_delete l p o q Hp).
  assert (exists j, delete p l !! j = Some o') as [j Hj].
  { destruct (decide (p' < p)%nat).
    - exists p'. by rewrite list_lookup_delete_lt.
    - exists (p' - 1)%nat. rewrite list_lookup_delete_ge by lia.
      by replace (S (p' - 1)) with p' by lia. }
  rewrite (refsTo_delete _ j o' q Hj). lia.
Qed.

(** The counts order the objects written inside others, as long as a
    count does not overflow. *)
Lemma counted_inlineForward (credit : list ptr) (ctx : Context) :
  Z.of_nat (length (objectList ctx ≫= ptrsOf) + length credit) < 2 ^ 64 ->
  counted credit ctx -> inlineForward (objectList ctx).
Proof.
  intros Hmax [_ Hcount] p o q t Hp Hso Hq Ht Hinline.
  unfold indirect in Hinline.
  apply orb_false_iff in Hinline as [Hinline _].
  apply orb_false_iff in Hinline as [Hrc Hst].
  apply Z.ltb_ge in Hrc.
  destruct (Hcount q t Ht Hst) as [Hrefs Hparent].
  pose proof (occurrences_le q (objectList ctx ≫= ptrsOf)) as Hle1.
  pose proof (occurrences_le q credit) as Hle2.
  fold (refsTo (objectList ctx) q) in Hle1.
  assert (1 <= refsTo (objectList ctx) q)%nat as Hone.
  { rewrite (refsTo_delete _ p o q Hp).
    pose proof (occurrences_pos q _ Hq). lia. }
  unfold wrap_size in Hrefs. rewrite Z.mod_small in Hrefs by lia.
  destruct Hparent as [Hin|(p' & o' & Hp' & Hq' & Hwhy)].
  { apply occurrences_pos in Hin. lia. }
  destruct (decide (p = p')) as [<-|Hne].
  - assert (o' = o) as -> by congruence.
    destruct Hwhy as [Hlt|Hs]; [done|congruence].
  - pose proof (refsTo_two _ p p' o o' q Hp Hp' Hne Hq Hq'). lia.
Qed.

Lemma inlineForward_Forall2 (R : PDFObject -> PDFObject -> Prop)
  (l l' : list PDFObject) :
  (forall o o', R o o' -> ptrsOf o' = ptrsOf o /\ isStream o' = isStream o
                          /\ indirect o' = indirect o) ->
  Forall2 R l l' -> inlineForward l -> inlineForward l'.
Proof.
  intros HR Hl Hforward p o' q t' Hp Hso Hq Ht Hinline.
  destruct (Forall2_lookup_r _ _ _ _ _ Hl Hp) as (o & Ho & Hoo').
  destruct (Forall2_lookup_r _ _ _ _ _ Hl Ht) as (t & Ht0 & Htt').
  destruct (HR o o' Hoo') as (Hptrs & Hs & _).
  destruct (HR t t' Htt') as (_ & _ & Hind).
  apply (Hforward p o q t Ho); congruence.
Qed.


Lemma for_each_Ok {A : Type} (body : A -> result string) (l : list A) :
  (forall x, x ∈ l -> exists r, body x = Ok r) ->
  exists rs, for_each body l = Ok rs.
Proof.
  induction l as [|x l IH]; intros Hbody; [by eexists|]. simpl.
  destruct (Hbody x) as [r ->]; [left|].
  destruct IH as [rs ->]; [intros y Hy; apply Hbody; by right|].
  by eexists.
Qed.

Section WriteReturns.

Variable objectList : list PDFObject.
Hypothesis objectList_OK : heapOK objectList.

Variable W : PDFObject -> result string.

(** The objects [W] returns on. *)
Variable ready : ptr -> Prop.
Hypothesis W_returns : forall q t,
  objectList !! q = Some t -> indirect t = false -> ready q ->
  exists w, W t = Ok w.

Lemma writeChild_returns (p : ptr) (sep : string) :
  (p < length objectList)%nat ->
  (forall t, objectList !! p = Some t -> indirect t = false -> ready p) ->
  exists r, writeChild W objectList (Some p) sep = Ok r.
Proof.
  intros Hp Hready. apply lookup_lt_is_Some in Hp as [t Ht].
  unfold writeChild, deref. rewrite Ht. simpl.
  destruct (indirect t) eqn:Hind; [by eexists|].
  destruct (W_returns p t Ht Hind (Hready t Ht Hind)) as [w ->].
  by eexists.
Qed.

Lemma dictPtrs_value_at (dict : PDFDictionary) (i : nat) (o_key : string) :
  dictOK (length objectList) dict ->
  (i < PDFDictionary_count dict)%nat ->
  exists p name,
    PDFDictionary_value_at dict i o_key = Ok (Some p, name)
    /\ (p < length objectList)%nat /\ p ∈ dictPtrs dict.
Proof.
  intros Hdict Hi.
  destruct (dictOK_value_at objectList dict i o_key Hdict Hi)
    as (p & name & Hat & Hp).
  exists p, name. split; [done|]. split; [done|].
  unfold PDFDictionary_value_at in Hat.
  destruct (PDFDictionary_count dict <? i)%nat; [done|].
  destruct (_order dict !! i) as [k|] eqn:Hk; [|done].
  apply (inj Ok) in Hat. injection Hat as Hvalue <-.
  apply list_elem_of_omap. exists k.
  split; [by eapply list_elem_of_lookup_2|done].
Qed.

Lemma writeEntry_returns (dict : PDFDictionary) (i : nat) :
  dictOK (length objectList) dict ->
  (i < PDFDictionary_count dict)%nat ->
  (forall q t, q ∈ dictPtrs dict -> objectList !! q = Some t ->
               indirect t = false -> ready q) ->
  exists r, writeEntry W objectList dict i = Ok r.
Proof.
  intros Hdict Hi Hready.
  destruct (dictPtrs_value_at dict i EmptyString Hdict Hi)
    as (p & name & Hat & Hp & Hin).
  unfold writeEntry. rewrite Hat. simpl.
  destruct (writeChild_returns p LF Hp) as [r ->]; [by eauto|].
  by eexists.
Qed.

Lemma writeStreamEntry_returns (dict : PDFDictionary)
  (convData : ConvData) (i : nat) :
  dictOK (length objectList) dict ->
  (i < PDFDictionary_count dict)%nat ->
  (forall q t, q ∈ dictPtrs dict -> objectList !! q = Some t ->
               indirect t = false -> ready q) ->
  exists r, writeStreamEntry W objectList dict convData i = Ok r.
Proof.
  intros Hdict Hi Hready.
  destruct (dictPtrs_value_at dict i EmptyString Hdict Hi)
    as (p & name & Hat & Hp & Hin).
  unfold writeStreamEntry. rewrite Hat. simpl.
  destruct (String.eqb name "Filter"); [by eexists|].
  destruct (String.eqb name "Length"); [by eexists|].
  destruct (writeChild_returns p LF Hp) as [r ->]; [by eauto|].
  by eexists.
Qed.

Lemma isMetadata_returns (dict : PDFDictionary) :
  dictOK (length objectList) dict ->
  exists metadata, isMetadata objectList dict = Ok metadata.
Proof.
  intros [_ Hptrs]. unfold isMetadata.
  destruct (PDFDictionary_value dict "Type") as [p|] eqn:Hp;
    [|by eexists].
  destruct (deref_heapOK objectList objectList_OK p) as (t & -> & _);
    [by apply (Hptrs "Type")|].
  simpl. unfold asName, isName, type.
  destruct (_sub t); simpl; by eexists.
Qed.

(** An object is written when the objects written inside it are. *)
Lemma WriteObject_step (obj : PDFObject) (fuel : nat) :
  W = WriteObject fuel objectList ->
  ptrsOK (length objectList) obj ->
  (forall q t, q ∈ ptrsOf obj -> objectList !! q = Some t ->
               indirect t = false -> ready q) ->
  exists w, WriteObject (S fuel) objectList obj = Ok w.
Proof.
  intros HW Hptrs Hready. simpl. rewrite <- HW.
  unfold ptrsOK in Hptrs. unfold ptrsOf in Hready.
  destruct (_sub obj) as [b|n|v|v|v|dict|st|]; try by eexists.
  - destruct (for_each_Ok
      (fun i => o ← PDFArray_value v i;
                writeChild W objectList (Some o) " ")
      (seq 0 (PDFArray_count v))) as [body ->]; [|by eexists].
    intros i Hi. apply elem_of_seq in Hi as [_ Hi]. simpl in Hi.
    apply lookup_lt_is_Some in Hi as [p Hp].
    unfold PDFArray_value. rewrite Hp. simpl.
    apply writeChild_returns.
    + by apply (Forall_lookup_1 _ _ _ _ Hptrs Hp).
    + intros t Ht Hind. apply (Hready p t); [|done|done].
      by eapply list_elem_of_lookup_2.
  - destruct (for_each_Ok (writeEntry W objectList dict)
                (seq 0 (PDFDictionary_count dict))) as [body ->];
      [|by eexists].
    intros i Hi. apply elem_of_seq in Hi as [_ Hi]. simpl in Hi.
    by apply writeEntry_returns.
  - destruct (isMetadata_returns (_dict st) Hptrs) as [metadata ->].
    simpl.
    destruct (for_each_Ok
      (writeStreamEntry W objectList (_dict st)
         (convertData (_data st) (doASCII_of metadata st)))
      (seq 0 (PDFDictionary_count (_dict st)))) as [body ->];
      [|by eexists].
    intros i Hi. apply elem_of_seq in Hi as [_ Hi]. simpl in Hi.
    by apply writeStreamEntry_returns.
Qed.

End WriteReturns.


Lemma indirect_false_isStream (t : PDFObject) :
  indirect t = false -> isStream t = false.
Proof.
  unfold indirect. intros H.
  apply orb_false_iff in H as [H _]. by apply orb_false_iff in H as [_ H].
Qed.

(** An object that is not a stream is written with fuel for the objects
    after it. *)
Lemma WriteObject_inline_returns (l : list PDFObject) :
  heapOK l -> inlineForward l ->
  forall k p o,
    l !! p = Some o -> isStream o = false -> (length l - p <= k)%nat ->
    exists w, WriteObject (S k) l o = Ok w.
Proof.
  intros Hheap Hforward k.
  induction k as [|k IH]; intros p o Hp Hso Hk.
  { apply lookup_lt_Some in Hp. lia. }
  apply (WriteObject_step l Hheap (WriteObject (S k) l)
           (fun q => (p < q)%nat)).
  - intros q t Ht Hind Hq. apply (IH q t Ht).
    + by apply indirect_false_isStream.
    + lia.
  - done.
  - by apply (Forall_lookup_1 _ _ _ _ Hheap Hp).
  - intros q t Hq Ht Hind. by apply (Hforward p o q t).
Qed.

(** Any object of the list is written with fuel for the list and two. *)
Lemma WriteObject_returns (l : list PDFObject) (k : nat) (o : PDFObject) :
  heapOK l -> inlineForward l -> o ∈ l -> (S (length l) <= k)%nat ->
  exists w, WriteObject (S k) l o = Ok w.
Proof.
  intros Hheap Hforward Ho Hk.
  apply (WriteObject_step l Hheap (WriteObject k l) (fun _ => True)).
  - intros q t Ht Hind _. destruct k as [|k]; [lia|].
    apply (WriteObject_inline_returns l Hheap Hforward k q t Ht).
    + by apply indirect_false_isStream.
    + lia.
  - done.
  - by apply (proj1 (Forall_forall _ _) Hheap).
  - done.
Qed.


(** A stream, or any object whose pointers stay in the list, is written
    with fuel for the list and two. *)
Lemma WriteObject_over_returns (l : list PDFObject) (k : nat)
  (o : PDFObject) :
  heapOK l -> inlineForward l -> ptrsOK (length l) o ->
  (S (length l) <= k)%nat ->
  exists w, WriteObject (S k) l o = Ok w.
Proof.
  intros Hheap Hforward Ho Hk.
  apply (WriteObject_step l Hheap (WriteObject k l) (fun _ => True)).
  - intros q t Ht Hind _. destruct k as [|k]; [lia|].
    apply (WriteObject_inline_returns l Hheap Hforward k q t Ht).
    + by apply indirect_false_isStream.
    + lia.
  - done.
  - done.
  - done.
Qed.

(** C7: a stream over a list of objects whose pointers stay in the list,
    where an object written inside another one comes after it, is written;
    when its [Type] is the Name ["Metadata"], or its [outputAsText] hint is
    set, it is written with its raw bytes and no [Filter] entry; every
    other stream is written hex-armored, after the [Filter] entry of its
    source encoding. *)
Theorem WriteObject_stream_encoding (fuel : nat)
  (objectList : list PDFObject) (obj : PDFObject) (st : PDFStream) :
  _sub obj = Stream st ->
  heapOK objectList ->
  inlineForward objectList ->
  ptrsOK (length objectList) obj ->
  (length objectList < fuel)%nat ->
  exists out values,
    WriteObject (S fuel) objectList obj = Ok out
    /\ Forall (fun key => key <> "Filter") (writtenKeys (_dict st))
    /\ length values = length (writtenKeys (_dict st))
    /\ let entries :=
         join (zip_with keyThenValue (writtenKeys (_dict st)) values) in
       ((TypeIsMetadata objectList (_dict st) \/ outputAsText st = true)
        /\ out = "<<" +:+ LF +:+ entries
                 +:+ ">>" +:+ LF +:+ "stream" +:+ LF
                 +:+ String.string_of_list_byte (_data st)
                 +:+ LF +:+ "endstream")
       \/ (~ TypeIsMetadata objectList (_dict st)
           /\ outputAsText st = false
           /\ out = "<<" +:+ LF +:+ filterDeclared (_format st) +:+ entries
                    +:+ ">>" +:+ LF +:+ "stream" +:+ LF
                    +:+ hexArmorEvery 40 (_data st)
                    +:+ LF +:+ "endstream").
Proof.
  intros Hsub Hheap Hforward Hptrs Hfuel.
  destruct (WriteObject_over_returns objectList fuel obj
              Hheap Hforward Hptrs) as [out Hout]; [lia|].
  destruct (WriteObject_stream_shape fuel objectList obj st out Hsub Hout)
    as (values & Hshape).
  by exists out, values.
Qed.

Lemma locateContents_returns (l : list PDFObject) (it : nat) :
  heapOK l -> (it < length l)%nat -> exists l', locateContents l it = Ok l'.
Proof.
  intros Hheap Hit. unfold locateContents.
  destruct (deref_heapOK l Hheap it Hit) as (this & -> & Hthis).
  rewrite result_bind_Ok. unfold ptrsOK in Hthis.
  destruct (asDictionary this) as [dict|] eqn:Hdict.
  - rewrite (asDictionary_Some _ _ Hdict) in Hthis.
    destruct Hthis as [_ Hptrs].
    destruct (PDFDictionary_value dict "Type") as [p|] eqn:Hp;
      [|by eexists].
    destruct (deref_heapOK l Hheap p) as (obj & -> & _);
      [by apply (Hptrs "Type")|].
    rewrite result_bind_Ok. destruct (asName obj) as [type_|]; [|by eexists].
    destruct (String.eqb type_ "Page"); [|by eexists].
    destruct (PDFDictionary_value dict "Contents") as [pc|] eqn:Hpc;
      [|by eexists].
    destruct (deref_heapOK l Hheap pc) as (contents & -> & _);
      [by apply (Hptrs "Contents")|].
    rewrite result_bind_Ok. destruct (asStream contents); by eexists.
  - destruct (asStream this) as [stream|] eqn:Hstream; [|by eexists].
    rewrite (asStream_Some _ _ Hstream) in Hthis.
    destruct Hthis as [_ Hptrs].
    destruct (PDFDictionary_value (_dict stream) "FunctionType")
      as [p|] eqn:Hp; [|by eexists].
    destruct (deref_heapOK l Hheap p) as (obj & -> & _);
      [by apply (Hptrs "FunctionType")|].
    rewrite result_bind_Ok. destruct (asNumber obj) as [num|]; [|by eexists].
    destruct (intValue num =? 4); by eexists.
Qed.

Lemma fold_locateContents_returns (its : list nat) (l : list PDFObject) :
  heapOK l -> Forall (fun it => (it < length l)%nat) its ->
  exists l', fold_result locateContents its l = Ok l'.
Proof.
  revert l. induction its as [|it its IH]; intros l Hheap Hits;
    [by eexists|].
  apply Forall_cons in Hits as [Hit Hits]. simpl.
  destruct (locateContents_returns l it Hheap Hit) as [l1 H1].
  rewrite H1. simpl. apply locateContents_sameButText in H1.
  apply IH; [by eapply heapOK_sameButText|].
  by rewrite <- (Forall2_length _ _ _ H1).
Qed.

(** With fuel for the list and two more, [SavePDF] returns on a list
    whose pointers are inside it and whose objects written inside others
    come after them. *)
Lemma SavePDF_returns (seekable : bool)
  (fuel : nat) (majorVersion minorVersion : Z)
  (objectList : list PDFObject) (i_root i_info : ptr) :
  heapOK objectList -> inlineForward objectList ->
  (i_root < length objectList)%nat -> (i_info < length objectList)%nat ->
  (length objectList + 2 <= fuel)%nat ->
  exists out,
    SavePDF seekable fuel majorVersion minorVersion objectList i_root i_info
    = Ok out.
Proof.
  intros Hheap Hforward Hroot Hinfo Hfuel. unfold SavePDF.
  pose proof (heapOK_assignIDs 0 objectList Hheap) as Hheap1.
  pose proof (assignIDs_same 0 objectList) as Hsame.
  destruct (fold_locateContents_returns
              (seq 0 (length (assignIDs 0 objectList)))
              (assignIDs 0 objectList) Hheap1) as [marked Hmark].
  { apply Forall_forall. intros it Hit. apply elem_of_seq in Hit. lia. }
  rewrite Hmark, result_bind_Ok.
  apply fold_locateContents_sameButText in Hmark.
  pose proof (heapOK_sameButText _ _ Hmark Hheap1) as Hheap2.
  assert (length marked = length objectList) as Hlen.
  { rewrite <- (Forall2_length _ _ _ Hmark).
    symmetry. apply (Forall2_length _ _ _ Hsame). }
  assert (inlineForward marked) as Hforward2.
  { apply (inlineForward_Forall2 sameButText (assignIDs 0 objectList)).
    - intros o o' Hoo'.
      destruct (sameButText_as o o' Hoo') as (Hd & _ & _ & Hs & Hst).
      destruct (sameButText_indirect o o' Hoo') as [Hind _].
      split; [|by split].
      unfold ptrsOf. unfold asDictionary, asStream, isDictionary, isStream,
        type in *.
      destruct Hoo' as [->| ->]; [done|]. unfold setOutputAsText.
      by destruct (_sub o) eqn:Hsub; simpl; rewrite ?Hsub.
    - done.
    - eapply inlineForward_Forall2; [|exact Hsame|exact Hforward].
      intros o o' (Hrc & Hsub & _).
      destruct (ptrsOf_sub o o' Hsub) as [-> ->].
      split; [done|]. split; [done|].
      unfold indirect, isStream, isDictionary, type.
      by rewrite Hrc, Hsub. }
  destruct (fold_result_Ok (fun _ => True) (fun o => o ∈ marked)
              (writeIndirect seekable fuel marked) marked
              (writeHeader majorVersion minorVersion, ∅))
    as ([s xref] & -> & _).
  - intros acc current _ Hcurrent. unfold writeIndirect.
    destruct (indirect current); [|by eexists].
    destruct fuel as [|k]; [lia|].
    destruct (WriteObject_returns marked k current Hheap2 Hforward2
                Hcurrent) as [w ->]; [lia|].
    by eexists.
  - by apply Forall_forall.
  - done.
  - rewrite result_bind_Ok.
    destruct (deref_heapOK marked Hheap2 i_root) as (root & Hr & _); [lia|].
    destruct (deref_heapOK marked Hheap2 i_info) as (info & Hi & _); [lia|].
    cbv beta iota. rewrite Hr, result_bind_Ok, Hi. by eexists.
Qed.


(** X23: [SavePDF] returns on what the builder has made.  When both
    visits of [main] have returned and the objects hold fewer than
    [2^64 - 2] pointers, so that no reference count has overflowed, then
    [SavePDF] returns its output: an object written inside another one is
    referred to once, from an object before it in the list or from a
    stream, so that [WriteObject] does not go deeper than the list is
    long. *)
Theorem SavePDF_after_VisitDict (seekable : bool)
  (doc : CGPDFDocument) (fuel fuel' : nat)
  (catalog info : PDFIdentifier) (rootObj infoObj : ptr)
  (ctx1 ctx2 : Context) (majorVersion minorVersion : Z) :
  VisitDict doc (VisitObject doc fuel) catalog Context_new
  = Ok (rootObj, ctx1) ->
  VisitDict doc (VisitObject doc fuel) info ctx1 = Ok (infoObj, ctx2) ->
  Z.of_nat (length (objectList ctx2 ≫= ptrsOf)) + 2 < 2 ^ 64 ->
  (length (objectList ctx2) + 2 <= fuel')%nat ->
  exists out,
    SavePDF seekable fuel' majorVersion minorVersion (objectList ctx2)
      rootObj infoObj
    = Ok out.
Proof.
  intros H1 H2 Hmax Hfuel.
  pose proof (fun dict ctx ctx' p =>
    VisitDict_visitedFrom doc _ (VisitObject_visitedFrom doc fuel)
      dict ctx ctx' p) as Hvisit.
  pose proof (fun dict ctx ctx' p credit =>
    VisitDict_counts doc _ (VisitObject_visitedFrom doc fuel)
      (VisitObject_counts doc fuel) dict ctx ctx' p credit) as Hcounts.
  destruct (Hvisit _ _ _ _ H1) as ((HOK1 & _ & _) & Hroot).
  destruct (Hvisit _ _ _ _ H2) as ((HOK2 & Hgrows & _) & Hinfo).
  pose proof (HOK1 contextOK_new) as Hctx1.
  pose proof (HOK2 Hctx1) as Hctx2.
  pose proof (Hcounts _ _ _ _ _ contextOK_new counted_new H1) as Hc1.
  pose proof (Hcounts _ _ _ _ _ Hctx1 Hc1 H2) as Hc2.
  destruct Hctx2 as [Hheap Hvis].
  apply SavePDF_returns; [done| | | |done].
  - apply (counted_inlineForward [infoObj; rootObj]); [|done].
    simpl length. lia.
  - destruct Hgrows as (_ & _ & Hsub & _).
    apply (Hvis catalog rootObj). by eapply lookup_weaken.
  - by apply (Hvis info infoObj).
Qed.


(** ** Documents without streams are converted *)

Lemma length_bind_le (M : nat) (l : list PDFObject) :
  Forall (fun o => (length (ptrsOf o) <= M)%nat) l ->
  (length (l ≫= ptrsOf) <= length l * M)%nat.
Proof.
  induction 1 as [|o l Ho Hl IH]; [done|].
  rewrite bind_cons, length_app. simpl. lia.
Qed.

Lemma length_omap_le {A B : Type} (f : A -> option B) (l : list A) :
  (length (omap f l) <= length l)%nat.
Proof.
  induction l as [|x l IH]; [done|]. csimpl.
  destruct (f x); simpl; lia.
Qed.

(** An object has no more pointers than its node has children. *)
Lemma mirrors_ptrsOf_length (vis : gmap PDFIdentifier ptr)
  (o : CGPDFObject) (b : PDFObject) :
  mirrors vis o (_sub b) -> (length (ptrsOf b) <= length (children o))%nat.
Proof.
  unfold ptrsOf. destruct o; simpl; try by intros ->.
  - intros (qs & -> & Hqs). by rewrite (Forall2_length _ _ _ Hqs).
  - intros (d & -> & Horder & _). unfold dictPtrs.
    etrans; [apply length_omap_le|].
    rewrite Horder. unfold dictVisitor. by rewrite !length_fmap.
  - intros (d & -> & Horder & _). unfold dictPtrs. simpl.
    etrans; [apply length_omap_le|].
    rewrite Horder. unfold dictVisitor. by rewrite !length_fmap.
Qed.

Lemma VisitDict_eachHasId (doc : CGPDFDocument) (fuel : nat)
  (dict : PDFIdentifier) (ctx ctx' : Context) (p : ptr) :
  streamFree doc -> eachHasId ctx ->
  VisitDict doc (VisitObject doc fuel) dict ctx = Ok (p, ctx') ->
  eachHasId ctx'.
Proof.
  intros Hfree.
  assert (forall q c, eachHasId c -> eachHasId (incAt q c)) as HincAt.
  { intros q c Hc r. simpl. rewrite length_alter. apply Hc. }
  assert (forall id v c, (forall st, v <> Stream st) ->
            visited c !! id = None -> eachHasId c ->
            eachHasId (register id (new v) c)) as Hregister.
  { intros id v c _ Hid Hc r.
    rewrite register_visited, register_objectList, length_app by done.
    simpl. intros Hr.
    destruct (decide (r = length (objectList c))) as [->|Hne].
    - exists id. by rewrite lookup_insert_eq.
    - destruct (Hc r) as [id' Hid']; [lia|]. exists id'.
      rewrite lookup_insert_ne; [done|]. congruence. }
  assert (forall f q c, eachHasId c -> eachHasId (storeAt f q c))
    as HstoreAt.
  { intros f q c Hc r. simpl. rewrite length_alter. apply Hc. }
  apply (VisitDict_inv doc eachHasId); auto.
  intros value c c'.
  apply (VisitObject_inv doc eachHasId); auto.
  intros id entries data format st c0 Hid.
  by destruct (Hfree id entries data format).
Qed.


(** X24: a document without streams is converted.  For a document whose
    nodes have their children in the document, none of them a stream and
    each with at most [M] children, with dictionaries as catalog and info,
    the two visits and [SavePDF] return the output, whatever the cycles
    and the sharing, once the recursion may be two deeper than the
    document has nodes, as long as no reference count can overflow. *)
Theorem convert_returns (seekable : bool) (doc : CGPDFDocument) (fuel : nat)
  (catalog info : PDFIdentifier) (entries1 entries2 : list (string * nat))
  (majorVersion minorVersion : Z) (M : nat) :
  wellFormed doc -> streamFree doc ->
  doc !! catalog = Some (kCGPDFObjectTypeDictionary entries1) ->
  doc !! info = Some (kCGPDFObjectTypeDictionary entries2) ->
  (forall id o, doc !! id = Some o -> (length (children o) <= M)%nat) ->
  Z.of_nat (size (dom doc) * M) + 2 < 2 ^ 64 ->
  (size (dom doc) + 2 <= fuel)%nat ->
  exists out,
    convert doc seekable fuel catalog info majorVersion minorVersion = Ok out.
Proof.
  intros Hwf Hfree Hcatalog Hinfo HM Hmax Hfuel.
  assert (forall ctx, size (unvisited doc ctx) <= fuel)%nat as Hunvisited.
  { intros ctx.
    assert (size (unvisited doc ctx) <= size (dom doc))%nat; [|lia].
    apply subseteq_size. unfold unvisited. by apply subseteq_difference_l. }
  destruct (VisitDict_returns doc Hwf (VisitObject doc fuel) fuel
              (VisitObject_returns doc Hwf Hfree fuel)
              catalog entries1 Context_new Hcatalog (Hunvisited _))
    as (rootObj & _ & ctx1 & H1).
  destruct (VisitDict_returns doc Hwf (VisitObject doc fuel) fuel
              (VisitObject_returns doc Hwf Hfree fuel)
              info entries2 ctx1 Hinfo (Hunvisited _))
    as (infoObj & _ & ctx2 & H2).
  unfold convert. rewrite H1, result_bind_Ok, H2, result_bind_Ok.
  pose proof (fun dict ctx ctx' p =>
    VisitDict_visitedFrom doc _ (VisitObject_visitedFrom doc fuel)
      dict ctx ctx' p) as Hvisit.
  destruct (Hvisit _ _ _ _ H1) as ((HOK1 & Hgrows1 & _) & Hroot).
  destruct (Hvisit _ _ _ _ H2) as ((HOK2 & Hgrows2 & _) & Hinfo').
  pose proof (HOK1 contextOK_new) as Hctx1.
  pose proof (HOK2 Hctx1) as Hctx2.
  pose proof (VisitDict_counts doc _ (VisitObject_visitedFrom doc fuel)
                (VisitObject_counts doc fuel) _ _ _ _ _
                contextOK_new counted_new H1) as Hc1.
  pose proof (VisitDict_counts doc _ (VisitObject_visitedFrom doc fuel)
                (VisitObject_counts doc fuel) _ _ _ _ _ Hctx1 Hc1 H2) as Hc2.
  assert (faithful doc ctx2) as Hfaithful.
  { pose proof (fun dict ctx ctx' p =>
      VisitDict_newlyMirrored doc _ (VisitObject_visitedFrom doc fuel)
        (VisitObject_newlyMirrored doc fuel) dict ctx ctx' p) as Hnew.
    pose proof (Hnew _ _ _ _ contextOK_new H1) as Hnew1.
    pose proof (Hnew _ _ _ _ Hctx1 H2) as Hnew2.
    intros id q Hq.
    by apply (newlyMirrored_trans doc Context_new ctx1 ctx2). }
  assert (eachHasId ctx2) as Hids.
  { apply (VisitDict_eachHasId doc fuel info ctx1 ctx2 infoObj Hfree);
      [|done].
    apply (VisitDict_eachHasId doc fuel catalog Context_new ctx1 rootObj
             Hfree); [|done].
    intros q Hq. simpl in Hq. lia. }
  assert (length (objectList ctx2) <= size (dom doc))%nat as Hlen.
  { rewrite (VisitDict_one_node_each doc fuel info ctx1 ctx2 infoObj Hfree
               (VisitDict_one_node_each doc fuel catalog Context_new ctx1
                  rootObj Hfree eq_refl H1) H2).
    rewrite <- size_dom. apply subseteq_size. intros id Hid.
    apply elem_of_dom in Hid as [q Hq].
    destruct (Hfaithful id q Hq) as (o & _ & Ho & _).
    by apply (elem_of_dom_2 _ _ o). }
  assert (Forall (fun o => (length (ptrsOf o) <= M)%nat) (objectList ctx2))
    as Hptrs.
  { apply Forall_lookup_2. intros q b Hb.
    destruct (Hids q) as [id Hid]; [by eapply lookup_lt_Some|].
    destruct (Hfaithful id q Hid) as (o & b' & Ho & Hb' & Hmirrors).
    assert (b' = b) as -> by congruence.
    etrans; [by eapply mirrors_ptrsOf_length|]. by eapply HM. }
  destruct Hctx2 as [Hheap Hvis].
  apply SavePDF_returns; [done| | | |lia].
  - apply (counted_inlineForward [infoObj; rootObj]); [|done].
    pose proof (length_bind_le M _ Hptrs). simpl length. nia.
  - destruct Hgrows2 as (_ & _ & Hsub & _).
    apply (Hvis catalog rootObj). by eapply lookup_weaken.
  - by apply (Hvis info infoObj).
Qed.


(** ** The numbering of the objects in the output *)

Lemma zip_with_objectWritten (written : list PDFObject)
  (texts : list string) :
  zip_with objectWritten written texts
  = zip_with numberedObject (getID <$> written) texts.
Proof.
  revert texts. induction written as [|o written IH]; intros [|w texts];
    try done.
  simpl. by rewrite IH.
Qed.

(** X25: the objects of the output are numbered 1, 2, ..., K in the
    order they are written in: after the header come K objects, K the
    number of indirect objects of the list, the first with the identifier
    1, each with the identifier after the one before it, and then the
    table. *)
Theorem SavePDF_numbered (seekable : bool)
  (fuel : nat) (majorVersion minorVersion : Z)
  (objectList : list PDFObject) (i_root i_info : ptr) (out : string) :
  Z.of_nat (countIndirect objectList) < 2 ^ 31 ->
  SavePDF seekable fuel majorVersion minorVersion objectList i_root i_info
  = Ok out ->
  exists (texts : list string) (rest : string),
    length texts = countIndirect objectList
    /\ out = writeHeader majorVersion minorVersion
             +:+ join (zip_with numberedObject
                         (seqZ 1 (Z.of_nat (countIndirect objectList)))
                         texts)
             +:+ "xref" +:+ LF +:+ rest.
Proof.
  intros Hmax Hsave. unfold SavePDF in Hsave.
  destruct (fold_result locateContents _ _) as [marked| |] eqn:Hmark;
    try done.
  simpl in Hsave.
  destruct (fold_result (writeIndirect seekable fuel marked) marked _)
    as [[s xref]| |] eqn:Hbody; try done.
  simpl in Hsave.
  destruct (marked !! i_root) as [root|] eqn:Hroot; try done.
  destruct (marked !! i_info) as [info|] eqn:Hinfo; try done.
  simpl in Hsave. apply (inj Ok) in Hsave as <-.
  destruct (fold_writeIndirect_body _ _ _ _ _ _ Hbody)
    as (texts & Htexts & Hs).
  cbn [fst] in Hs. subst s.
  apply fold_locateContents_sameButText, sameButText_ids in Hmark.
  rewrite (assignIDs_from 0) in Hmark by lia.
  exists texts. eexists. split.
  - rewrite <- (Forall2_length _ _ _ Htexts).
    rewrite <- (length_fmap getID), Hmark, length_seqZ. lia.
  - rewrite zip_with_objectWritten, Hmark. unfold writeXref.
    rewrite !string_app_assoc. reflexivity.
Qed.

(** ** A Name two dictionaries share *)

Lemma faithful_new (doc : CGPDFDocument) : faithful doc Context_new.
Proof. intros id p Hp. simpl in Hp. by rewrite lookup_empty in Hp. Qed.













End MoreProperties.

(** * The properties at work *)

Section Witnesses.

#[local] Existing Instance integral_floats.

(** ** Identifiers *)

Lemma assignIDs_dense_witness :
  Z.of_nat (countIndirect fourObjects) < 2 ^ 31
  /\ Forall (fun o => getID o = 0) fourObjects
  /\ getID <$> filter (fun o => indirect o = true) (assignIDs 0 fourObjects)
     = seqZ 1 (Z.of_nat (countIndirect fourObjects))
  /\ countIndirect (assignIDs 0 fourObjects) = countIndirect fourObjects
  /\ Forall (fun o => indirect o = false -> getID o = 0)
       (assignIDs 0 fourObjects)
  /\ Forall2 (fun o o' => _refCount o' = _refCount o /\ _sub o' = _sub o)
       fourObjects (assignIDs 0 fourObjects).
Proof.
  assert (Z.of_nat (countIndirect fourObjects) < 2 ^ 31) as Hmax
    by (vm_compute; reflexivity).
  assert (Forall (fun o => getID o = 0) fourObjects) as Hnew
    by (repeat constructor).
  split; [exact Hmax|]. split; [exact Hnew|].
  exact (assignIDs_dense fourObjects Hmax Hnew).
Defined.

Example fourObjects_ids :
  getID <$> assignIDs 0 fourObjects = [1; 0; 2; 3].
Proof. reflexivity. Qed.

(** ** The cross-reference table of two empty dictionaries *)

Lemma SavePDF_twoDictionaries :
  SavePDF true 1 1 4 twoDictionaries 0%nat 1%nat = Ok twoDictionariesOut.
Proof. vm_compute. reflexivity. Qed.

Lemma SavePDF_twoDictionaries_piped :
  SavePDF false 1 1 4 twoDictionaries 0%nat 1%nat = Ok twoDictionariesPiped.
Proof. vm_compute. reflexivity. Qed.

Lemma SavePDF_xref_count_witness :
  Z.of_nat (countIndirect twoDictionaries) < 2 ^ 31
  /\ SavePDF true 1 1 4 twoDictionaries 0%nat 1%nat = Ok twoDictionariesOut
  /\ exists (body : string) (xref : gmap Z nat) (root info : PDFObject),
       length (xrefLines xref) = S (countIndirect twoDictionaries)
       /\ twoDictionariesOut
          = body
            +:+ ("xref" +:+ LF
                 +:+ "0 " +:+ show_size (countIndirect twoDictionaries) +:+ LF
                 +:+ join (xrefLines xref))
            +:+ ("trailer" +:+ LF
                 +:+ "<< /Size " +:+ show_size (countIndirect twoDictionaries)
                 +:+ " /Root " +:+ show_int (getID root)
                 +:+ " 0 R /Info " +:+ show_int (getID info)
                 +:+ " 0 R>>" +:+ LF
                 +:+ "startxref" +:+ LF
                 +:+ show_size (offset true body) +:+ LF
                 +:+ "%%EOF" +:+ LF).
Proof.
  assert (Z.of_nat (countIndirect twoDictionaries) < 2 ^ 31) as Hmax
    by (vm_compute; reflexivity).
  split; [exact Hmax|]. split; [exact SavePDF_twoDictionaries|].
  exact (SavePDF_xref_count true 1 1 4 twoDictionaries 0%nat 1%nat
           twoDictionariesOut Hmax SavePDF_twoDictionaries).
Defined.

(** ** Streams *)








Lemma WriteObject_jpegStream_fuel :
  WriteObject 3 [new (Number (IntValue 1))] (new (Stream jpegStream))
  = Ok jpegStreamOut.
Proof. vm_compute. reflexivity. Qed.

Lemma WriteObject_metadataStream_fuel :
  WriteObject 3 [new (Name "Metadata")] (new (Stream metadataStream))
  = Ok metadataStreamOut.
Proof. vm_compute. reflexivity. Qed.

Lemma inlineForward_leaves (l : list PDFObject) :
  Forall (fun o => ptrsOf o = []) l -> inlineForward l.
Proof.
  intros Hl p o q t Hp _ Hq. exfalso.
  rewrite (Forall_lookup_1 _ _ _ _ Hl Hp) in Hq. by apply elem_of_nil in Hq.
Qed.

Lemma WriteObject_stream_encoding_witness :
  (_sub (new (Stream jpegStream)) = Stream jpegStream
   /\ heapOK [new (Number (IntValue 1))]
   /\ inlineForward [new (Number (IntValue 1))]
   /\ ptrsOK 1 (new (Stream jpegStream))
   /\ WriteObject 3 [new (Number (IntValue 1))] (new (Stream jpegStream))
      = Ok (lines [ "<<"; "/Filter [/ASCIIHexDecode /DCTDecode]";
                    "/Length 3"; ">>"; "stream"; "41"; "" ]
            +:+ "endstream")
   /\ exists out values,
        WriteObject 3 [new (Number (IntValue 1))] (new (Stream jpegStream))
        = Ok out
        /\ Forall (fun key => key <> "Filter") (writtenKeys (_dict jpegStream))
        /\ length values = length (writtenKeys (_dict jpegStream))
        /\ let entries :=
             join (zip_with keyThenValue (writtenKeys (_dict jpegStream))
                     values) in
           ((TypeIsMetadata [new (Number (IntValue 1))] (_dict jpegStream)
             \/ outputAsText jpegStream = true)
            /\ out = "<<" +:+ LF +:+ entries
                     +:+ ">>" +:+ LF +:+ "stream" +:+ LF
                     +:+ String.string_of_list_byte (_data jpegStream)
                     +:+ LF +:+ "endstream")
           \/ (~ TypeIsMetadata [new (Number (IntValue 1))]
                   (_dict jpegStream)
               /\ outputAsText jpegStream = false
               /\ out = "<<" +:+ LF +:+ filterDeclared (_format jpegStream)
                        +:+ entries
                        +:+ ">>" +:+ LF +:+ "stream" +:+ LF
                        +:+ hexArmorEvery 40 (_data jpegStream)
                        +:+ LF +:+ "endstream"))
  /\ (_sub (new (Stream metadataStream)) = Stream metadataStream
      /\ heapOK [new (Name "Metadata")]
      /\ inlineForward [new (Name "Metadata")]
      /\ ptrsOK 1 (new (Stream metadataStream))
      /\ WriteObject 3 [new (Name "Metadata")] (new (Stream metadataStream))
         = Ok (lines [ "<<"; "/Type /Metadata"; ">>"; "stream"; "A" ]
               +:+ "endstream")
      /\ exists out values,
           WriteObject 3 [new (Name "Metadata")]
             (new (Stream metadataStream))
           = Ok out
           /\ Forall (fun key => key <> "Filter")
                (writtenKeys (_dict metadataStream))
           /\ length values = length (writtenKeys (_dict metadataStream))
           /\ let entries :=
                join (zip_with keyThenValue
                        (writtenKeys (_dict metadataStream)) values) in
              ((TypeIsMetadata [new (Name "Metadata")]
                  (_dict metadataStream)
                \/ outputAsText metadataStream = true)
               /\ out = "<<" +:+ LF +:+ entries
                        +:+ ">>" +:+ LF +:+ "stream" +:+ LF
                        +:+ String.string_of_list_byte
                              (_data metadataStream)
                        +:+ LF +:+ "endstream")
              \/ (~ TypeIsMetadata [new (Name "Metadata")]
                      (_dict metadataStream)
                  /\ outputAsText metadataStream = false
                  /\ out = "<<" +:+ LF
                           +:+ filterDeclared (_format metadataStream)
                           +:+ entries
                           +:+ ">>" +:+ LF +:+ "stream" +:+ LF
                           +:+ hexArmorEvery 40 (_data metadataStream)
                           +:+ LF +:+ "endstream")).
Proof.
  assert (forall v, heapOK [new v] <-> ptrsOK 1 (new v)) as Hone.
  { intros v. unfold heapOK. split; [by inversion 1|by repeat constructor]. }
  assert (forall o, ptrsOf o = [] -> inlineForward [o]) as Hleaf.
  { intros o Ho. apply inlineForward_leaves. by repeat constructor. }
  assert (heapOK [new (Number (IntValue 1))]) as Hheap1 by by apply Hone.
  assert (heapOK [new (Name "Metadata")]) as Hheap2 by by apply Hone.
  assert (ptrsOK 1 (new (Stream jpegStream))) as Hptrs1.
  { apply dictOK_addValue; [lia|].
    apply dictOK_addValue; [lia|apply dictOK_new]. }
  assert (ptrsOK 1 (new (Stream metadataStream))) as Hptrs2.
  { apply dictOK_addValue; [lia|apply dictOK_new]. }
  split.
  - split; [reflexivity|]. split; [exact Hheap1|].
    split; [by apply Hleaf|]. split; [exact Hptrs1|].
    split; [exact WriteObject_jpegStream_fuel|].
    exact (WriteObject_stream_encoding 2 [new (Number (IntValue 1))]
             (new (Stream jpegStream)) jpegStream eq_refl Hheap1
             (Hleaf (new (Number (IntValue 1))) eq_refl) Hptrs1 (le_n 2)).
  - split; [reflexivity|]. split; [exact Hheap2|].
    split; [by apply Hleaf|]. split; [exact Hptrs2|].
    split; [exact WriteObject_metadataStream_fuel|].
    exact (WriteObject_stream_encoding 2 [new (Name "Metadata")]
             (new (Stream metadataStream)) metadataStream eq_refl Hheap2
             (Hleaf (new (Name "Metadata")) eq_refl) Hptrs2 (le_n 2)).
Defined.

(** A stream with the [outputAsText] hint is written as it is. *)
Example WriteObject_textStream :
  WriteObject 1 []
    (new (Stream {| _dict := PDFDictionary_new; _data := ["A"%byte];
                    _format := CGPDFDataFormatRaw;
                    outputAsText := true |}))
  = Ok (lines [ "<<"; ">>"; "stream"; "A" ] +:+ "endstream").
Proof. vm_compute. reflexivity. Qed.

(** The metadata stream without the [Type] entry is armored. *)
Example WriteObject_jpeg2000Stream :
  WriteObject 1 []
    (new (Stream {| _dict := PDFDictionary_new; _data := ["A"%byte];
                    _format := CGPDFDataFormatJPEG2000;
                    outputAsText := false |}))
  = Ok (lines [ "<<"; "/Filter [/ASCIIHexDecode /JPXDecode]"; ">>";
                "stream"; "41"; "" ] +:+ "endstream").
Proof. vm_compute. reflexivity. Qed.

(** ** Keys and Names with a space *)



(** ** A Name shared by the catalog and the info dictionary *)

Example convert_sharedNameDoc :
  convert sharedNameDoc true 2 0%nat 1%nat 1 4 = Ok sharedNameOut.
Proof. vm_compute. reflexivity. Qed.





(** With other values around it the shared Name is still the one object
    2, referred to from both dictionaries; their own values are inline. *)
Example convert_catalogInfoDoc :
  convert catalogInfoDoc true 3 0%nat 1%nat 1 4
  = Ok (lines [ "%PDF-1.4"; "%...";
                "1 0 obj"; "<<"; "/Type /Catalog"; "/Shared 2 0 R";
                "/Count 7"; ">>"; "endobj";
                "2 0 obj"; "/Shared#20Name"; "endobj";
                "3 0 obj"; "<<"; "/Title (x)"; "/Shared 2 0 R"; ">>";
                "endobj";
                "xref"; "0 3";
                "0000000000 00000 n ";
                "0000000014 00000 n ";
                "0000000073 00000 n ";
                "0000000103 00000 n ";
                "trailer"; "<< /Size 3 /Root 1 0 R /Info 3 0 R>>";
                "startxref"; "149"; "%%EOF" ]).
Proof. vm_compute. reflexivity. Qed.


(** ** Converted data *)

Lemma convertData_injective_witness :
  cd_data (convertData ["A"%byte] true) = cd_data (convertData ["A"%byte] true)
  /\ ["A"%byte] = ["A"%byte].
Proof.
  split; [reflexivity|].
  exact (convertData_injective true ["A"%byte] ["A"%byte] eq_refl).
Defined.

(** ** The table of two empty dictionaries, again *)

Lemma SavePDF_xref_offsets_witness :
  Z.of_nat (countIndirect twoDictionaries) < 2 ^ 31
  /\ SavePDF true 1 1 4 twoDictionaries 0%nat 1%nat = Ok twoDictionariesOut
  /\ (exists (body : string) (offsets : list nat) (trailer : string),
       twoDictionariesOut
       = body
         +:+ ("xref" +:+ LF
              +:+ "0 " +:+ show_size (countIndirect twoDictionaries) +:+ LF
              +:+ join (("0000000000 00000 n " +:+ LF)
                          :: (xrefEntry <$> offsets)))
         +:+ trailer
       /\ length offsets = countIndirect twoDictionaries
       /\ forall (j : nat) (off : nat),
            offsets !! j = Some off ->
            objectAt twoDictionariesOut (Z.of_nat j + 1) off)
  /\ SavePDF false 1 1 4 twoDictionaries 0%nat 1%nat
     = Ok twoDictionariesPiped
  /\ exists (body : string) (offsets : list nat) (trailer : string),
       twoDictionariesPiped
       = body
         +:+ ("xref" +:+ LF
              +:+ "0 " +:+ show_size (countIndirect twoDictionaries) +:+ LF
              +:+ join (("0000000000 00000 n " +:+ LF)
                          :: (xrefEntry <$> offsets)))
         +:+ trailer
       /\ length offsets = countIndirect twoDictionaries
       /\ forall (j : nat) (off : nat),
            offsets !! j = Some off -> off = 0%nat.
Proof.
  assert (Z.of_nat (countIndirect twoDictionaries) < 2 ^ 31) as Hmax
    by (vm_compute; reflexivity).
  split; [exact Hmax|]. split; [exact SavePDF_twoDictionaries|].
  split; [|split; [exact SavePDF_twoDictionaries_piped|]].
  - exact (SavePDF_xref_offsets true 1 1 4 twoDictionaries 0%nat 1%nat
             twoDictionariesOut Hmax SavePDF_twoDictionaries).
  - exact (SavePDF_xref_offsets false 1 1 4 twoDictionaries 0%nat 1%nat
             twoDictionariesPiped Hmax SavePDF_twoDictionaries_piped).
Defined.

(** ** The contents of a page *)

Lemma locateContents_pageObjects :
  fold_result locateContents (seq 0 (length pageObjects)) pageObjects
  = Ok pageObjectsMarked.
Proof. vm_compute. reflexivity. Qed.

Lemma SavePDF_locateContents_witness :
  fold_result locateContents (seq 0 (length pageObjects)) pageObjects
  = Ok pageObjectsMarked
  /\ pageObjectsMarked
     = imap (fun p o => if textMarked pageObjects p then setOutputAsText o
                        else o)
         pageObjects.
Proof.
  split; [exact locateContents_pageObjects|].
  exact (SavePDF_locateContents pageObjects pageObjectsMarked
           locateContents_pageObjects).
Defined.

(** ** The builder on the examples *)

Lemma VisitDict_sharedNameDoc :
  VisitDict sharedNameDoc (VisitObject sharedNameDoc 1) 0%nat Context_new
  = Ok (0%nat, sharedNameCtx).
Proof. vm_compute. reflexivity. Qed.

Lemma VisitDict_contextOK_witness :
  contextOK Context_new
  /\ VisitDict sharedNameDoc (VisitObject sharedNameDoc 1) 0%nat Context_new
     = Ok (0%nat, sharedNameCtx)
  /\ contextOK sharedNameCtx
  /\ (0 < length (objectList sharedNameCtx))%nat.
Proof.
  split; [exact contextOK_new|]. split; [exact VisitDict_sharedNameDoc|].
  exact (VisitDict_contextOK sharedNameDoc 1 0%nat Context_new sharedNameCtx
           0%nat contextOK_new VisitDict_sharedNameDoc).
Defined.

Lemma VisitDict_sharedNameDoc2 :
  VisitDict sharedNameDoc (VisitObject sharedNameDoc 1) 1%nat sharedNameCtx
  = Ok (2%nat, sharedNameCtx2).
Proof. vm_compute. reflexivity. Qed.

Lemma VisitDict_grows_witness :
  VisitDict sharedNameDoc (VisitObject sharedNameDoc 1) 1%nat sharedNameCtx
  = Ok (2%nat, sharedNameCtx2)
  /\ grows sharedNameCtx sharedNameCtx2
  /\ visited sharedNameCtx2 !! 1%nat = Some 2%nat.
Proof.
  split; [exact VisitDict_sharedNameDoc2|].
  exact (VisitDict_grows sharedNameDoc 1 1%nat sharedNameCtx sharedNameCtx2
           2%nat VisitDict_sharedNameDoc2).
Defined.

Lemma visitChild_found_witness :
  VisitObject sharedNameDoc 1 2%nat Context_new
  = Ok (register 2%nat (new (Name "N")) Context_new)
  /\ exists found,
       visitChild (VisitObject sharedNameDoc 1) 2%nat Context_new
       = Ok (found, register 2%nat (new (Name "N")) Context_new).
Proof.
  split; [reflexivity|].
  exact (visitChild_found sharedNameDoc 1 2%nat Context_new
           (register 2%nat (new (Name "N")) Context_new) eq_refl).
Defined.

Lemma wellFormedb_wellFormed (doc : CGPDFDocument) :
  wellFormedb doc = true -> wellFormed doc.
Proof.
  intros Hb id o value Hid Hvalue.
  apply bool_decide_eq_true_1 in Hb. specialize (Hb id o Hid).
  apply elem_of_dom. simpl in Hb.
  by apply (proj1 (Forall_forall _ _) Hb).
Qed.

Lemma streamFreeb_streamFree (doc : CGPDFDocument) :
  streamFreeb doc = true -> streamFree doc.
Proof.
  intros Hb id entries data format Hid.
  apply bool_decide_eq_true_1 in Hb. by specialize (Hb id _ Hid).
Qed.

Lemma VisitDict_never_Fault_witness :
  wellFormed streamCycleDoc
  /\ streamCycleDoc !! 0%nat = Some (kCGPDFObjectTypeDictionary [("S", 1%nat)])
  /\ VisitDict streamCycleDoc (VisitObject streamCycleDoc 4) 0%nat Context_new
     <> Fault.
Proof.
  assert (wellFormed streamCycleDoc) as Hwf
    by (apply wellFormedb_wellFormed; vm_compute; reflexivity).
  split; [exact Hwf|]. split; [reflexivity|].
  exact (VisitDict_never_Fault streamCycleDoc 4 0%nat [("S", 1%nat)]
           Context_new Hwf eq_refl).
Defined.

Lemma convert_never_Fault_witness :
  wellFormed streamCycleDoc
  /\ streamCycleDoc !! 0%nat = Some (kCGPDFObjectTypeDictionary [("S", 1%nat)])
  /\ streamCycleDoc !! 2%nat
     = Some (kCGPDFObjectTypeDictionary [("Back", 1%nat)])
  /\ convert streamCycleDoc true 4 0%nat 2%nat 1 4 <> Fault.
Proof.
  assert (wellFormed streamCycleDoc) as Hwf
    by (apply wellFormedb_wellFormed; vm_compute; reflexivity).
  split; [exact Hwf|]. split; [reflexivity|]. split; [reflexivity|].
  exact (convert_never_Fault true streamCycleDoc 4 0%nat 2%nat [("S", 1%nat)]
           [("Back", 1%nat)] 1 4 Hwf eq_refl eq_refl).
Defined.


Lemma VisitDict_faithful_witness :
  contextOK Context_new
  /\ faithful sharedNameDoc Context_new
  /\ VisitDict sharedNameDoc (VisitObject sharedNameDoc 1) 0%nat Context_new
     = Ok (0%nat, sharedNameCtx)
  /\ faithful sharedNameDoc sharedNameCtx.
Proof.
  split; [exact contextOK_new|]. split; [exact (faithful_new sharedNameDoc)|].
  split; [exact VisitDict_sharedNameDoc|].
  exact (VisitDict_faithful sharedNameDoc 1 0%nat Context_new sharedNameCtx
           0%nat contextOK_new (faithful_new sharedNameDoc)
           VisitDict_sharedNameDoc).
Defined.

Lemma VisitDict_no_ids_witness :
  Forall (fun o => getID o = 0) (objectList Context_new)
  /\ VisitDict sharedNameDoc (VisitObject sharedNameDoc 1) 0%nat Context_new
     = Ok (0%nat, sharedNameCtx)
  /\ Forall (fun o => getID o = 0) (objectList sharedNameCtx).
Proof.
  assert (Forall (fun o => getID o = 0) (objectList Context_new)) as Hnew
    by constructor.
  split; [exact Hnew|]. split; [exact VisitDict_sharedNameDoc|].
  exact (VisitDict_no_ids sharedNameDoc 1 0%nat Context_new sharedNameCtx
           0%nat Hnew VisitDict_sharedNameDoc).
Defined.

Lemma VisitDict_without_streams_witness :
  wellFormed dictCycleDoc /\ streamFree dictCycleDoc
  /\ dictCycleDoc !! 0%nat
     = Some (kCGPDFObjectTypeDictionary [("Kids", 1%nat)])
  /\ (size (dom dictCycleDoc) <= 2)%nat
  /\ exists p ctx',
       VisitDict dictCycleDoc (VisitObject dictCycleDoc 2) 0%nat Context_new
       = Ok (p, ctx')
       /\ length (objectList ctx') = size (visited ctx').
Proof.
  assert (wellFormed dictCycleDoc) as Hwf
    by (apply wellFormedb_wellFormed; vm_compute; reflexivity).
  assert (streamFree dictCycleDoc) as Hfree
    by (apply streamFreeb_streamFree; vm_compute; reflexivity).
  assert (size (dom dictCycleDoc) <= 2)%nat as Hsize
    by (vm_compute; lia).
  split; [exact Hwf|]. split; [exact Hfree|]. split; [reflexivity|].
  split; [exact Hsize|].
  exact (VisitDict_without_streams dictCycleDoc 2 0%nat [("Kids", 1%nat)]
           Hwf Hfree eq_refl Hsize).
Defined.

Example VisitDict_dictCycleDoc :
  VisitDict dictCycleDoc (VisitObject dictCycleDoc 2) 0%nat Context_new
  = Ok (0%nat, dictCycleCtx).
Proof. vm_compute. reflexivity. Qed.

Lemma WriteObject_referringDictionary :
  WriteObject 2 referredObjects referringDictionary
  = Ok referringDictionaryOut.
Proof. vm_compute. reflexivity. Qed.

Lemma WriteObject_Dictionary_references_witness :
  _sub referringDictionary
  = Dictionary (PDFDictionary_of
                  [("Count", 0%nat); ("Shared", 1%nat); ("Kids", 2%nat)])
  /\ WriteObject 2 referredObjects referringDictionary
     = Ok referringDictionaryOut
  /\ exists values,
       Forall2 (fun key value =>
                  forall p target,
                    PDFDictionary_value
                      (PDFDictionary_of
                         [("Count", 0%nat); ("Shared", 1%nat);
                          ("Kids", 2%nat)])
                      key = Some p ->
                    referredObjects !! p = Some target ->
                    indirect target = true ->
                    value = show_int (getID target) +:+ " 0 R" +:+ LF)
         ["Count"; "Shared"; "Kids"] values
       /\ lines [ "<<"; "/Count 7"; "/Shared 5 0 R"; "/Kids 6 0 R" ]
          +:+ ">>"
          = "<<" +:+ LF
            +:+ join (zip_with keyThenValue ["Count"; "Shared"; "Kids"]
                        values)
            +:+ ">>".
Proof.
  split; [reflexivity|]. split; [exact WriteObject_referringDictionary|].
  exact (WriteObject_Dictionary_references 1 referredObjects
           referringDictionary
           (PDFDictionary_of
              [("Count", 0%nat); ("Shared", 1%nat); ("Kids", 2%nat)])
           referringDictionaryOut eq_refl WriteObject_referringDictionary).
Defined.

(** ** An array with an inline and an indirect element *)

Lemma WriteObject_mixedArray :
  WriteObject 2 [new (Number (IntValue 7)); inc (new (Name "N"))]
    (new (Array [0%nat; 1%nat]))
  = Ok "[ 7 0 0 R ]".
Proof. vm_compute. reflexivity. Qed.

Lemma WriteObject_Array_witness :
  _sub (new (Array [0%nat; 1%nat])) = Array [0%nat; 1%nat]
  /\ WriteObject 2 [new (Number (IntValue 7)); inc (new (Name "N"))]
       (new (Array [0%nat; 1%nat]))
     = Ok "[ 7 0 0 R ]"
  /\ exists values,
       Forall2 (fun p value =>
                  exists target,
                    [new (Number (IntValue 7)); inc (new (Name "N"))] !! p
                    = Some target
                    /\ if indirect target
                       then value = show_int (getID target) +:+ " 0 R"
                       else WriteObject 1
                              [new (Number (IntValue 7));
                               inc (new (Name "N"))] target
                            = Ok value)
         [0%nat; 1%nat] values
       /\ "[ 7 0 0 R ]"
          = "[ " +:+ join ((fun value => value +:+ " ") <$> values) +:+ "]".
Proof.
  split; [reflexivity|]. split; [exact WriteObject_mixedArray|].
  exact (WriteObject_Array 1 [new (Number (IntValue 7)); inc (new (Name "N"))]
           (new (Array [0%nat; 1%nat])) [0%nat; 1%nat] "[ 7 0 0 R ]"
           eq_refl WriteObject_mixedArray).
Defined.


(** ** A file that cannot be opened *)

Lemma main_each_file_witness :
  ["a.pdf"; "b.pdf"] <> []
  /\ Forall2 (fun arg r => convertFile Some onlyB true 2 arg = Ok r)
       ["a.pdf"; "b.pdf"]
       [(EmptyString, "cannot open file -> a.pdf" +:+ LF);
        (sharedNameOut, EmptyString)]
  /\ main Some onlyB true 2 ["pdf2text"; "a.pdf"; "b.pdf"]
     = Ok (join [(EmptyString, "cannot open file -> a.pdf" +:+ LF);
                 (sharedNameOut, EmptyString)].*1,
           join [(EmptyString, "cannot open file -> a.pdf" +:+ LF);
                 (sharedNameOut, EmptyString)].*2, 0).
Proof.
  assert (["a.pdf"; "b.pdf"] <> @nil string) as Hfiles by done.
  assert (Forall2 (fun arg r => convertFile Some onlyB true 2 arg = Ok r)
            ["a.pdf"; "b.pdf"]
            [(EmptyString, "cannot open file -> a.pdf" +:+ LF);
             (sharedNameOut, EmptyString)])
    as Hrs.
  { constructor; [reflexivity|].
    constructor; [vm_compute; reflexivity|constructor]. }
  split; [exact Hfiles|]. split; [exact Hrs|].
  exact (main_each_file Some onlyB true 2 "pdf2text" ["a.pdf"; "b.pdf"]
           [(EmptyString, "cannot open file -> a.pdf" +:+ LF);
            (sharedNameOut, EmptyString)] Hfiles Hrs).
Defined.

Example main_usage :
  main Some (fun _ => None) true 0 ["pdf2text"]
  = Ok ("usage: pdf2textfile [file...]" +:+ LF, EmptyString, -1).
Proof. reflexivity. Qed.


(** ** The objects of two empty dictionaries *)

Lemma SavePDF_body_witness :
  SavePDF true 1 1 4 twoDictionaries 0%nat 1%nat = Ok twoDictionariesOut
  /\ (exists (marked : list PDFObject) (texts : list string)
            (xref : gmap Z nat) (root info : PDFObject),
       let written := filter (fun o => indirect o = true) marked in
       let body := writeHeader 1 4
                   +:+ join (zip_with objectWritten written texts) in
       Forall2 sameButText (assignIDs 0 twoDictionaries) marked
       /\ Forall2 (fun o w => WriteObject 1 marked o = Ok w) written texts
       /\ marked !! 0%nat = Some root /\ marked !! 1%nat = Some info
       /\ twoDictionariesOut
          = body +:+ writeXref xref
            +:+ writeTrailer xref root info (String.length body))
  /\ SavePDF false 1 1 4 twoDictionaries 0%nat 1%nat
     = Ok twoDictionariesPiped
  /\ exists (marked : list PDFObject) (texts : list string)
            (xref : gmap Z nat) (root info : PDFObject),
       let written := filter (fun o => indirect o = true) marked in
       let body := writeHeader 1 4
                   +:+ join (zip_with objectWritten written texts) in
       Forall2 sameButText (assignIDs 0 twoDictionaries) marked
       /\ Forall2 (fun o w => WriteObject 1 marked o = Ok w) written texts
       /\ marked !! 0%nat = Some root /\ marked !! 1%nat = Some info
       /\ twoDictionariesPiped
          = body +:+ writeXref xref +:+ writeTrailer xref root info 0.
Proof.
  split; [exact SavePDF_twoDictionaries|].
  split; [|split; [exact SavePDF_twoDictionaries_piped|]].
  - exact (SavePDF_body true 1 1 4 twoDictionaries 0%nat 1%nat
             twoDictionariesOut SavePDF_twoDictionaries).
  - exact (SavePDF_body false 1 1 4 twoDictionaries 0%nat 1%nat
             twoDictionariesPiped SavePDF_twoDictionaries_piped).
Defined.


(** ** The counts of the shared Name *)

Lemma VisitDict_counted_witness :
  contextOK Context_new /\ counted [] Context_new
  /\ VisitDict sharedNameDoc (VisitObject sharedNameDoc 1) 0%nat Context_new
     = Ok (0%nat, sharedNameCtx)
  /\ counted [0%nat] sharedNameCtx.
Proof.
  split; [exact contextOK_new|]. split; [exact counted_new|].
  split; [exact VisitDict_sharedNameDoc|].
  exact (VisitDict_counted sharedNameDoc 1 0%nat Context_new sharedNameCtx
           0%nat [] contextOK_new counted_new VisitDict_sharedNameDoc).
Defined.

Lemma SavePDF_after_VisitDict_witness :
  VisitDict sharedNameDoc (VisitObject sharedNameDoc 1) 0%nat Context_new
  = Ok (0%nat, sharedNameCtx)
  /\ VisitDict sharedNameDoc (VisitObject sharedNameDoc 1) 1%nat
       sharedNameCtx
     = Ok (2%nat, sharedNameCtx2)
  /\ Z.of_nat (length (objectList sharedNameCtx2 ≫= ptrsOf)) + 2 < 2 ^ 64
  /\ (length (objectList sharedNameCtx2) + 2 <= 5)%nat
  /\ exists out,
       SavePDF true 5 1 4 (objectList sharedNameCtx2) 0%nat 2%nat = Ok out.
Proof.
  assert (Z.of_nat (length (objectList sharedNameCtx2 ≫= ptrsOf)) + 2
          < 2 ^ 64) as Hmax by (vm_compute; reflexivity).
  assert (length (objectList sharedNameCtx2) + 2 <= 5)%nat as Hfuel
    by (vm_compute; lia).
  split; [exact VisitDict_sharedNameDoc|].
  split; [exact VisitDict_sharedNameDoc2|].
  split; [exact Hmax|]. split; [exact Hfuel|].
  exact (SavePDF_after_VisitDict true sharedNameDoc 1 5 0%nat 1%nat 0%nat 2%nat
           sharedNameCtx sharedNameCtx2 1 4
           VisitDict_sharedNameDoc VisitDict_sharedNameDoc2 Hmax Hfuel).
Defined.


(** ** The catalog and the info dictionary with a Name in common, in
    general *)

Lemma childrenWithin_spec (M : nat) (doc : CGPDFDocument) :
  childrenWithin M doc = true ->
  forall id o, doc !! id = Some o -> (length (children o) <= M)%nat.
Proof.
  intros Hb id o Hid. apply bool_decide_eq_true_1 in Hb.
  exact (Hb id o Hid).
Qed.

Lemma convert_returns_witness :
  wellFormed catalogInfoDoc /\ streamFree catalogInfoDoc
  /\ catalogInfoDoc !! 0%nat
     = Some (kCGPDFObjectTypeDictionary
               [("Type", 2%nat); ("Shared", 3%nat); ("Count", 4%nat)])
  /\ catalogInfoDoc !! 1%nat
     = Some (kCGPDFObjectTypeDictionary
               [("Title", 5%nat); ("Shared", 3%nat)])
  /\ (forall id o, catalogInfoDoc !! id = Some o ->
        (length (children o) <= 3)%nat)
  /\ Z.of_nat (size (dom catalogInfoDoc) * 3) + 2 < 2 ^ 64
  /\ (size (dom catalogInfoDoc) + 2 <= 8)%nat
  /\ exists out, convert catalogInfoDoc true 8 0%nat 1%nat 1 4 = Ok out.
Proof.
  assert (wellFormed catalogInfoDoc) as Hwf
    by (apply wellFormedb_wellFormed; vm_compute; reflexivity).
  assert (streamFree catalogInfoDoc) as Hfree
    by (apply streamFreeb_streamFree; vm_compute; reflexivity).
  assert (forall id o, catalogInfoDoc !! id = Some o ->
            (length (children o) <= 3)%nat) as HM
    by (apply childrenWithin_spec; vm_compute; reflexivity).
  assert (Z.of_nat (size (dom catalogInfoDoc) * 3) + 2 < 2 ^ 64) as Hmax
    by (vm_compute; reflexivity).
  assert (size (dom catalogInfoDoc) + 2 <= 8)%nat as Hfuel
    by (vm_compute; lia).
  split; [exact Hwf|]. split; [exact Hfree|]. split; [reflexivity|].
  split; [reflexivity|]. split; [exact HM|]. split; [exact Hmax|].
  split; [exact Hfuel|].
  exact (convert_returns true catalogInfoDoc 8 0%nat 1%nat
           [("Type", 2%nat); ("Shared", 3%nat); ("Count", 4%nat)]
           [("Title", 5%nat); ("Shared", 3%nat)] 1 4 3
           Hwf Hfree eq_refl eq_refl HM Hmax Hfuel).
Defined.


Lemma SavePDF_numbered_witness :
  Z.of_nat (countIndirect twoDictionaries) < 2 ^ 31
  /\ SavePDF true 1 1 4 twoDictionaries 0%nat 1%nat = Ok twoDictionariesOut
  /\ exists (texts : list string) (rest : string),
       length texts = countIndirect twoDictionaries
       /\ twoDictionariesOut
          = writeHeader 1 4
            +:+ join (zip_with numberedObject
                        (seqZ 1 (Z.of_nat (countIndirect twoDictionaries)))
                        texts)
            +:+ "xref" +:+ LF +:+ rest.
Proof.
  assert (Z.of_nat (countIndirect twoDictionaries) < 2 ^ 31) as Hmax
    by (vm_compute; reflexivity).
  split; [exact Hmax|]. split; [exact SavePDF_twoDictionaries|].
  exact (SavePDF_numbered true 1 1 4 twoDictionaries 0%nat 1%nat
           twoDictionariesOut Hmax SavePDF_twoDictionaries).
Defined.

End Witnesses.
